(** * Media-server core: the packetization bridge and the event loop

    A shallow embedding of

    - [MediaFrameListenerBridge] (AddListener, RemoveListener, onMediaFrame,
      Reset, Update), and
    - [EventLoop] (Send, Async, Signal, Stop and the write-drain and
      task-drain phases of Run),

    followed by the properties of the design document that concern them.

    Unsigned machine integers are values of [Z] with the wrap-around written
    out ([WORD], [DWORD], [QWORD]).  The system clock, the outcome of
    [sendto] and of [poll] and the memory behind the data of a frame are
    inputs of the functions that read them. *)

From Stdlib Require Import ZArith List Bool Lia Sorted.
From stdpp Require Import base list gmap.
Import ListNotations.

Local Open Scope Z_scope.

(** ** Fixed-width unsigned arithmetic *)

Definition wrap (bits : Z) (x : Z) : Z := x mod 2 ^ bits.

Definition WORD (x : Z) : Z := wrap 16 x.
Definition DWORD (x : Z) : Z := wrap 32 x.
Definition QWORD (x : Z) : Z := wrap 64 x.

(** ** The bitrate accumulator

    The class [Acumulator] is a collaborator of the bridge: the bridge only
    calls [Update(now,size)], [Update(now)] and [GetInstant()]. *)

Class AcumulatorOps (A : Type) := {
  acuUpdate : Z -> Z -> A -> A;      (* Update(now, size) *)
  acuTick : Z -> A -> A;             (* Update(now)       *)
  acuGetInstant : A -> Z             (* GetInstant()      *)
}.

(** Modelled from the spec: the accumulator is "a sliding-window byte-rate
    estimator"; its class is not part of the sources.  This instance keeps
    the samples of the last [window] milliseconds and reports their sum. *)
Record WindowAcu := { window : Z; samples : list (Z * Z) }.

Definition acu_prune (now : Z) (a : WindowAcu) : WindowAcu :=
  {| window := window a;
     samples := List.filter (fun e => now - window a <? fst e) (samples a) |}.

Definition acu_sum (a : WindowAcu) : Z :=
  fold_right (fun e t => snd e + t) 0 (samples a).

#[export] Instance WindowAcuOps : AcumulatorOps WindowAcu := {
  acuUpdate now size a :=
    acu_prune now {| window := window a; samples := samples a ++ [(now, size)] |};
  acuTick now a := acu_prune now a;
  acuGetInstant a := acu_sum a
}.

Module Bridge.

(** *** Frames, descriptors and packets *)

(** [MediaFrame::Type]: the bridge distinguishes Audio and Video and ignores
    every other type. *)
Inductive MediaType := Audio | Video | Other.

(** [MediaFrame::RtpPacketization]: a slice [pos, pos+size) of the frame and
    the prefix bytes put in front of it. *)
Record RtpPacketization := {
  rpPos : Z;
  rpSize : Z;
  rpPrefix : list Byte.byte
}.

Definition GetPrefixLen (r : RtpPacketization) : Z := Z.of_nat (length (rpPrefix r)).

(** Modelled from the spec: [GetTotalLength] is declared with the frame
    classes, which are not part of the sources; the "declared total length"
    of a descriptor is its slice plus its prefix. *)
Definition GetTotalLength (r : RtpPacketization) : Z := rpSize r + GetPrefixLen r.

Record MediaFrame := {
  fType : MediaType;
  fCodec : Z;
  fData : list Byte.byte;
  fTimeStamp : Z;
  fRtpInfo : list RtpPacketization
}.

Definition GetLength (f : MediaFrame) : Z := Z.of_nat (length (fData f)).

(** Modelled from the spec: a frame has packetization info when its list of
    descriptors is not empty. *)
Definition HasRtpPacketizationInfo (f : MediaFrame) : bool :=
  match fRtpInfo f with [] => false | _ :: _ => true end.

Record RTPPacket := {
  pMedia : MediaType;
  pCodec : Z;
  pSSRC : Z;
  pExtSeqNum : Z;
  pPayload : list Byte.byte;
  pTimestamp : Z;
  pMark : bool;
  pLayerIds : option (Z * Z)
}.

(** The sequence number carried on the wire: the low 16 bits. *)
Definition GetSeqNum (p : RTPPacket) : Z := WORD (pExtSeqNum p).

(** [SetPayload(frameData+pos,size)] copies [size] bytes starting [pos]
    bytes into the data of the frame, with no look at the length of the
    frame: a byte at or past the end of the data is whatever the memory holds
    there, [after k] for the byte [k] places past the end. *)
Definition byteAt (after : nat -> Byte.byte) (data : list Byte.byte) (i : nat)
    : Byte.byte :=
  match nth_error data i with
  | Some b => b
  | None => after (i - length data)%nat
  end.

Definition slice (after : nat -> Byte.byte) (data : list Byte.byte) (pos size : Z)
    : list Byte.byte :=
  List.map (byteAt after data) (seq (Z.to_nat pos) (Z.to_nat size)).

Definition eqb_type (a b : MediaType) : bool :=
  match a, b with
  | Audio, Audio | Video, Video | Other, Other => true
  | _, _ => false
  end.

(** The rate chosen by the switch on the frame type; [None] is the
    [default: return] branch. *)
Definition rateOf (t : MediaType) : option Z :=
  match t with
  | Audio => Some 48
  | Video => Some 90
  | Other => None
  end.

Section WithCollaborators.

Context {A : Type} `{AcumulatorOps A}.

(** [RTPPacket::GetMaxMediaLength()], a constant of the packet class. *)
Variable maxMediaLength : Z.

(** [VideoLayerSelector::GetLayerIds], which reads the payload of a video
    packet and annotates the packet with its layer ids. *)
Variable GetLayerIds : Z -> list Byte.byte -> Z * Z.

(** The memory that follows the data of a frame, read when a descriptor
    reaches past the end of the frame. *)
Variable beyond : MediaFrame -> nat -> Byte.byte.

(** *** The bridge

    The members are declared in the class header, which is not part of the
    sources.  The width of [extSeqNum] is the one the design document gives
    (32 bits); timestamps and times are [QWORD]s like the clock, counters are
    [DWORD]s. *)
Record MediaFrameListenerBridge := {
  ssrc : Z;
  extSeqNum : Z;
  listeners : gset Z;
  reset : bool;
  firstTimestamp : Z;
  baseTimestamp : Z;
  lastTimestamp : Z;
  lastTime : Z;
  numFrames : Z;
  numPackets : Z;
  totalBytes : Z;
  bitrate : Z;
  acumulator : A
}.

Definition set_extSeqNum v (s : MediaFrameListenerBridge) :=
  {| ssrc := ssrc s; extSeqNum := v; listeners := listeners s; reset := reset s;
     firstTimestamp := firstTimestamp s; baseTimestamp := baseTimestamp s;
     lastTimestamp := lastTimestamp s; lastTime := lastTime s;
     numFrames := numFrames s; numPackets := numPackets s;
     totalBytes := totalBytes s; bitrate := bitrate s; acumulator := acumulator s |}.

Definition set_listeners v (s : MediaFrameListenerBridge) :=
  {| ssrc := ssrc s; extSeqNum := extSeqNum s; listeners := v; reset := reset s;
     firstTimestamp := firstTimestamp s; baseTimestamp := baseTimestamp s;
     lastTimestamp := lastTimestamp s; lastTime := lastTime s;
     numFrames := numFrames s; numPackets := numPackets s;
     totalBytes := totalBytes s; bitrate := bitrate s; acumulator := acumulator s |}.

Definition set_reset v (s : MediaFrameListenerBridge) :=
  {| ssrc := ssrc s; extSeqNum := extSeqNum s; listeners := listeners s; reset := v;
     firstTimestamp := firstTimestamp s; baseTimestamp := baseTimestamp s;
     lastTimestamp := lastTimestamp s; lastTime := lastTime s;
     numFrames := numFrames s; numPackets := numPackets s;
     totalBytes := totalBytes s; bitrate := bitrate s; acumulator := acumulator s |}.

Definition set_firstTimestamp v (s : MediaFrameListenerBridge) :=
  {| ssrc := ssrc s; extSeqNum := extSeqNum s; listeners := listeners s; reset := reset s;
     firstTimestamp := v; baseTimestamp := baseTimestamp s;
     lastTimestamp := lastTimestamp s; lastTime := lastTime s;
     numFrames := numFrames s; numPackets := numPackets s;
     totalBytes := totalBytes s; bitrate := bitrate s; acumulator := acumulator s |}.

Definition set_baseTimestamp v (s : MediaFrameListenerBridge) :=
  {| ssrc := ssrc s; extSeqNum := extSeqNum s; listeners := listeners s; reset := reset s;
     firstTimestamp := firstTimestamp s; baseTimestamp := v;
     lastTimestamp := lastTimestamp s; lastTime := lastTime s;
     numFrames := numFrames s; numPackets := numPackets s;
     totalBytes := totalBytes s; bitrate := bitrate s; acumulator := acumulator s |}.

Definition set_lastTimestamp v (s : MediaFrameListenerBridge) :=
  {| ssrc := ssrc s; extSeqNum := extSeqNum s; listeners := listeners s; reset := reset s;
     firstTimestamp := firstTimestamp s; baseTimestamp := baseTimestamp s;
     lastTimestamp := v; lastTime := lastTime s;
     numFrames := numFrames s; numPackets := numPackets s;
     totalBytes := totalBytes s; bitrate := bitrate s; acumulator := acumulator s |}.

Definition set_numFrames v (s : MediaFrameListenerBridge) :=
  {| ssrc := ssrc s; extSeqNum := extSeqNum s; listeners := listeners s; reset := reset s;
     firstTimestamp := firstTimestamp s; baseTimestamp := baseTimestamp s;
     lastTimestamp := lastTimestamp s; lastTime := lastTime s;
     numFrames := v; numPackets := numPackets s;
     totalBytes := totalBytes s; bitrate := bitrate s; acumulator := acumulator s |}.

Definition set_numPackets v (s : MediaFrameListenerBridge) :=
  {| ssrc := ssrc s; extSeqNum := extSeqNum s; listeners := listeners s; reset := reset s;
     firstTimestamp := firstTimestamp s; baseTimestamp := baseTimestamp s;
     lastTimestamp := lastTimestamp s; lastTime := lastTime s;
     numFrames := numFrames s; numPackets := v;
     totalBytes := totalBytes s; bitrate := bitrate s; acumulator := acumulator s |}.

Definition set_totalBytes v (s : MediaFrameListenerBridge) :=
  {| ssrc := ssrc s; extSeqNum := extSeqNum s; listeners := listeners s; reset := reset s;
     firstTimestamp := firstTimestamp s; baseTimestamp := baseTimestamp s;
     lastTimestamp := lastTimestamp s; lastTime := lastTime s;
     numFrames := numFrames s; numPackets := numPackets s;
     totalBytes := v; bitrate := bitrate s; acumulator := acumulator s |}.

Definition set_bitrate (a : A) v (s : MediaFrameListenerBridge) :=
  {| ssrc := ssrc s; extSeqNum := extSeqNum s; listeners := listeners s; reset := reset s;
     firstTimestamp := firstTimestamp s; baseTimestamp := baseTimestamp s;
     lastTimestamp := lastTimestamp s; lastTime := lastTime s;
     numFrames := numFrames s; numPackets := numPackets s;
     totalBytes := totalBytes s; bitrate := v; acumulator := a |}.

(** The constructor: [ssrc] is supplied by the owner, every other member
    starts at zero. *)
Definition create (ssrc0 : Z) (acu0 : A) : MediaFrameListenerBridge :=
  {| ssrc := ssrc0; extSeqNum := 0; listeners := ∅; reset := false;
     firstTimestamp := 0; baseTimestamp := 0; lastTimestamp := 0; lastTime := 0;
     numFrames := 0; numPackets := 0; totalBytes := 0; bitrate := 0;
     acumulator := acu0 |}.

Definition AddListener (l : Z) (s : MediaFrameListenerBridge) :=
  set_listeners ({[ l ]} ∪ listeners s) s.

Definition RemoveListener (l : Z) (s : MediaFrameListenerBridge) :=
  set_listeners (listeners s ∖ {[ l ]}) s.

Definition Reset (s : MediaFrameListenerBridge) := set_reset true s.

Definition Update (now : Z) (s : MediaFrameListenerBridge) :=
  let a := acuTick now (acumulator s) in
  set_bitrate a (DWORD (acuGetInstant a * 8)) s.

(** Modelled from the spec: [getTimeDiff(t)] is the time elapsed since [t]
    ("now_ms - last_time_ms"); the helper is not part of the sources. *)
Definition getTimeDiff (now t : Z) : Z := QWORD (now - t).

(** *** onMediaFrame *)

(** The packet built for descriptor [i] of [total], with the value [seq] of
    the counter before its increment and the timestamp [ts] just assigned to
    [lastTimestamp].  The RTP header holds a 32-bit timestamp. *)
Definition makePacket (frame : MediaFrame) (rate : Z) (total i : nat)
    (rtp : RtpPacketization) (seq ts : Z) (s : MediaFrameListenerBridge) : RTPPacket :=
  let payload :=
    rpPrefix rtp ++ slice (beyond frame) (fData frame) (rpPos rtp) (rpSize rtp) in
  {| pMedia := fType frame;
     pCodec := fCodec frame;
     pSSRC := ssrc s;
     pExtSeqNum := seq;
     pPayload := payload;
     pTimestamp := DWORD (ts * rate);
     pMark := Nat.eqb (i + 1) total;
     pLayerIds := if eqb_type (fType frame) Video
                  then Some (GetLayerIds (fCodec frame) payload) else None |}.

(** The loop [for (i=0; i<info.size(); i++)], entered at index [i] with the
    descriptors [rest] still to visit; it returns the final state and the
    packets handed to the listeners, in order.  The locals [frameLength] and
    [current] are summed up and never read; they are left out. *)
Fixpoint packetize (frame : MediaFrame) (rate : Z) (total i : nat)
    (rest : list RtpPacketization) (s : MediaFrameListenerBridge)
    : MediaFrameListenerBridge * list RTPPacket :=
  match rest with
  | [] => (s, [])
  | rtp :: rest' =>
      if GetTotalLength rtp >? maxMediaLength
      then packetize frame rate total (S i) rest' s          (* continue *)
      else
        let seq := extSeqNum s in
        let s1 := set_extSeqNum (DWORD (seq + 1)) s in
        let ts := QWORD (baseTimestamp s1 + QWORD (fTimeStamp frame - firstTimestamp s1)) in
        let s2 := set_lastTimestamp ts s1 in
        let packet := makePacket frame rate total i rtp seq ts s2 in
        let s3 := set_numPackets (DWORD (numPackets s2 + 1)) s2 in
        let '(s4, out) := packetize frame rate total (S i) rest' s3 in
        (s4, packet :: out)
  end.

Definition onMediaFrame (frame : MediaFrame) (now : Z) (s : MediaFrameListenerBridge)
    : MediaFrameListenerBridge * list RTPPacket :=
  if negb (HasRtpPacketizationInfo frame) then (s, [])
  else
    let s :=
      if reset s
      then set_reset false (set_baseTimestamp (lastTimestamp s) (set_firstTimestamp 0 s))
      else s in
    let info := fRtpInfo frame in
    match rateOf (fType frame) with
    | None => (s, [])
    | Some rate =>
        let frameSize := DWORD (GetLength frame) in
        let s := set_numFrames (DWORD (numFrames s + 1)) s in
        let s := set_totalBytes (DWORD (totalBytes s + frameSize)) s in
        let a := acuUpdate now frameSize (acumulator s) in
        let s := set_bitrate a (DWORD (acuGetInstant a * 8)) s in
        let s :=
          if firstTimestamp s =? 0
          then
            let s :=
              if negb (lastTime s =? 0)
              then set_baseTimestamp
                     (QWORD (lastTimestamp s
                             + QWORD (getTimeDiff now (lastTime s) * rate) / 1000 + 1)) s
              else s in
            set_firstTimestamp (fTimeStamp frame) s
          else s in
        packetize frame rate (length info) 0 info s
    end.

(** The packets reach every registered listener, packet by packet. *)
Definition fanout (s : MediaFrameListenerBridge) (out : list RTPPacket)
    : list (Z * RTPPacket) :=
  flat_map (fun p => List.map (fun l => (l, p)) (elements (listeners s))) out.

(** Feeding a sequence of frames, each with the clock reading of its call. *)
Fixpoint feed (frames : list (MediaFrame * Z)) (s : MediaFrameListenerBridge)
    : MediaFrameListenerBridge * list RTPPacket :=
  match frames with
  | [] => (s, [])
  | (frame, now) :: frames' =>
      let '(s1, out1) := onMediaFrame frame now s in
      let '(s2, out2) := feed frames' s1 in
      (s2, out1 ++ out2)
  end.

End WithCollaborators.

End Bridge.

Module EventLoop.

(** *** Data *)

Inductive State := Normal | Lagging | Overflown.

Definition eqb_state (a b : State) : bool :=
  match a, b with
  | Normal, Normal | Lagging, Lagging | Overflown, Overflown => true
  | _, _ => false
  end.

(** [size_t EventLoop::MaxSendingQueueSize = 16*1024]. *)
Definition MaxSendingQueueSize : Z := 16 * 1024.

Record SendBuffer := {
  ipAddr : Z;
  port : Z;
  packet : list Byte.byte
}.

(** The thread that calls an operation of the loop. *)
Inductive Thread := LoopThread | OtherThread.

(** The worker thread: not started (or already joined), inside [Run], or
    returned from [Run] and not yet joined. *)
Inductive Worker := NotStarted | InRun | Returned.

(** What [poll] does for a worker that waits in it, the signalling
    descriptor apart: it stays blocked (no timeout, no timer, a quiet
    socket), it returns (a timeout, a timer or traffic on the socket), or it
    returns with POLLERR or POLLHUP. *)
Inductive Poll := PollBlocked | PollReturns | PollError.

(** What [sendto] answers. *)
Inductive Errno := EAGAIN | EWOULDBLOCK | ECONNREFUSED | EPERM.

Inductive SendResult := Sent | Failed (e : Errno).

Definition failed (r : SendResult) : bool :=
  match r with Sent => false | Failed _ => true end.

(** [errno==EAGAIN || errno==EWOULDBLOCK] *)
Definition again (r : SendResult) : bool :=
  match r with
  | Failed EAGAIN | Failed EWOULDBLOCK => true
  | _ => false
  end.

(** What the task queue and the promises show to an observer. *)
Inductive Event :=
| Executed (promise : nat)
| Resolved (promise : nat).

Section WithWorld.

(** Whatever the closures of the tasks act upon. *)
Context {World : Type}.

(** [std::pair<std::promise<void>, std::function<void(milliseconds)>>] *)
Record Task := {
  promise : nat;
  func : Z -> World -> World
}.

(** The successive readings of the system clock. *)
Variable clock : nat -> Z.

(** [pipeWrites] counts the writes to the signalling descriptor that have
    not been read back. *)
Record EventLoop := {
  running : bool;
  worker : Worker;
  pipeOpen : bool;
  signaled : bool;
  pipeWrites : nat;
  state : State;
  sending : list SendBuffer;
  tasks : list Task;
  ticks : nat;
  now : Z;
  world : World;
  history : list Event
}.

Definition set_running v (l : EventLoop) : EventLoop :=
  {| running := v; worker := worker l; pipeOpen := pipeOpen l; signaled := signaled l;
     pipeWrites := pipeWrites l; state := state l; sending := sending l;
     tasks := tasks l; ticks := ticks l; now := now l; world := world l;
     history := history l |}.

Definition set_worker v (l : EventLoop) : EventLoop :=
  {| running := running l; worker := v; pipeOpen := pipeOpen l; signaled := signaled l;
     pipeWrites := pipeWrites l; state := state l; sending := sending l;
     tasks := tasks l; ticks := ticks l; now := now l; world := world l;
     history := history l |}.

Definition set_pipeOpen v (l : EventLoop) : EventLoop :=
  {| running := running l; worker := worker l; pipeOpen := v; signaled := signaled l;
     pipeWrites := pipeWrites l; state := state l; sending := sending l;
     tasks := tasks l; ticks := ticks l; now := now l; world := world l;
     history := history l |}.

Definition set_signaled v (l : EventLoop) : EventLoop :=
  {| running := running l; worker := worker l; pipeOpen := pipeOpen l; signaled := v;
     pipeWrites := pipeWrites l; state := state l; sending := sending l;
     tasks := tasks l; ticks := ticks l; now := now l; world := world l;
     history := history l |}.

Definition set_pipeWrites v (l : EventLoop) : EventLoop :=
  {| running := running l; worker := worker l; pipeOpen := pipeOpen l;
     signaled := signaled l; pipeWrites := v; state := state l; sending := sending l;
     tasks := tasks l; ticks := ticks l; now := now l; world := world l;
     history := history l |}.

Definition set_state v (l : EventLoop) : EventLoop :=
  {| running := running l; worker := worker l; pipeOpen := pipeOpen l;
     signaled := signaled l; pipeWrites := pipeWrites l; state := v;
     sending := sending l; tasks := tasks l; ticks := ticks l; now := now l;
     world := world l; history := history l |}.

Definition set_sending v (l : EventLoop) : EventLoop :=
  {| running := running l; worker := worker l; pipeOpen := pipeOpen l;
     signaled := signaled l; pipeWrites := pipeWrites l; state := state l;
     sending := v; tasks := tasks l; ticks := ticks l; now := now l; world := world l;
     history := history l |}.

Definition set_tasks v (l : EventLoop) : EventLoop :=
  {| running := running l; worker := worker l; pipeOpen := pipeOpen l;
     signaled := signaled l; pipeWrites := pipeWrites l; state := state l;
     sending := sending l; tasks := v; ticks := ticks l; now := now l;
     world := world l; history := history l |}.

Definition set_ticks v (l : EventLoop) : EventLoop :=
  {| running := running l; worker := worker l; pipeOpen := pipeOpen l;
     signaled := signaled l; pipeWrites := pipeWrites l; state := state l;
     sending := sending l; tasks := tasks l; ticks := v; now := now l;
     world := world l; history := history l |}.

Definition set_now v (l : EventLoop) : EventLoop :=
  {| running := running l; worker := worker l; pipeOpen := pipeOpen l;
     signaled := signaled l; pipeWrites := pipeWrites l; state := state l;
     sending := sending l; tasks := tasks l; ticks := ticks l; now := v;
     world := world l; history := history l |}.

Definition set_world v (l : EventLoop) : EventLoop :=
  {| running := running l; worker := worker l; pipeOpen := pipeOpen l;
     signaled := signaled l; pipeWrites := pipeWrites l; state := state l;
     sending := sending l; tasks := tasks l; ticks := ticks l; now := now l;
     world := v; history := history l |}.

Definition set_history v (l : EventLoop) : EventLoop :=
  {| running := running l; worker := worker l; pipeOpen := pipeOpen l;
     signaled := signaled l; pipeWrites := pipeWrites l; state := state l;
     sending := sending l; tasks := tasks l; ticks := ticks l; now := now l;
     world := world l; history := v |}.

Definition create (w : World) : EventLoop :=
  {| running := false; worker := NotStarted; pipeOpen := false; signaled := false;
     pipeWrites := 0; state := Normal; sending := []; tasks := []; ticks := 0;
     now := 0; world := w; history := [] |}.

(** [std::this_thread::get_id()==thread.get_id()] *)
Definition onLoopThread (caller : Thread) (l : EventLoop) : bool :=
  match caller, worker l with
  | LoopThread, InRun => true
  | _, _ => false
  end.

(** [Now()]: read the clock and cache the reading. *)
Definition Now (l : EventLoop) : EventLoop :=
  set_now (clock (ticks l)) (set_ticks (S (ticks l)) l).

Definition Signal (caller : Thread) (l : EventLoop) : EventLoop :=
  if onLoopThread caller l || signaled l then l
  else set_pipeWrites (S (pipeWrites l)) (set_signaled true l).

(** [Start]: a new signalling descriptor is made, with nothing to read in
    it ([eventfd(0, EFD_NONBLOCK)]); [signaled] is left as it is. *)
Definition Start (l : EventLoop) : bool * EventLoop :=
  match worker l with
  | NotStarted =>
      (true, set_worker InRun
               (set_running true (set_pipeWrites 0 (set_pipeOpen true l))))
  | _ => (false, l)
  end.

(** [ufds[1].revents & POLLIN]: the signalling descriptor has something to
    read. *)
Definition pipeReadable (l : EventLoop) : bool :=
  pipeOpen l && negb (Nat.eqb (pipeWrites l) 0).

(** *** Send *)

Definition Send (caller : Thread) (send : SendBuffer) (l : EventLoop) : EventLoop :=
  let aprox := Z.of_nat (length (sending l)) in
  if aprox >? MaxSendingQueueSize then
    if negb (eqb_state (state l) Overflown) then set_state Overflown l else l
  else
    let l :=
      if (aprox >? MaxSendingQueueSize / 2) && eqb_state (state l) Normal
      then set_state Lagging l
      else if (aprox <? MaxSendingQueueSize / 4) && negb (eqb_state (state l) Normal)
      then set_state Lagging l
      else l in
    Signal caller (set_sending (sending l ++ [send]) l).

(** *** The write phase of an iteration of Run

    [item] and [pending] are locals of [Run] that survive from one iteration
    to the next: [Some item] stands for [pending == true].  [net k] is the
    answer of the [k]-th call of [sendto].  The result is the new pending
    entry, the rest of the queue and the datagrams that left. *)
Fixpoint sendAll (st : State) (net : nat -> SendResult) (k : nat)
    (item : SendBuffer) (queue : list SendBuffer)
    : option SendBuffer * list SendBuffer * list SendBuffer :=
  let ret := net k in
  if failed ret && eqb_state st Normal
  then ((if again ret then Some item else None), queue, [])          (* break *)
  else
    let gone := if failed ret then [] else [item] in
    match queue with                                       (* try_dequeue *)
    | [] => (None, [], gone)
    | next :: queue' =>
        let '(p, q, out) := sendAll st net (S k) next queue' in
        (p, q, gone ++ out)
    end.

Definition writePhase (st : State) (net : nat -> SendResult)
    (pending : option SendBuffer) (queue : list SendBuffer)
    : option SendBuffer * list SendBuffer * list SendBuffer :=
  match pending with
  | Some item => sendAll st net 0 item queue
  | None =>
      match queue with
      | [] => (None, [], [])
      | item :: queue' => sendAll st net 0 item queue'
      end
  end.

(** [ufds[0].events] asks for POLLOUT only when [sending.size_approx()] is
    not zero; the entry held in [item] is not in the queue and does not
    count. *)
Definition wantsWrite (queue : list SendBuffer) : bool :=
  negb (Nat.eqb (length queue) 0).

(** The write part of one iteration.  [queue] is the send queue when the
    iteration starts and chooses the events to wait for; [arrivals] are the
    entries that Send appends while the worker is in [poll].  The write phase
    runs when [poll] reports POLLOUT, which it does when the loop has asked
    for it and the socket is [writable]; otherwise [item] and [pending] are
    left as they are and nothing is taken off the queue. *)
Definition writeIteration (st : State) (net : nat -> SendResult) (writable : bool)
    (pending : option SendBuffer) (queue arrivals : list SendBuffer)
    : option SendBuffer * list SendBuffer * list SendBuffer :=
  if wantsWrite queue && writable then writePhase st net pending (queue ++ arrivals)
  else (pending, queue ++ arrivals, []).

(** *** Tasks *)

(** [task.second(now); task.first.set_value();] *)
Definition runTask (at_ms : Z) (t : Task) (l : EventLoop) : EventLoop :=
  set_history (history l ++ [Executed (promise t); Resolved (promise t)])
    (set_world (func t at_ms (world l)) l).

Definition Async (caller : Thread) (t : Task) (l : EventLoop) : EventLoop :=
  if negb (onLoopThread caller l)
  then Signal caller (set_tasks (tasks l ++ [t]) l)
  else runTask (now l) t l.

(** The task phase of an iteration: every task gets the [now] of the
    iteration. *)
Fixpoint drainTasks (queue : list Task) (l : EventLoop) : EventLoop :=
  match queue with
  | [] => set_tasks [] l
  | t :: queue' => drainTasks queue' (runTask (now l) t (set_tasks queue' l))
  end.

(** The loop after the main loop of [Run]: the clock is read for each
    task. *)
Fixpoint finalDrain (queue : list Task) (l : EventLoop) : EventLoop :=
  match queue with
  | [] => set_tasks [] l
  | t :: queue' =>
      let l := Now (set_tasks queue' l) in
      finalDrain queue' (runTask (now l) t l)
  end.

(** [poll] reports POLLERR or POLLHUP while the worker is in [Run]: the
    main loop is left by [break], the tasks are drained and the thread
    returns.  [running] is not touched. *)
Definition pollFailure (l : EventLoop) : EventLoop :=
  match worker l with
  | InRun =>
      let l := Now l in
      set_worker Returned (finalDrain (tasks l) l)
  | _ => l
  end.

(** What the worker does from the return of [poll] to its return from
    [Run], once [Stop] has cleared [running]: either [poll] reports an error
    and the loop breaks, or the iteration goes through its task phase, empties
    the signalling descriptor when [poll] found it readable (clearing
    [signaled]) and finds [running] cleared; then the tasks still queued are
    drained.  The read, write and timer phases of the iteration do not touch
    the task queue (a callback that calls [Async] is on the loop thread and
    runs its task inline); they are left out. *)
Definition workerExit (pollError : bool) (l : EventLoop) : EventLoop :=
  let readable := pipeReadable l in
  let l := Now l in
  let l :=
    if pollError then l
    else
      let l := drainTasks (tasks l) l in
      let l := if readable then set_pipeWrites 0 (set_signaled false l) else l in
      Now l in
  finalDrain (tasks l) l.

(** [Stop], called from a thread other than the worker, while the worker (if
    inside [Run]) waits in [poll].  [join] is the run of the worker to its
    return: the worker leaves [poll] when the signalling descriptor is
    readable or when [poll] returns for a reason of its own.  [Signal] writes
    nothing when [signaled] is already set; if the descriptor then has nothing
    to read and [poll] stays blocked, the worker never returns and neither
    does [Stop]: [None]. *)
Definition Stop (poll : Poll) (l : EventLoop) : option (bool * EventLoop) :=
  if negb (running l) then Some (false, l)
  else
    let l := set_running false l in
    match worker l with
    | NotStarted => Some (true, set_pipeOpen false l)
    | Returned =>
        Some (true, set_pipeOpen false (set_worker NotStarted (Signal OtherThread l)))
    | InRun =>
        let l := Signal OtherThread l in
        let joined pollError :=
          Some (true, set_pipeOpen false (set_worker NotStarted (workerExit pollError l))) in
        match poll with
        | PollError => joined true
        | PollReturns => joined false
        | PollBlocked => if pipeReadable l then joined false else None
        end
    end.

End WithWorld.

End EventLoop.

(** ** Vocabulary of the statements *)

Module Props.

Import Bridge.

(** A descriptor is emitted when it does not exceed the capacity. *)
Definition fits (maxMediaLength : Z) (rtp : RtpPacketization) : bool :=
  negb (GetTotalLength rtp >? maxMediaLength).

(** The values a 32-bit counter takes from [s0] on, [n] of them. *)
Fixpoint seqFrom (s0 : Z) (n : nat) : list Z :=
  match n with
  | O => []
  | S n' => s0 :: seqFrom (DWORD (s0 + 1)) n'
  end.

(** The counter after [n] increments. *)
Fixpoint advance (s0 : Z) (n : nat) : Z :=
  match n with
  | O => s0
  | S n' => advance (DWORD (s0 + 1)) n'
  end.

Definition countMarks (out : list RTPPacket) : nat :=
  length (List.filter pMark out).

(** The last descriptor of a frame fits. *)
Fixpoint lastFits (maxMediaLength : Z) (info : list RtpPacketization) : bool :=
  match info with
  | [] => false
  | rtp :: rest =>
      match rest with
      | [] => fits maxMediaLength rtp
      | _ :: _ => lastFits maxMediaLength rest
      end
  end.

(** The design document's formula for the first timestamp after a reset
    (P2), with its rounding up. *)
Definition ceilDiv (a b : Z) : Z := (a + b - 1) / b.

Definition specResetTimestamp (L t0 t1 rate : Z) : Z :=
  L + ceilDiv ((t1 - t0) * rate) 1000 + 1.

(** What the history shows when every task of [queue] has been executed
    and then resolved, once and in the order of the queue. *)
Definition completions {World : Type} (queue : list (EventLoop.Task (World := World)))
    : list EventLoop.Event :=
  flat_map (fun t => [EventLoop.Executed (EventLoop.promise t);
                      EventLoop.Resolved (EventLoop.promise t)]) queue.

End Props.

(** ** Sample inputs *)

Module Samples.

Import Bridge.

Definition acu0 : WindowAcu := {| window := 1000; samples := [] |}.

Definition noLayers (codec : Z) (payload : list Byte.byte) : Z * Z := (0, 0).

(** Memory that holds zero bytes after the data of every frame. *)
Definition zeroMemory (frame : Bridge.MediaFrame) (k : nat) : Byte.byte := Byte.x00.

Definition maxLen : Z := 1400.

Definition desc (pos size : Z) : RtpPacketization :=
  {| rpPos := pos; rpSize := size; rpPrefix := [] |}.

Definition videoFrame (ts : Z) (info : list RtpPacketization) : MediaFrame :=
  {| fType := Video; fCodec := 96; fData := repeat Byte.x00 2000;
     fTimeStamp := ts; fRtpInfo := info |}.

Definition fresh : MediaFrameListenerBridge := create 0x1234 acu0.


(** A bridge that holds a time of last send: last timestamp 3000, produced
    at time 1000. *)
Definition sentAt1000 : MediaFrameListenerBridge :=
  {| ssrc := 0x1234; extSeqNum := 4; listeners := ∅; reset := false;
     firstTimestamp := 1000; baseTimestamp := 0; lastTimestamp := 3000;
     lastTime := 1000; numFrames := 2; numPackets := 4; totalBytes := 8;
     bitrate := 0; acumulator := acu0 |}.

(** Small frames: four bytes of data, descriptors of two bytes. *)
Definition smallFrame (t : MediaType) (ts : Z) (info : list RtpPacketization)
    : MediaFrame :=
  {| fType := t; fCodec := 96;
     fData := [Byte.x01; Byte.x02; Byte.x03; Byte.x04];
     fTimeStamp := ts; fRtpInfo := info |}.

Definition half1 : RtpPacketization := desc 0 2.
Definition half2 : RtpPacketization := desc 2 2.

(** A descriptor that declares more than the capacity. *)
Definition oversized : RtpPacketization := desc 0 1600.

(** A descriptor that reaches two bytes past the end of a small frame. *)
Definition overrun : RtpPacketization := desc 2 4.

(** A video packet of the sample bridge. *)
Definition pkt (seq ts : Z) (mark : bool) (payload : list Byte.byte) : RTPPacket :=
  {| pMedia := Video; pCodec := 96; pSSRC := 0x1234; pExtSeqNum := seq;
     pPayload := payload; pTimestamp := ts; pMark := mark;
     pLayerIds := Some (0, 0) |}.

(** The scenarios of the design document: a first video frame with source
    timestamp 1000, a second with 4000 forty milliseconds later, then a third
    with 5000 twenty milliseconds after a Reset(). *)
Definition frame1 : MediaFrame := videoFrame 1000 [desc 0 500].
Definition frame2 : MediaFrame := videoFrame 4000 [desc 0 600; desc 600 600; desc 1200 300].
Definition frame3 : MediaFrame := videoFrame 5000 [desc 0 500].

Definition afterFrame2 : MediaFrameListenerBridge :=
  fst (feed (A := WindowAcu) maxLen noLayers zeroMemory [(frame1, 5000); (frame2, 5040)] fresh).

(** The event loop: the world is a counter, a task bumps it. *)
Definition bump (id : nat) : EventLoop.Task (World := nat) :=
  {| EventLoop.promise := id; EventLoop.func := fun _ w => S w |}.

Definition sysClock (n : nat) : Z := 1000 + Z.of_nat n.

Definition datagram (port : Z) : EventLoop.SendBuffer :=
  {| EventLoop.ipAddr := 0x7f000001; EventLoop.port := port;
     EventLoop.packet := [Byte.x00] |}.

Definition idle : EventLoop.EventLoop (World := nat) := EventLoop.create 0%nat.

Definition started : EventLoop.EventLoop (World := nat) := snd (EventLoop.Start idle).

(** [n] calls of Send from another thread while the loop does not run its
    write phase. *)
Fixpoint flood (n : nat) (l : EventLoop.EventLoop (World := nat))
    : EventLoop.EventLoop (World := nat) :=
  match n with
  | O => l
  | S n' => EventLoop.Send EventLoop.OtherThread (datagram 9999) (flood n' l)
  end.

(** The worker takes [n] entries off the queue ([try_dequeue]). *)
Definition dequeued (n : nat) (l : EventLoop.EventLoop (World := nat))
    : EventLoop.EventLoop (World := nat) :=
  EventLoop.set_sending (skipn n (EventLoop.sending l)) l.

(** A loop left Overflown by a burst of Sends, after the worker has taken
    two entries off the queue. *)
Definition drainedTwo : EventLoop.EventLoop (World := nat) :=
  dequeued 2 (flood (Z.to_nat 16386) started).

(** A network that refuses the first datagram with EAGAIN and takes the
    others. *)
Definition busyOnce (k : nat) : EventLoop.SendResult :=
  match k with
  | O => EventLoop.Failed EventLoop.EAGAIN
  | S _ => EventLoop.Sent
  end.

(** A network that takes the first datagram and refuses the second for
    good. *)
Definition refusesSecond (k : nat) : EventLoop.SendResult :=
  match k with
  | 1%nat => EventLoop.Failed EventLoop.ECONNREFUSED
  | _ => EventLoop.Sent
  end.

End Samples.

(** ** Timers and the poll timeout of the event loop *)

Module Timers.

(** What a timer callback asks of the timers while it runs: the calls of
    [Timer::Cancel] and [Timer::Again] it makes.  The callback runs on the
    loop thread, where [Async] executes the task of such a call at once. *)
Inductive TimerCmd :=
| CmdCancel (timer : nat)
| CmdAgain (timer : nat) (ms : Z).

Section WithWorld.

Context {World : Type}.

(** [EventLoop::TimerImpl]: [next] is 0 when the timer is not scheduled,
    [repeat] is 0 for a one-shot timer.  Times are counts of
    milliseconds. *)
Record TimerImpl := {
  tNext : Z;
  tRepeat : Z;
  tCallback : Z -> World -> World * list TimerCmd
}.

Definition set_tNext v (t : TimerImpl) : TimerImpl :=
  {| tNext := v; tRepeat := tRepeat t; tCallback := tCallback t |}.

Definition set_tRepeat v (t : TimerImpl) : TimerImpl :=
  {| tNext := tNext t; tRepeat := v; tCallback := tCallback t |}.

(** The part of the loop the timers live in: the table [timers], a
    multimap from fire time to timer kept in the order of its keys; the
    timer objects, shared between the table and their holders, by handle;
    the cached [now]; and a log of the callbacks invoked. *)
Record TimerLoop := {
  timers : list (Z * nat);
  heap : gmap nat TimerImpl;
  handles : nat;
  tnow : Z;
  tworld : World;
  fired : list nat
}.

Definition set_timers v (l : TimerLoop) : TimerLoop :=
  {| timers := v; heap := heap l; handles := handles l; tnow := tnow l;
     tworld := tworld l; fired := fired l |}.

Definition set_heap v (l : TimerLoop) : TimerLoop :=
  {| timers := timers l; heap := v; handles := handles l; tnow := tnow l;
     tworld := tworld l; fired := fired l |}.

Definition set_handles v (l : TimerLoop) : TimerLoop :=
  {| timers := timers l; heap := heap l; handles := v; tnow := tnow l;
     tworld := tworld l; fired := fired l |}.

(** [now = Now()]: the loop takes a new reading of the clock. *)
Definition set_tnow v (l : TimerLoop) : TimerLoop :=
  {| timers := timers l; heap := heap l; handles := handles l; tnow := v;
     tworld := tworld l; fired := fired l |}.

Definition set_called (w : World) (h : nat) (l : TimerLoop) : TimerLoop :=
  {| timers := timers l; heap := heap l; handles := handles l; tnow := tnow l;
     tworld := w; fired := fired l ++ [h] |}.

(** [timers.emplace(next, timer)]: the new entry goes behind the entries
    whose key is not greater. *)
Fixpoint emplace (k : Z) (h : nat) (table : list (Z * nat)) : list (Z * nat) :=
  match table with
  | [] => [(k, h)]
  | (k', h') :: rest =>
      if k' <=? k then (k', h') :: emplace k h rest else (k, h) :: table
  end.

(** The loop over [timers.equal_range(next)] of [CancelTimer]: the first
    entry with that key and that timer is erased. *)
Fixpoint eraseOne (k : Z) (h : nat) (table : list (Z * nat)) : list (Z * nat) :=
  match table with
  | [] => []
  | (k', h') :: rest =>
      if (k' =? k) && Nat.eqb h' h then rest else (k', h') :: eraseOne k h rest
  end.

(** [std::make_shared<TimerImpl>] with [repeat] and [callback]: a timer
    that is not scheduled. *)
Definition newTimer (rep : Z) (cb : Z -> World -> World * list TimerCmd)
    (l : TimerLoop) : nat * TimerLoop :=
  let h := handles l in
  (h, set_handles (S h)
        (set_heap (<[h := {| tNext := 0; tRepeat := rep; tCallback := cb |}]> (heap l)) l)).

(** The task of [CreateTimer(ms, repeat, callback)]. *)
Definition schedule (h : nat) (next : Z) (l : TimerLoop) : TimerLoop :=
  match heap l !! h with
  | None => l
  | Some t =>
      set_timers (emplace next h (timers l))
        (set_heap (<[h := set_tNext next t]> (heap l)) l)
  end.

Definition CancelTimer (h : nat) (l : TimerLoop) : TimerLoop :=
  match heap l !! h with
  | None => l
  | Some t =>
      let t := set_tRepeat 0 t in
      if tNext t =? 0 then set_heap (<[h := t]> (heap l)) l
      else
        set_timers (eraseOne (tNext t) h (timers l))
          (set_heap (<[h := set_tNext 0 t]> (heap l)) l)
  end.

(** The operations as they run on the loop thread. *)
Definition CreateTimer (ms rep : Z) (cb : Z -> World -> World * list TimerCmd)
    (l : TimerLoop) : nat * TimerLoop :=
  let '(h, l1) := newTimer rep cb l in
  let next := tnow l + ms in
  (h, schedule h next l1).

Definition Cancel (h : nat) (l : TimerLoop) : TimerLoop := CancelTimer h l.

Definition Again (h : nat) (ms : Z) (l : TimerLoop) : TimerLoop :=
  let next := tnow l + ms in
  schedule h next (CancelTimer h l).

Definition runCmd (l : TimerLoop) (c : TimerCmd) : TimerLoop :=
  match c with
  | CmdCancel h => Cancel h l
  | CmdAgain h ms => Again h ms l
  end.

(** The timer phase of an iteration of Run.  First the timers whose time is
    not after [now] are taken off the front of the table ... *)
Fixpoint collect (now : Z) (table : list (Z * nat)) : list nat * list (Z * nat) :=
  match table with
  | [] => ([], [])
  | (k, h) :: rest =>
      if k >? now then ([], table)
      else let '(triggered, remaining) := collect now rest in (h :: triggered, remaining)
  end.

(** ... then each one is marked as not scheduled, its callback is invoked,
    and it is scheduled again when it repeats and its callback has not
    scheduled it. *)
Definition fireOne (now : Z) (l : TimerLoop) (h : nat) : TimerLoop :=
  match heap l !! h with
  | None => l
  | Some t =>
      let l := set_heap (<[h := set_tNext 0 t]> (heap l)) l in
      let '(w, cmds) := tCallback t now (tworld l) in
      let l := fold_left runCmd cmds (set_called w h l) in
      match heap l !! h with
      | None => l
      | Some t =>
          if negb (tRepeat t =? 0) && (tNext t =? 0)
          then
            set_timers (emplace (now + tRepeat t) h (timers l))
              (set_heap (<[h := set_tNext (now + tRepeat t) t]> (heap l)) l)
          else l
      end
  end.

Definition timerPhase (l : TimerLoop) : TimerLoop :=
  let '(triggered, remaining) := collect (tnow l) (timers l) in
  fold_left (fireOne (tnow l)) triggered (set_timers remaining l).

End WithWorld.

(** *** The timeout handed to [poll] *)

(** [std::chrono::milliseconds::max()], with 64-bit counts. *)
Definition msMax : Z := 2 ^ 63 - 1.

(** The conversion of a count to [int]. *)
Definition toInt (x : Z) : Z := (x + 2 ^ 31) mod 2 ^ 32 - 2 ^ 31.

(** The timeout of one iteration: [pendingTasks] is [tasks.size_approx()]. *)
Definition pollTimeout (pendingTasks : nat) (table : list (Z * nat))
    (duration until now : Z) : Z :=
  if negb (Nat.eqb pendingTasks 0) then 0
  else
    match table with
    | (first, _) :: _ =>
        let next := Z.min first until in
        if next >? now then toInt (next - now) else 0
    | [] =>
        if negb (duration =? msMax)
        then (if until >? now then toInt (until - now) else 0)
        else -1
    end.

(** *** What the statements about timers speak of *)

Section Vocabulary.

Context {World : Type}.

(** What the operations on timers and the timer phase keep, whatever the
    callbacks do with Cancel and Again: the table is in the order of its
    keys and each of its entries is a timer of the loop. *)
Definition tableSound (l : TimerLoop (World := World)) : Prop :=
  StronglySorted (fun a b => fst a <= fst b) (timers l)
  /\ (forall k h, In (k, h) (timers l) -> is_Some (heap l !! h)).

(** A table and a heap that agree: the table is in the order of its keys,
    no timer is in it twice, every entry is the fire time of its timer, and
    every timer with a fire time is in the table. *)
Definition consistent (l : TimerLoop (World := World)) : Prop :=
  StronglySorted (fun a b => fst a <= fst b) (timers l)
  /\ List.NoDup (List.map snd (timers l))
  /\ (forall k h, In (k, h) (timers l) ->
        exists t, heap l !! h = Some t /\ tNext t = k /\ k <> 0)
  /\ (forall h t, heap l !! h = Some t -> tNext t <> 0 -> In (tNext t, h) (timers l)).

(** A callback that makes no call on a timer. *)
Definition quiet (cb : Z -> World -> World * list TimerCmd) : Prop :=
  forall now w, snd (cb now w) = [].

End Vocabulary.

End Timers.

(** ** Further vocabulary *)

Module Props2.

Import Bridge.

(** The payload of the packet built for a descriptor. *)
Definition payloadOf (beyond : MediaFrame -> nat -> Byte.byte) (frame : MediaFrame)
    (rtp : RtpPacketization) : list Byte.byte :=
  rpPrefix rtp ++ slice (beyond frame) (fData frame) (rpPos rtp) (rpSize rtp).

(** The slice of a descriptor lies inside the data of the frame. *)
Definition inBounds (frame : MediaFrame) (rtp : RtpPacketization) : Prop :=
  0 <= rpPos rtp /\ 0 <= rpSize rtp /\ rpPos rtp + rpSize rtp <= GetLength frame.

(** Calls of Send, Signal and Async in a row. *)
Definition sendMany {World : Type} (caller : EventLoop.Thread)
    (sends : list EventLoop.SendBuffer) (l : EventLoop.EventLoop (World := World))
    : EventLoop.EventLoop (World := World) :=
  fold_left (fun l send => EventLoop.Send caller send l) sends l.

Definition signalMany {World : Type} (callers : list EventLoop.Thread)
    (l : EventLoop.EventLoop (World := World)) : EventLoop.EventLoop (World := World) :=
  fold_left (fun l caller => EventLoop.Signal caller l) callers l.

Definition asyncMany {World : Type} (caller : EventLoop.Thread)
    (ts : list (EventLoop.Task (World := World)))
    (l : EventLoop.EventLoop (World := World)) : EventLoop.EventLoop (World := World) :=
  fold_left (fun l t => EventLoop.Async caller t l) ts l.

(** The entries the write phase starts from: the pending one, then the
    queue. *)
Definition entriesOf (pending : option EventLoop.SendBuffer)
    (queue : list EventLoop.SendBuffer) : list EventLoop.SendBuffer :=
  match pending with
  | Some item => item :: queue
  | None => queue
  end.

(** The entries whose [sendto] succeeds when they are tried one after the
    other from call [k] on. *)
Fixpoint keepSent (net : nat -> EventLoop.SendResult) (k : nat)
    (entries : list EventLoop.SendBuffer) : list EventLoop.SendBuffer :=
  match entries with
  | [] => []
  | e :: rest =>
      (if EventLoop.failed (net k) then [] else [e]) ++ keepSent net (S k) rest
  end.

(** What the tasks of a queue do to the world when each is called with
    [at_ms]. *)
Definition runAll {World : Type} (at_ms : Z)
    (queue : list (EventLoop.Task (World := World))) (w : World) : World :=
  fold_left (fun w t => EventLoop.func t at_ms w) queue w.

Section Entering.

Context {A : Type} `{AcumulatorOps A}.

(** The state that [onMediaFrame] hands to the loop over the descriptors
    for a frame that is processed. *)
Definition entering (frame : MediaFrame) (now rate : Z)
    (s : MediaFrameListenerBridge (A := A)) : MediaFrameListenerBridge (A := A) :=
  let s :=
    if reset s
    then set_reset false (set_baseTimestamp (lastTimestamp s) (set_firstTimestamp 0 s))
    else s in
  let frameSize := DWORD (GetLength frame) in
  let s := set_numFrames (DWORD (numFrames s + 1)) s in
  let s := set_totalBytes (DWORD (totalBytes s + frameSize)) s in
  let a := acuUpdate now frameSize (acumulator s) in
  let s := set_bitrate a (DWORD (acuGetInstant a * 8)) s in
  if firstTimestamp s =? 0
  then
    let s :=
      if negb (lastTime s =? 0)
      then set_baseTimestamp
             (QWORD (lastTimestamp s
                     + QWORD (getTimeDiff now (lastTime s) * rate) / 1000 + 1)) s
      else s in
    set_firstTimestamp (fTimeStamp frame) s
  else s.

End Entering.

End Props2.

(** ** Further sample inputs *)

Module Samples2.

Import Timers.

(** A callback that counts its calls and leaves the timers alone, and one
    that cancels another timer. *)
Definition tick (now : Z) (w : nat) : nat * list TimerCmd := (S w, []).

Definition canceller (other : nat) (now : Z) (w : nat) : nat * list TimerCmd :=
  (S w, [CmdCancel other]).

(** A loop without timers, at time 1000. *)
Definition noTimers : TimerLoop (World := nat) :=
  {| timers := []; heap := ∅; handles := 0; tnow := 1000; tworld := 0%nat;
     fired := [] |}.

(** A repeating timer created at time 1000, due at 1100, every 50. *)
Definition oneTimer : TimerLoop (World := nat) := snd (CreateTimer 100 50 tick noTimers).

(** Two timers due at 1100: the first cancels the second when it fires. *)
Definition twoTimers : TimerLoop (World := nat) :=
  snd (CreateTimer 100 0 tick (snd (CreateTimer 100 0 (canceller 1) noTimers))).

(** An unscheduled timer. *)
Definition idleTimer : TimerLoop (World := nat) := snd (newTimer 0 tick noTimers).

(** A callback that calls Again on another timer. *)
Definition rearmer (other : nat) (ms : Z) (now : Z) (w : nat) : nat * list TimerCmd :=
  (S w, [CmdAgain other ms]).

(** Two timers due at 1100: the first calls Again(30) on the second when it
    fires; and the loop after its timer phase at time 1100. *)
Definition rearmed : TimerLoop (World := nat) :=
  snd (CreateTimer 100 0 tick (snd (CreateTimer 100 0 (rearmer 1 30) noTimers))).

Definition afterRearm : TimerLoop (World := nat) := timerPhase (set_tnow 1100 rearmed).

End Samples2.

(** ** Facts of fixed-width arithmetic *)


Lemma QWORD_range x : 0 <= QWORD x < 2 ^ 64.
Proof. unfold QWORD, wrap. apply Z.mod_pos_bound. lia. Qed.

Lemma DWORD_small x : 0 <= x < 2 ^ 32 -> DWORD x = x.
Proof. intros H. unfold DWORD, wrap. apply Z.mod_small. exact H. Qed.

Lemma QWORD_small x : 0 <= x < 2 ^ 64 -> QWORD x = x.
Proof. intros H. unfold QWORD, wrap. apply Z.mod_small. exact H. Qed.

Lemma DWORD_succ_DWORD x : DWORD (DWORD x + 1) = DWORD (x + 1).
Proof. unfold DWORD, wrap. rewrite Zplus_mod_idemp_l. reflexivity. Qed.

(** ** The packetization bridge *)

Module BridgeFacts.

Import Bridge Props.

Section WithCollaborators.

Context {A : Type} `{AcumulatorOps A}.
Variable maxMediaLength : Z.
Variable GetLayerIds : Z -> list Byte.byte -> Z * Z.
Variable beyond : MediaFrame -> nat -> Byte.byte.

Local Abbreviation packetize := (packetize maxMediaLength GetLayerIds beyond).
Local Abbreviation onMediaFrame := (onMediaFrame maxMediaLength GetLayerIds beyond).
Local Abbreviation feed := (feed maxMediaLength GetLayerIds beyond).
Local Abbreviation Bridge := (MediaFrameListenerBridge (A := A)).

(** *** Counters *)

Lemma seqFrom_length s0 n : length (seqFrom s0 n) = n.
Proof. revert s0. induction n as [|n IH]; intros s0; simpl; [reflexivity|]. now rewrite IH. Qed.

Lemma seqFrom_app s0 n m :
  seqFrom s0 (n + m) = seqFrom s0 n ++ seqFrom (advance s0 n) m.
Proof.
  revert s0. induction n as [|n IH]; intros s0; simpl; [reflexivity|].
  now rewrite IH.
Qed.

Lemma advance_add s0 n m : advance s0 (n + m) = advance (advance s0 n) m.
Proof. revert s0. induction n as [|n IH]; intros s0; simpl; [reflexivity|]. apply IH. Qed.

Lemma advance_closed s0 n : advance s0 n = if Nat.eqb n 0 then s0 else DWORD (s0 + Z.of_nat n).
Proof.
  revert s0. induction n as [|n IH]; intros s0; [reflexivity|].
  cbn [advance Nat.eqb]. rewrite IH. destruct n as [|n]; cbn [Nat.eqb].
  - reflexivity.
  - unfold DWORD, wrap. rewrite Zplus_mod_idemp_l. f_equal. lia.
Qed.



(** *** The loop over the descriptors *)

Lemma packetize_seq frame rate total : forall rest i (s : Bridge),
  List.map pExtSeqNum (snd (packetize frame rate total i rest s))
    = seqFrom (extSeqNum s) (length (snd (packetize frame rate total i rest s)))
  /\ extSeqNum (fst (packetize frame rate total i rest s))
    = advance (extSeqNum s) (length (snd (packetize frame rate total i rest s)))
  /\ length (snd (packetize frame rate total i rest s))
    = length (List.filter (fits maxMediaLength) rest).
Proof.
  induction rest as [|rtp rest IH]; intros i s; [now simpl|].
  cbn [Bridge.packetize List.filter]. unfold fits at 1.
  destruct (GetTotalLength rtp >? maxMediaLength); cbn [negb].
  - apply IH.
  - match goal with |- context [packetize _ _ _ _ _ ?s3] =>
      specialize (IH (S i) s3); destruct (packetize frame rate total (S i) rest s3) as [s4 out]
    end.
    cbn [fst snd] in *. destruct IH as (IH1 & IH2 & IH3).
    cbn [List.map length seqFrom advance pExtSeqNum makePacket].
    cbn [extSeqNum set_numPackets set_lastTimestamp set_extSeqNum] in IH1, IH2.
    rewrite IH1, IH2, IH3. auto.
Qed.

Lemma onMediaFrame_seq frame now (s : Bridge) :
  List.map pExtSeqNum (snd (onMediaFrame frame now s))
    = seqFrom (extSeqNum s) (length (snd (onMediaFrame frame now s)))
  /\ extSeqNum (fst (onMediaFrame frame now s))
    = advance (extSeqNum s) (length (snd (onMediaFrame frame now s))).
Proof.
  unfold Bridge.onMediaFrame.
  destruct (negb (HasRtpPacketizationInfo frame)); [now simpl|].
  destruct (rateOf (fType frame)) as [rate|].
  2: { cbn [fst snd length seqFrom advance List.map]. now destruct (reset s). }
  match goal with |- context [packetize _ _ _ _ _ ?s0] =>
    destruct (packetize_seq frame rate (length (fRtpInfo frame)) (fRtpInfo frame) 0%nat s0)
      as (E1 & E2 & _);
    replace (extSeqNum s0) with (extSeqNum s) in E1, E2
  end.
  - now split.
  - destruct (reset s); cbn; destruct (_ =? 0); cbn;
      try destruct (negb (_ =? 0)); reflexivity.
Qed.

Lemma feed_seq : forall frames (s : Bridge),
  List.map pExtSeqNum (snd (feed frames s))
    = seqFrom (extSeqNum s) (length (snd (feed frames s)))
  /\ extSeqNum (fst (feed frames s))
    = advance (extSeqNum s) (length (snd (feed frames s))).
Proof.
  induction frames as [|[frame now] frames IH]; intros s; [now simpl|].
  cbn [Bridge.feed].
  destruct (onMediaFrame_seq frame now s) as (E1 & E2).
  destruct (onMediaFrame frame now s) as [s1 out1]. cbn [fst snd] in E1, E2.
  destruct (IH s1) as (E3 & E4).
  destruct (feed frames s1) as [s2 out2]. cbn [fst snd] in *.
  rewrite List.map_app, List.length_app, seqFrom_app, advance_add, E1, E3, E4, E2.
  now split.
Qed.


(** C10.  An oversized descriptor is skipped before the counter is touched:
    the loop goes on from the very same state.  The packets emitted for a
    frame therefore carry the successive values of the counter, as many as
    there are descriptors that fit, and the counter has advanced by that
    number. *)
Theorem oversized_descriptor_leaves_no_gap :
  forall frame now rate (s : Bridge),
    rateOf (fType frame) = Some rate ->
    (forall total i rtp rest (s0 : Bridge),
        fits maxMediaLength rtp = false ->
        packetize frame rate total i (rtp :: rest) s0
          = packetize frame rate total (S i) rest s0)
    /\ List.map pExtSeqNum (snd (onMediaFrame frame now s))
         = seqFrom (extSeqNum s)
             (length (List.filter (fits maxMediaLength) (fRtpInfo frame)))
    /\ extSeqNum (fst (onMediaFrame frame now s))
         = advance (extSeqNum s)
             (length (List.filter (fits maxMediaLength) (fRtpInfo frame))).
Proof.
  intros frame now rate s Hrate. split.
  - intros total i rtp rest s0 Hfit. cbn [Bridge.packetize].
    unfold fits in Hfit. destruct (GetTotalLength rtp >? maxMediaLength); [reflexivity|discriminate].
  - destruct (onMediaFrame_seq frame now s) as (E1 & E2).
    assert (El : length (snd (onMediaFrame frame now s))
                 = length (List.filter (fits maxMediaLength) (fRtpInfo frame))).
    { unfold Bridge.onMediaFrame, HasRtpPacketizationInfo. rewrite Hrate.
      destruct (fRtpInfo frame) as [|rtp rest] eqn:Einfo; [reflexivity|].
      cbn [negb]. apply packetize_seq. }
    rewrite <- El. now split.
Qed.

(** *** The mark bit *)

Lemma packetize_marks frame rate total : forall rest i (s : Bridge),
  total = (i + length rest)%nat ->
  countMarks (snd (packetize frame rate total i rest s))
    = (if lastFits maxMediaLength rest then 1%nat else 0%nat)
  /\ (forall pre p post,
        snd (packetize frame rate total i rest s) = pre ++ p :: post ->
        pMark p = true -> post = []).
Proof.
  induction rest as [|rtp rest IH]; intros i s Htotal.
  - split; [reflexivity|]. intros pre p post E. destruct pre; discriminate E.
  - cbn [Bridge.packetize lastFits]. unfold fits at 1.
    assert (Hnext : total = (S i + length rest)%nat) by (cbn [length] in Htotal; lia).
    destruct (GetTotalLength rtp >? maxMediaLength) eqn:Hbig; cbn [negb].
    + destruct (IH (S i) s Hnext) as (IHc & IHm). split; [|exact IHm].
      rewrite IHc. destruct rest; reflexivity.
    + match goal with |- context [packetize _ _ _ _ _ ?s3] =>
        destruct (IH (S i) s3 Hnext) as (IHc & IHm);
        destruct (packetize frame rate total (S i) rest s3) as [s4 out] eqn:Eout
      end.
      cbn [fst snd] in *. unfold countMarks in *. cbn [List.filter makePacket pMark].
      destruct rest as [|rtp' rest].
      * cbn [Bridge.packetize] in Eout. injection Eout as _ <-.
        cbn [length] in Htotal. replace (i + 1 =? total)%nat with true
          by (symmetry; apply Nat.eqb_eq; lia).
        split; [reflexivity|]. intros pre p post E _.
        destruct pre as [|x pre]; [now injection E|].
        injection E as _ E. destruct pre; discriminate E.
      * cbn [length] in Htotal. replace (i + 1 =? total)%nat with false
          by (symmetry; apply Nat.eqb_neq; lia).
        split; [exact IHc|]. intros pre p post E Hmark.
        destruct pre as [|x pre].
        -- injection E as <- _. cbn [pMark] in Hmark.
           apply Nat.eqb_eq in Hmark. lia.
        -- injection E as _ E. exact (IHm _ _ _ E Hmark).
Qed.

(** C4, as amended.  Among the packets emitted for a processed frame at
    most one has the mark bit set; a packet that has it is the last one
    emitted; and there is one exactly when the last descriptor of the frame
    fits the capacity -- when it is skipped, no packet of the frame is
    marked. *)
Theorem mark_only_on_last_descriptor :
  forall frame now rate (s : Bridge),
    rateOf (fType frame) = Some rate ->
    countMarks (snd (onMediaFrame frame now s))
      = (if lastFits maxMediaLength (fRtpInfo frame) then 1%nat else 0%nat)
    /\ (forall pre p post,
          snd (onMediaFrame frame now s) = pre ++ p :: post ->
          pMark p = true -> post = []).
Proof.
  intros frame now rate s Hrate.
  unfold Bridge.onMediaFrame, HasRtpPacketizationInfo. rewrite Hrate.
  destruct (fRtpInfo frame) as [|rtp rest] eqn:Einfo.
  - split; [reflexivity|]. intros pre p post E. destruct pre; discriminate E.
  - cbn [negb]. apply packetize_marks. reflexivity.
Qed.

(** *** Timestamps *)

Lemma packetize_time frame rate total : forall rest i (s : Bridge),
  lastTimestamp (fst (packetize frame rate total i rest s))
    = match snd (packetize frame rate total i rest s) with
      | [] => lastTimestamp s
      | _ :: _ => QWORD (baseTimestamp s + QWORD (fTimeStamp frame - firstTimestamp s))
      end
  /\ Forall (fun p => pTimestamp p
               = DWORD (QWORD (baseTimestamp s
                               + QWORD (fTimeStamp frame - firstTimestamp s)) * rate))
       (snd (packetize frame rate total i rest s))
  /\ baseTimestamp (fst (packetize frame rate total i rest s)) = baseTimestamp s
  /\ firstTimestamp (fst (packetize frame rate total i rest s)) = firstTimestamp s.
Proof.
  induction rest as [|rtp rest IH]; intros i s.
  - cbn. repeat split. constructor.
  - cbn [Bridge.packetize].
    destruct (GetTotalLength rtp >? maxMediaLength); [apply IH|].
    match goal with |- context [packetize _ _ _ _ _ ?s3] =>
      destruct (IH (S i) s3) as (IHl & IHp & IHb & IHf);
      destruct (packetize frame rate total (S i) rest s3) as [s4 out]
    end.
    cbn [fst snd] in *.
    cbn [baseTimestamp firstTimestamp lastTimestamp
         set_numPackets set_lastTimestamp set_extSeqNum] in IHl, IHp, IHb, IHf.
    repeat split; try assumption.
    + rewrite IHl. now destruct out.
    + constructor; [reflexivity|exact IHp].
Qed.

Lemma packetize_emits frame rate total rest i (s : Bridge) :
  List.filter (fits maxMediaLength) rest <> [] ->
  snd (packetize frame rate total i rest s) <> [].
Proof.
  intros Hfit Hnil. apply Hfit. apply length_zero_iff_nil.
  destruct (packetize_seq frame rate total rest i s) as (_ & _ & <-).
  now rewrite Hnil.
Qed.

(** The state that [onMediaFrame] hands to the loop over the descriptors
    when the reset latch is armed. *)
Lemma onMediaFrame_after_Reset frame now rate (s : Bridge) :
  HasRtpPacketizationInfo frame = true ->
  rateOf (fType frame) = Some rate ->
  exists s0 : Bridge,
    onMediaFrame frame now (Reset s)
      = packetize frame rate (length (fRtpInfo frame)) 0 (fRtpInfo frame) s0
    /\ firstTimestamp s0 = fTimeStamp frame
    /\ baseTimestamp s0
       = if lastTime s =? 0 then lastTimestamp s
         else QWORD (lastTimestamp s
                     + QWORD (getTimeDiff now (lastTime s) * rate) / 1000 + 1).
Proof.
  intros Hinfo Hrate. unfold Bridge.onMediaFrame. rewrite Hinfo, Hrate.
  cbn [negb Reset reset set_reset]. eexists. split; [reflexivity|].
  cbn. destruct (lastTime s =? 0); cbn; split; reflexivity.
Qed.

Lemma QWORD_self_diff x : QWORD (x - x) = 0.
Proof. now rewrite Z.sub_diag. Qed.

Lemma first_timestamp_after_Reset frame now rate (s : Bridge) :
  HasRtpPacketizationInfo frame = true ->
  rateOf (fType frame) = Some rate ->
  List.filter (fits maxMediaLength) (fRtpInfo frame) <> [] ->
  lastTimestamp (fst (onMediaFrame frame now (Reset s)))
    = QWORD (if lastTime s =? 0 then lastTimestamp s
             else QWORD (lastTimestamp s
                         + QWORD (getTimeDiff now (lastTime s) * rate) / 1000 + 1)).
Proof.
  intros Hinfo Hrate Hfit.
  destruct (onMediaFrame_after_Reset frame now rate s Hinfo Hrate) as (s0 & E & Ef & Eb).
  rewrite E.
  destruct (packetize_time frame rate (length (fRtpInfo frame)) (fRtpInfo frame) 0%nat s0)
    as (El & _).
  pose proof (packetize_emits frame rate (length (fRtpInfo frame)) _ 0%nat s0 Hfit) as Hne.
  rewrite El. destruct (snd _); [contradiction|].
  rewrite Ef, Eb, QWORD_self_diff, Z.add_0_r. reflexivity.
Qed.

(** What the branch guarded by [lastTime] computes, were [lastTime] ever
    other than 0 ([feed_keeps_lastTime_zero] shows that no run of the bridge
    makes it so): [L + (t1 - t0) * rate / 1000 + 1] with the quotient rounded
    down, in 64-bit unsigned arithmetic; rate is 48 for audio and 90 for
    video. *)
Lemma reset_timestamp_rounds_down :
  forall frame t1 rate (s : Bridge),
    HasRtpPacketizationInfo frame = true ->
    rateOf (fType frame) = Some rate ->
    List.filter (fits maxMediaLength) (fRtpInfo frame) <> [] ->
    lastTime s <> 0 ->
    (rate = 48 \/ rate = 90)
    /\ lastTimestamp (fst (onMediaFrame frame t1 (Reset s)))
       = QWORD (lastTimestamp s + QWORD (QWORD (t1 - lastTime s) * rate) / 1000 + 1)
    /\ (lastTime s <= t1 < 2 ^ 64 ->
        (t1 - lastTime s) * rate < 2 ^ 64 ->
        0 <= lastTimestamp s ->
        lastTimestamp s + (t1 - lastTime s) * rate / 1000 + 1 < 2 ^ 64 ->
        lastTimestamp (fst (onMediaFrame frame t1 (Reset s)))
        = lastTimestamp s + (t1 - lastTime s) * rate / 1000 + 1).
Proof.
  intros frame t1 rate s Hinfo Hrate Hfit Ht0.
  assert (Hr : rate = 48 \/ rate = 90).
  { destruct (fType frame); cbn in Hrate; inversion Hrate; auto. }
  rewrite (first_timestamp_after_Reset frame t1 rate s Hinfo Hrate Hfit).
  apply Z.eqb_neq in Ht0. rewrite Ht0. unfold getTimeDiff.
  split; [exact Hr|]. split.
  - apply QWORD_small, QWORD_range.
  - intros Ht1 Hmul HL Hsum.
    assert (Hdiff : QWORD (t1 - lastTime s) = t1 - lastTime s)
      by (apply QWORD_small; apply Z.eqb_neq in Ht0; lia).
    assert (Hprod : QWORD ((t1 - lastTime s) * rate) = (t1 - lastTime s) * rate)
      by (apply QWORD_small; split; [destruct Hr; subst rate; lia | exact Hmul]).
    rewrite Hdiff, Hprod.
    assert (0 <= (t1 - lastTime s) * rate / 1000)
      by (apply Z.div_pos; destruct Hr; subst rate; lia).
    set (d := (t1 - lastTime s) * rate / 1000) in *.
    rewrite (QWORD_small (lastTimestamp s + d + 1)) by lia.
    apply QWORD_small. lia.
Qed.

(** What the branch that reads [lastTime] achieves.  For the first frame
    processed after a Reset(), the timestamp produced is never below the last
    timestamp [L] produced before the reset; it is at least [L + 1] when the
    bridge holds a time of last send other than 0, and it is [L] itself when
    that time is 0. *)
Lemma reset_timestamp_progress :
  forall frame now rate (s : Bridge),
    HasRtpPacketizationInfo frame = true ->
    rateOf (fType frame) = Some rate ->
    List.filter (fits maxMediaLength) (fRtpInfo frame) <> [] ->
    0 <= lastTimestamp s ->
    lastTimestamp s + QWORD (QWORD (now - lastTime s) * rate) / 1000 + 1 < 2 ^ 64 ->
    lastTimestamp s <= lastTimestamp (fst (onMediaFrame frame now (Reset s)))
    /\ (lastTime s <> 0 ->
        lastTimestamp s + 1 <= lastTimestamp (fst (onMediaFrame frame now (Reset s))))
    /\ (lastTime s = 0 ->
        lastTimestamp (fst (onMediaFrame frame now (Reset s))) = lastTimestamp s).
Proof.
  intros frame now rate s Hinfo Hrate Hfit HL Hsum.
  rewrite (first_timestamp_after_Reset frame now rate s Hinfo Hrate Hfit).
  unfold getTimeDiff.
  assert (Hd : 0 <= QWORD (QWORD (now - lastTime s) * rate) / 1000).
  { apply Z.div_pos; [apply QWORD_range | lia]. }
  set (d := QWORD (QWORD (now - lastTime s) * rate) / 1000) in *. clearbody d.
  destruct (lastTime s =? 0) eqn:Et0.
  - apply Z.eqb_eq in Et0. rewrite QWORD_small by lia.
    split; [lia|]. split; [intros Hne; contradiction | reflexivity].
  - apply Z.eqb_neq in Et0.
    rewrite (QWORD_small (lastTimestamp s + d + 1)) by lia.
    rewrite QWORD_small by lia.
    split; [lia|]. split; [lia | intros He; contradiction].
Qed.

(** Nothing in [onMediaFrame] assigns [lastTime]. *)
Lemma packetize_lastTime frame rate total : forall rest i (s : Bridge),
  lastTime (fst (packetize frame rate total i rest s)) = lastTime s.
Proof.
  induction rest as [|rtp rest IH]; intros i s; [reflexivity|].
  cbn [Bridge.packetize].
  destruct (GetTotalLength rtp >? maxMediaLength); [apply IH|].
  match goal with |- context [packetize _ _ _ _ _ ?s3] =>
    specialize (IH (S i) s3); destruct (packetize frame rate total (S i) rest s3)
  end.
  exact IH.
Qed.

Lemma onMediaFrame_lastTime frame now (s : Bridge) :
  lastTime (fst (onMediaFrame frame now s)) = lastTime s.
Proof.
  unfold Bridge.onMediaFrame.
  destruct (negb (HasRtpPacketizationInfo frame)); [reflexivity|].
  destruct (rateOf (fType frame)) as [rate|].
  2: { now destruct (reset s). }
  rewrite packetize_lastTime.
  destruct (reset s); cbn; destruct (_ =? 0); cbn;
    try destruct (negb (_ =? 0)); reflexivity.
Qed.

Lemma onMediaFrame_lastTimestamp_range frame now (s : Bridge) :
  0 <= lastTimestamp s < 2 ^ 64 ->
  0 <= lastTimestamp (fst (onMediaFrame frame now s)) < 2 ^ 64.
Proof.
  intros Hs. unfold Bridge.onMediaFrame.
  destruct (negb (HasRtpPacketizationInfo frame)); [exact Hs|].
  destruct (rateOf (fType frame)) as [rate|].
  2: { now destruct (reset s). }
  match goal with |- context [packetize _ _ _ _ _ ?s0] =>
    destruct (packetize_time frame rate (length (fRtpInfo frame)) (fRtpInfo frame) 0%nat s0)
      as (El & _);
    assert (E0 : lastTimestamp s0 = lastTimestamp s)
  end.
  { destruct (reset s); cbn; destruct (_ =? 0); cbn;
      try destruct (negb (_ =? 0)); reflexivity. }
  rewrite El. destruct (snd _); [rewrite E0; exact Hs | apply QWORD_range].
Qed.

(** On a bridge built by the constructor and driven by [onMediaFrame] alone,
    [lastTime] is 0 for ever: the first timestamp after a Reset() is the
    last timestamp before it. *)
Lemma feed_keeps_lastTime_zero : forall frames (s : Bridge),
  lastTime s = 0 -> 0 <= lastTimestamp s < 2 ^ 64 ->
  lastTime (fst (feed frames s)) = 0
  /\ 0 <= lastTimestamp (fst (feed frames s)) < 2 ^ 64.
Proof.
  induction frames as [|[frame now] frames IH]; intros s Ht Hl; [now split|].
  cbn [Bridge.feed].
  pose proof (onMediaFrame_lastTime frame now s) as E1.
  pose proof (onMediaFrame_lastTimestamp_range frame now s Hl) as E2.
  destruct (onMediaFrame frame now s) as [s1 out1]. cbn [fst] in E1, E2.
  rewrite Ht in E1. specialize (IH s1 E1 E2).
  destruct (feed frames s1) as [s2 out2]. exact IH.
Qed.

Lemma reset_after_feed_repeats_timestamp frames frame now rate ssrc0 (acu0 : A) :
  HasRtpPacketizationInfo frame = true ->
  rateOf (fType frame) = Some rate ->
  List.filter (fits maxMediaLength) (fRtpInfo frame) <> [] ->
  lastTimestamp (fst (onMediaFrame frame now (Reset (fst (feed frames (create ssrc0 acu0))))))
    = lastTimestamp (fst (feed frames (create ssrc0 acu0))).
Proof.
  intros Hinfo Hrate Hfit.
  destruct (feed_keeps_lastTime_zero frames (create ssrc0 acu0)) as (Ht & Hl);
    [reflexivity | cbn; lia |].
  rewrite (first_timestamp_after_Reset frame now rate _ Hinfo Hrate Hfit).
  rewrite Ht. cbn [Z.eqb]. apply QWORD_small. exact Hl.
Qed.

(** C9.  A frame without packetization info leaves the bridge exactly as it
    was -- latch, timestamps, counter and statistics -- and no packet
    reaches any listener. *)
Theorem frame_without_info_is_ignored :
  forall frame now (s : Bridge),
    HasRtpPacketizationInfo frame = false ->
    onMediaFrame frame now s = (s, [])
    /\ fanout (fst (onMediaFrame frame now s)) (snd (onMediaFrame frame now s)) = [].
Proof.
  intros frame now s Hinfo. unfold Bridge.onMediaFrame. rewrite Hinfo.
  split; reflexivity.
Qed.

(** C7, as amended.  A freshly constructed bridge fed one video frame with
    source timestamp 1000 and a single descriptor of 500 bytes emits exactly
    one packet, with sequence number 0, mark bit set and wire timestamp 0:
    the source timestamp of the first frame of a segment becomes
    [firstTimestamp], and the packet is stamped [baseTimestamp * 90], which
    is 0 on a fresh bridge. *)
Theorem first_frame_of_fresh_bridge :
  forall frame rtp now ssrc0 (acu0 : A),
    fType frame = Video ->
    fTimeStamp frame = 1000 ->
    fRtpInfo frame = [rtp] ->
    GetTotalLength rtp = 500 ->
    500 <= maxMediaLength ->
    exists p,
      snd (onMediaFrame frame now (create ssrc0 acu0)) = [p]
      /\ pExtSeqNum p = 0 /\ GetSeqNum p = 0
      /\ pTimestamp p = 0
      /\ pMark p = true
      /\ pSSRC p = ssrc0
      /\ firstTimestamp (fst (onMediaFrame frame now (create ssrc0 acu0))) = 1000
      /\ extSeqNum (fst (onMediaFrame frame now (create ssrc0 acu0))) = 1.
Proof.
  intros frame rtp now ssrc0 acu0 Htype Hts Hinfo Hlen Hmax.
  unfold Bridge.onMediaFrame, HasRtpPacketizationInfo.
  rewrite Hinfo, Htype, Hts. cbn [negb rateOf create reset].
  cbn [Bridge.packetize length]. rewrite Hlen.
  replace (500 >? maxMediaLength) with false
    by (symmetry; rewrite Z.gtb_ltb; apply Z.ltb_ge; lia).
  eexists. split; [reflexivity|]. cbn. rewrite Hts. repeat split; reflexivity.
Qed.

End WithCollaborators.

End BridgeFacts.

(** ** The event loop *)

Module EventLoopFacts.

Import EventLoop Props.

Section WithWorld.

Context {World : Type}.
Variable clock : nat -> Z.

Local Abbreviation Loop := (EventLoop (World := World)).

(** *** Send *)

Lemma Signal_sending caller (l : Loop) : sending (Signal caller l) = sending l.
Proof. unfold Signal. now destruct (onLoopThread caller l || signaled l). Qed.

Lemma Signal_state caller (l : Loop) : state (Signal caller l) = state l.
Proof. unfold Signal. now destruct (onLoopThread caller l || signaled l). Qed.

Lemma Signal_tasks caller (l : Loop) : tasks (Signal caller l) = tasks l.
Proof. unfold Signal. now destruct (onLoopThread caller l || signaled l). Qed.

Lemma Signal_history caller (l : Loop) : history (Signal caller l) = history l.
Proof. unfold Signal. now destruct (onLoopThread caller l || signaled l). Qed.

Lemma Send_above caller send (l : Loop) :
  MaxSendingQueueSize < Z.of_nat (length (sending l)) ->
  sending (Send caller send l) = sending l /\ state (Send caller send l) = Overflown.
Proof.
  intros Hbig. unfold Send.
  replace (Z.of_nat (length (sending l)) >? MaxSendingQueueSize) with true
    by (symmetry; rewrite Z.gtb_ltb; apply Z.ltb_lt; exact Hbig).
  destruct (state l) eqn:Est; cbn; split; try reflexivity. exact Est.
Qed.

Lemma Send_below caller send (l : Loop) :
  Z.of_nat (length (sending l)) <= MaxSendingQueueSize ->
  sending (Send caller send l) = sending l ++ [send].
Proof.
  intros Hsmall. unfold Send.
  replace (Z.of_nat (length (sending l)) >? MaxSendingQueueSize) with false
    by (symmetry; rewrite Z.gtb_ltb; apply Z.ltb_ge; exact Hsmall).
  rewrite Signal_sending.
  destruct (_ && _); [reflexivity|]. destruct (_ && _); reflexivity.
Qed.

(** C3, as amended.  A Send drops its packet exactly when the queue size it
    reads exceeds H = 16384, and it then leaves the loop Overflown; a Send
    that reads a size of at most H appends its packet to the queue in every
    state, Overflown included and whether or not the queue has drained below
    H/4. *)
Theorem Send_drops_only_above_high_water :
  forall caller send (l : Loop),
    MaxSendingQueueSize = 16384
    /\ (MaxSendingQueueSize < Z.of_nat (length (sending l)) ->
        sending (Send caller send l) = sending l
        /\ state (Send caller send l) = Overflown)
    /\ (Z.of_nat (length (sending l)) <= MaxSendingQueueSize ->
        sending (Send caller send l) = sending l ++ [send]).
Proof.
  intros caller send l. split; [reflexivity|].
  split; [apply Send_above | apply Send_below].
Qed.

(** *** The write phase *)

(** C5, as amended.  When [sendto] fails with EAGAIN or EWOULDBLOCK while
    the loop is in state Normal, the drain stops, the entry is kept as the
    pending one and the queue is not touched.  The write phase of a later
    iteration starts with that entry: it is handed to the first [sendto],
    ahead of the queue, and leaves first when that call succeeds.  An
    iteration runs its write phase only when the socket is reported
    writable, and the loop asks for that report only while the queue is not
    empty: with an empty queue the pending entry is left waiting, whatever
    the socket, until a Send puts an entry in the queue.  In state Lagging or
    Overflown the entry is not retained: the drain goes on with the next
    entry of the queue, and the failed one is neither pending, nor queued,
    nor sent. *)
Theorem again_retains_entry_in_Normal_only :
  forall st net k item queue,
    again (net k) = true ->
    (st = Normal ->
     sendAll st net k item queue = (Some item, queue, [])
     /\ (forall st' net' arrivals,
           queue <> [] ->
           writeIteration st' net' true (Some item) queue arrivals
           = sendAll st' net' 0 item (queue ++ arrivals)
           /\ (net' 0%nat = Sent ->
               exists p q out,
                 writeIteration st' net' true (Some item) queue arrivals
                 = (p, q, item :: out)))
     /\ (forall st' net' writable arrivals,
           writeIteration st' net' writable (Some item) [] arrivals
           = (Some item, arrivals, []))
     /\ (forall st' net' arrivals,
           writeIteration st' net' false (Some item) queue arrivals
           = (Some item, queue ++ arrivals, [])))
    /\ (st <> Normal ->
        sendAll st net k item queue
        = match queue with
          | [] => (None, [], [])
          | next :: queue' => sendAll st net (S k) next queue'
          end).
Proof.
  intros st net k item queue Hagain.
  assert (Hfail : failed (net k) = true) by (destruct (net k); [discriminate|reflexivity]).
  split.
  - intros ->. split; [|split; [|split]].
    + destruct queue; cbn [sendAll]; rewrite Hfail, Hagain; reflexivity.
    + intros st' net' arrivals Hq.
      assert (E : writeIteration st' net' true (Some item) queue arrivals
                  = sendAll st' net' 0 item (queue ++ arrivals)).
      { unfold writeIteration, wantsWrite, writePhase.
        destruct queue; [contradiction|reflexivity]. }
      split; [exact E|]. intros Hsent. rewrite E.
      destruct queue as [|next queue']; [contradiction|].
      cbn [app sendAll]. rewrite Hsent. cbn [failed andb app].
      destruct (sendAll st' net' 1 next (queue' ++ arrivals)) as [[p q] out].
      exists p, q, out. reflexivity.
    + intros st' net' writable arrivals. reflexivity.
    + intros st' net' arrivals. unfold writeIteration. rewrite andb_false_r.
      reflexivity.
  - intros Hst.
    assert (Hn : eqb_state st Normal = false) by (destruct st; [contradiction|reflexivity..]).
    destruct queue as [|next queue']; cbn [sendAll]; rewrite Hfail, Hn; cbn [andb app].
    + reflexivity.
    + now destruct (sendAll st net (S k) next queue') as [[p q] out].
Qed.

(** *** Tasks and Stop *)

Lemma drainTasks_spec : forall queue (l : Loop),
  tasks (drainTasks queue l) = []
  /\ history (drainTasks queue l) = history l ++ completions queue
  /\ running (drainTasks queue l) = running l
  /\ ticks (drainTasks queue l) = ticks l.
Proof.
  induction queue as [|t queue IH]; intros l.
  - cbn. rewrite List.app_nil_r. repeat split.
  - cbn [drainTasks].
    match goal with |- context [drainTasks queue ?l1] =>
      destruct (IH l1) as (E1 & E2 & E3 & E4)
    end.
    rewrite E1, E2, E3, E4. cbn. rewrite <- List.app_assoc. repeat split.
Qed.

Lemma finalDrain_spec : forall queue (l : Loop),
  tasks (finalDrain clock queue l) = []
  /\ history (finalDrain clock queue l) = history l ++ completions queue
  /\ running (finalDrain clock queue l) = running l.
Proof.
  induction queue as [|t queue IH]; intros l.
  - cbn. rewrite List.app_nil_r. repeat split.
  - cbn [finalDrain].
    match goal with |- context [finalDrain clock queue ?l1] =>
      destruct (IH l1) as (E1 & E2 & E3)
    end.
    rewrite E1, E2, E3. cbn. rewrite <- List.app_assoc. repeat split.
Qed.

Lemma Now_keeps (l : Loop) :
  tasks (Now clock l) = tasks l /\ history (Now clock l) = history l
  /\ running (Now clock l) = running l /\ signaled (Now clock l) = signaled l
  /\ pipeWrites (Now clock l) = pipeWrites l.
Proof. repeat split. Qed.

Lemma drainTasks_signal : forall queue (l : Loop),
  signaled (drainTasks queue l) = signaled l
  /\ pipeWrites (drainTasks queue l) = pipeWrites l.
Proof.
  induction queue as [|t queue IH]; intros l; [now split|].
  cbn [drainTasks].
  match goal with |- context [drainTasks queue ?l1] => destruct (IH l1) as (E1 & E2) end.
  rewrite E1, E2. now split.
Qed.

Lemma finalDrain_signal : forall queue (l : Loop),
  signaled (finalDrain clock queue l) = signaled l
  /\ pipeWrites (finalDrain clock queue l) = pipeWrites l.
Proof.
  induction queue as [|t queue IH]; intros l; [now split|].
  cbn [finalDrain].
  match goal with |- context [finalDrain clock queue ?l1] => destruct (IH l1) as (E1 & E2) end.
  rewrite E1, E2. now split.
Qed.

(** The worker on its way out of [Run]: every task queued is executed and
    resolved, once and in order; the signalled flag is cleared when the
    signalling descriptor was readable and [poll] reported no error, and left
    as it was otherwise. *)
Lemma workerExit_spec pollError (l : Loop) :
  tasks (workerExit clock pollError l) = []
  /\ history (workerExit clock pollError l) = history l ++ completions (tasks l)
  /\ running (workerExit clock pollError l) = running l
  /\ signaled (workerExit clock pollError l)
     = (if negb pollError && pipeReadable l then false else signaled l).
Proof.
  unfold workerExit.
  destruct pollError; cbn [negb andb].
  - destruct (finalDrain_spec (tasks (Now clock l)) (Now clock l)) as (E1 & E2 & E3).
    destruct (finalDrain_signal (tasks (Now clock l)) (Now clock l)) as (E4 & _).
    rewrite E1, E2, E3, E4. repeat split.
  - destruct (drainTasks_spec (tasks (Now clock l)) (Now clock l)) as (D1 & D2 & D3 & _).
    destruct (drainTasks_signal (tasks (Now clock l)) (Now clock l)) as (D4 & _).
    match goal with |- context [finalDrain clock (tasks ?l2) ?l2] =>
      set (l3 := l2);
      assert (T3 : tasks l3 = [])
        by (unfold l3; destruct (pipeReadable l); exact D1);
      assert (H3 : history l3 = history l ++ completions (tasks l))
        by (unfold l3; destruct (pipeReadable l); exact D2);
      assert (R3 : running l3 = running l)
        by (unfold l3; destruct (pipeReadable l); exact D3);
      assert (S3 : signaled l3 = if pipeReadable l then false else signaled l)
        by (unfold l3; destruct (pipeReadable l); [reflexivity | exact D4])
    end.
    destruct (finalDrain_spec (tasks l3) l3) as (E1 & E2 & E3).
    destruct (finalDrain_signal (tasks l3) l3) as (E4 & _).
    rewrite E1, E2, E3, E4, T3, H3, R3, S3. cbn [completions List.map concat].
    rewrite List.app_nil_r. repeat split.
Qed.

(** What Stop() does when it is called from another thread on a loop that
    is running, whose worker is inside Run and leaves [poll]: because the
    signal of Stop reaches it ([signaled] was clear, or the descriptor still
    holds an unread write) or because [poll] returns for a reason of its own.
    Stop returns true after every task that was pending has been executed and
    had its completion signal resolved, once each and in the order of the
    queue; the task queue is then empty. *)
Lemma Stop_drains_when_worker_leaves_poll :
  forall poll (l : Loop),
    running l = true -> worker l = InRun -> pipeOpen l = true ->
    poll <> PollBlocked \/ signaled l = false \/ pipeWrites l <> 0%nat ->
    exists l',
      Stop clock poll l = Some (true, l')
      /\ tasks l' = []
      /\ history l' = history l ++ completions (tasks l)
      /\ running l' = false
      /\ worker l' = NotStarted
      /\ pipeOpen l' = false
      /\ (signaled l = false -> poll <> PollError -> signaled l' = false).
Proof.
  intros poll l Hrun Hin Hopen Hwake.
  unfold Stop. rewrite Hrun. cbn [negb worker set_running]. rewrite Hin.
  set (l0 := Signal OtherThread (set_running false l)).
  assert (Ht : tasks l0 = tasks l) by (unfold l0; now rewrite Signal_tasks).
  assert (Hh : history l0 = history l) by (unfold l0; now rewrite Signal_history).
  assert (Hr : running l0 = false).
  { unfold l0, Signal. cbn. now destruct (signaled l). }
  assert (Hread : signaled l = false \/ pipeWrites l <> 0%nat -> pipeReadable l0 = true).
  { intros Hs. unfold l0, Signal, pipeReadable. cbn [onLoopThread orb signaled set_running].
    destruct (signaled l) eqn:Es; cbn [pipeOpen pipeWrites set_pipeWrites set_signaled set_running].
    - rewrite Hopen. destruct Hs as [Hs|Hs]; [discriminate|].
      destruct (pipeWrites l); [contradiction|reflexivity].
    - rewrite Hopen. reflexivity. }
  assert (Hclear : signaled l = false -> pipeReadable l0 = true).
  { intros Hs. apply Hread. now left. }
  destruct (workerExit_spec true l0) as (A1 & A2 & A3 & _).
  destruct (workerExit_spec false l0) as (B1 & B2 & B3 & B4).
  cbn [negb andb] in B4.
  assert (Hjoin : forall pollError,
            (pollError = false -> signaled l = false ->
             signaled (workerExit clock pollError l0) = false) ->
            exists l',
              Some (true, set_pipeOpen false
                            (set_worker NotStarted (workerExit clock pollError l0)))
              = Some (true, l')
              /\ tasks l' = []
              /\ history l' = history l ++ completions (tasks l)
              /\ running l' = false
              /\ worker l' = NotStarted
              /\ pipeOpen l' = false
              /\ (pollError = false -> signaled l = false -> signaled l' = false)).
  { intros pollError Hsig. eexists. split; [reflexivity|].
    cbn [tasks history running worker pipeOpen signaled set_pipeOpen set_worker].
    destruct (workerExit_spec pollError l0) as (E1 & E2 & E3 & _).
    rewrite E1, E2, E3, Ht, Hh, Hr. repeat split. exact Hsig. }
  assert (Hsig : false = false -> signaled l = false ->
                 signaled (workerExit clock false l0) = false).
  { intros _ Hs. rewrite B4, (Hclear Hs). reflexivity. }
  destruct poll.
  - assert (Hr0 : pipeReadable l0 = true).
    { apply Hread. destruct Hwake as [Hp|Hs]; [now contradiction Hp | exact Hs]. }
    rewrite Hr0.
    destruct (Hjoin false Hsig) as (l' & E & P1 & P2 & P3 & P4 & P5 & P6).
    exists l'. repeat split; try assumption. intros Hs _. now apply P6.
  - destruct (Hjoin false Hsig) as (l' & E & P1 & P2 & P3 & P4 & P5 & P6).
    exists l'. repeat split; try assumption. intros Hs _. now apply P6.
  - destruct (Hjoin true ltac:(discriminate)) as (l' & E & P1 & P2 & P3 & P4 & P5 & P6).
    exists l'. repeat split; try assumption. intros _ Hp. now contradiction Hp.
Qed.

(** When [signaled] is set while the descriptor holds nothing to read, the
    signal of Stop writes nothing; a worker that [poll] keeps blocked is not
    woken, and Stop does not return. *)
Lemma Stop_blocks_when_signal_is_stale :
  forall (l : Loop),
    running l = true -> worker l = InRun -> signaled l = true ->
    pipeWrites l = 0%nat ->
    Stop clock PollBlocked l = None.
Proof.
  intros l Hrun Hin Hsig Hw.
  unfold Stop. rewrite Hrun. cbn [negb worker set_running]. rewrite Hin.
  unfold Signal. cbn [onLoopThread orb signaled set_running]. rewrite Hsig.
  unfold pipeReadable. cbn [pipeOpen pipeWrites set_running]. rewrite Hw.
  cbn [Nat.eqb negb]. rewrite andb_false_r. reflexivity.
Qed.

(** Stop on a loop that is not running returns false and touches
    nothing. *)
Lemma Stop_when_not_running :
  forall poll (l : Loop), running l = false -> Stop clock poll l = Some (false, l).
Proof. intros poll l Hrun. unfold Stop. rewrite Hrun. reflexivity. Qed.

End WithWorld.

End EventLoopFacts.

(** ** The properties on concrete runs *)

Module Scenarios.

Import Bridge Props Samples.

Local Abbreviation runFeed := (feed (A := WindowAcu) maxLen noLayers zeroMemory).
Local Abbreviation step := (onMediaFrame (A := WindowAcu) maxLen noLayers zeroMemory).

(** *** Sequence numbers *)



(** *** Skipped descriptors *)

Lemma oversized_descriptor_leaves_no_gap_witness :
  rateOf (fType (smallFrame Video 1000 [half1; oversized; half2])) = Some 90
  /\ List.map pExtSeqNum
       (snd (step (smallFrame Video 1000 [half1; oversized; half2]) 5000 fresh))
     = seqFrom 0 2
  /\ extSeqNum (fst (step (smallFrame Video 1000 [half1; oversized; half2]) 5000 fresh))
     = advance 0 2.
Proof.
  split; [reflexivity|].
  exact (proj2 (BridgeFacts.oversized_descriptor_leaves_no_gap maxLen noLayers zeroMemory
                  (smallFrame Video 1000 [half1; oversized; half2]) 5000 90 fresh
                  eq_refl)).
Defined.

(** *** The mark bit *)

(** C4 as stated fails when the last descriptor is oversized: the frame
    yields one packet and it carries no mark. *)
Lemma last_descriptor_skipped_no_mark :
  ~ (forall frame now rate (s : MediaFrameListenerBridge),
        HasRtpPacketizationInfo frame = true ->
        rateOf (fType frame) = Some rate ->
        countMarks (snd (step frame now s)) = 1%nat).
Proof.
  intros Hclaim.
  specialize (Hclaim (smallFrame Video 1000 [half1; oversized]) 5000 90 fresh
                eq_refl eq_refl).
  vm_compute in Hclaim. discriminate Hclaim.
Qed.

Lemma mark_only_on_last_descriptor_witness :
  rateOf (fType (smallFrame Video 1000 [half1; oversized; half2])) = Some 90
  /\ countMarks (snd (step (smallFrame Video 1000 [half1; oversized; half2]) 5000 fresh))
     = 1%nat.
Proof.
  split; [reflexivity|].
  exact (proj1 (BridgeFacts.mark_only_on_last_descriptor maxLen noLayers zeroMemory
                  (smallFrame Video 1000 [half1; oversized; half2]) 5000 90 fresh
                  eq_refl)).
Defined.

(** *** Timestamps *)

(** C2.  After a Reset() the first frame should get the timestamp
    L + ceil((t1 - t0) * rate / 1000) + 1, where t0 is the time of the last
    send and t1 the time of the frame.  The code does not achieve it: on the
    run of the design document (L = 3000, last send at 5040, Reset(), a video
    frame at 5060) the formula gives 3003 and the bridge produces 3000; it
    produces 3000 whatever the time of the frame, because nothing has stored
    a time of last send and the branch that adds the elapsed time is not
    taken. *)
Lemma reset_ignores_elapsed_time :
  lastTimestamp afterFrame2 = 3000
  /\ lastTime afterFrame2 = 0
  /\ specResetTimestamp 3000 5040 5060 90 = 3003
  /\ lastTimestamp (fst (step frame3 5060 (Reset afterFrame2))) = 3000
  /\ (forall t1, lastTimestamp (fst (step frame3 t1 (Reset afterFrame2))) = 3000).
Proof.
  assert (E1 : lastTimestamp afterFrame2 = 3000) by (vm_compute; reflexivity).
  assert (Hall : forall t1, lastTimestamp (fst (step frame3 t1 (Reset afterFrame2))) = 3000).
  { intros t1. rewrite <- E1. unfold afterFrame2, fresh.
    apply (BridgeFacts.reset_after_feed_repeats_timestamp maxLen noLayers zeroMemory
             [(frame1, 5000); (frame2, 5040)] frame3 t1 90 0x1234 acu0).
    - reflexivity.
    - reflexivity.
    - vm_compute. discriminate. }
  split; [exact E1|]. split; [vm_compute; reflexivity|].
  split; [vm_compute; reflexivity|]. split; [apply Hall | exact Hall].
Qed.

(** C6.  The first timestamp produced after a Reset() should be at least
    the last timestamp before it plus 1.  The code does not achieve it: on
    the run of the design document -- two frames, Reset(), a third frame
    twenty milliseconds later -- nothing has stored a time of last send, so
    the first timestamp after the reset is the last one before it, 3000, and
    the packet goes out with the wire timestamp of the packets of the frame
    before. *)
Lemma reset_repeats_last_timestamp :
  lastTimestamp afterFrame2 = 3000
  /\ lastTime afterFrame2 = 0
  /\ lastTimestamp (fst (step frame3 5060 (Reset afterFrame2))) = 3000
  /\ List.map pTimestamp (snd (step frame3 5060 (Reset afterFrame2))) = [270000]
  /\ ~ lastTimestamp afterFrame2 + 1
       <= lastTimestamp (fst (step frame3 5060 (Reset afterFrame2))).
Proof.
  assert (E1 : lastTimestamp afterFrame2 = 3000) by (vm_compute; reflexivity).
  assert (E2 : lastTimestamp (fst (step frame3 5060 (Reset afterFrame2))) = 3000)
    by (vm_compute; reflexivity).
  split; [exact E1|]. split; [vm_compute; reflexivity|]. split; [exact E2|].
  split; [vm_compute; reflexivity|]. rewrite E1, E2. lia.
Qed.

(** C7 as stated fails on the timestamp: the packet of the first frame goes
    out with wire timestamp 0, not 90000. *)
Lemma fresh_bridge_first_timestamp_is_zero :
  ~ (exists p,
        snd (step frame1 5000 fresh) = [p]
        /\ GetSeqNum p = 0 /\ pTimestamp p = 1000 * 90 /\ pMark p = true).
Proof.
  intros (p & Hout & _ & Hts & _).
  assert (Hz : List.map pTimestamp (snd (step frame1 5000 fresh)) = [0])
    by (vm_compute; reflexivity).
  rewrite Hout in Hz. cbn [List.map] in Hz. injection Hz as Hz.
  rewrite Hz in Hts. discriminate Hts.
Qed.

Lemma first_frame_of_fresh_bridge_witness :
  fType frame1 = Video
  /\ fTimeStamp frame1 = 1000
  /\ GetTotalLength (desc 0 500) = 500
  /\ 500 <= maxLen
  /\ exists p,
       snd (step frame1 5000 fresh) = [p]
       /\ GetSeqNum p = 0 /\ pTimestamp p = 0 /\ pMark p = true.
Proof.
  assert (Hmax : 500 <= maxLen) by (vm_compute; congruence).
  split; [reflexivity|]. split; [reflexivity|]. split; [reflexivity|].
  split; [exact Hmax|].
  destruct (BridgeFacts.first_frame_of_fresh_bridge maxLen noLayers zeroMemory
              frame1 (desc 0 500) 5000 0x1234 acu0 eq_refl eq_refl eq_refl eq_refl Hmax)
    as (p & Hout & _ & Hseq & Hts & Hmark & _).
  exists p. repeat split; assumption.
Defined.

(** *** Frames without packetization info *)

Lemma frame_without_info_is_ignored_witness :
  HasRtpPacketizationInfo (smallFrame Video 1000 []) = false
  /\ step (smallFrame Video 1000 []) 5000 (Reset afterFrame2) = (Reset afterFrame2, []).
Proof.
  split; [reflexivity|].
  exact (proj1 (BridgeFacts.frame_without_info_is_ignored maxLen noLayers zeroMemory
                  (smallFrame Video 1000 []) 5000 (Reset afterFrame2) eq_refl)).
Defined.

End Scenarios.

Module LoopScenarios.

Import EventLoop Props Samples.

Local Abbreviation Loop := (EventLoop (World := nat)).

(** *** Send *)

Lemma high_water_value : MaxSendingQueueSize = 16384.
Proof. reflexivity. Qed.

Lemma flood_sending : forall n,
  Z.of_nat n <= MaxSendingQueueSize + 1 ->
  sending (flood n started) = repeat (datagram 9999) n.
Proof.
  induction n as [|n IH]; intros Hn; [reflexivity|].
  cbn [flood]. rewrite EventLoopFacts.Send_below.
  - rewrite IH by lia. symmetry. apply List.repeat_cons.
  - rewrite IH by lia. rewrite List.repeat_length. lia.
Qed.

(** C3 as stated fails once the queue has come back to H or less: after
    16386 calls of Send on a stalled loop the last packet has been dropped
    and the loop is Overflown; the worker takes two entries; the queue
    holds 16383 entries, far above H/4 = 4096, and the next Send enqueues
    its packet. *)
Lemma queue_refills_above_low_water :
  ~ (forall caller send (l : Loop),
        state l = Overflown ->
        MaxSendingQueueSize / 4 <= Z.of_nat (length (sending l)) ->
        sending (Send caller send l) = sending l).
Proof.
  intros Hclaim.
  assert (HN : exists N, Z.of_nat N = 16385) by (exists (Z.to_nat 16385); lia).
  destruct HN as (N & HN).
  pose proof high_water_value as HH.
  assert (Hq : sending (flood N started) = repeat (datagram 9999) N)
    by (apply flood_sending; lia).
  assert (Hlen : Z.of_nat (length (sending (flood N started))) = 16385)
    by (rewrite Hq, List.repeat_length; exact HN).
  destruct (EventLoopFacts.Send_above OtherThread (datagram 9999) (flood N started))
    as (Hsame & Hover); [lia|].
  set (l := dequeued 2 (flood (S N) started)).
  assert (Hstate : state l = Overflown) by exact Hover.
  assert (Hl : Z.of_nat (length (sending l)) = 16383).
  { unfold l, dequeued. cbn [sending set_sending flood].
    rewrite List.length_skipn, Hsame. lia. }
  clearbody l.
  assert (Hlow : MaxSendingQueueSize / 4 <= Z.of_nat (length (sending l)))
    by (rewrite Hl, HH; vm_compute; congruence).
  specialize (Hclaim OtherThread (datagram 9999) l Hstate Hlow).
  rewrite EventLoopFacts.Send_below in Hclaim by lia.
  apply (f_equal (@length _)) in Hclaim. rewrite List.length_app in Hclaim.
  cbn [length] in Hclaim. lia.
Qed.

(** The loop of that run when the worker has taken its two entries: it is
    Overflown and holds 16383 entries. *)
Lemma drainedTwo_facts :
  state drainedTwo = Overflown
  /\ Z.of_nat (length (sending drainedTwo)) = 16383.
Proof.
  assert (HN : exists N, Z.to_nat 16386 = S N /\ Z.of_nat N = 16385).
  { exists (Z.to_nat 16385). split; lia. }
  destruct HN as (N & EN & HN).
  unfold drainedTwo. rewrite EN. clear EN.
  pose proof high_water_value as HH.
  assert (Hq : sending (flood N started) = repeat (datagram 9999) N)
    by (apply flood_sending; lia).
  assert (Hlen : Z.of_nat (length (sending (flood N started))) = 16385)
    by (rewrite Hq, List.repeat_length; exact HN).
  destruct (EventLoopFacts.Send_above OtherThread (datagram 9999) (flood N started))
    as (Hsame & Hover); [lia|].
  split; [exact Hover|].
  unfold dequeued. cbn [sending set_sending flood].
  rewrite List.length_skipn, Hsame. lia.
Qed.

Lemma Send_drops_only_above_high_water_witness :
  state drainedTwo = Overflown
  /\ MaxSendingQueueSize / 4 <= Z.of_nat (length (sending drainedTwo))
  /\ Z.of_nat (length (sending drainedTwo)) <= MaxSendingQueueSize
  /\ sending (Send OtherThread (datagram 1) drainedTwo)
     = sending drainedTwo ++ [datagram 1].
Proof.
  pose proof drainedTwo_facts as (Hstate & Hl).
  assert (Hlow : MaxSendingQueueSize / 4 <= Z.of_nat (length (sending drainedTwo))).
  { rewrite Hl. vm_compute. congruence. }
  assert (Hlen : Z.of_nat (length (sending drainedTwo)) <= MaxSendingQueueSize).
  { rewrite Hl. vm_compute. congruence. }
  split; [exact Hstate|]. split; [exact Hlow|]. split; [exact Hlen|].
  exact (proj2 (proj2 (EventLoopFacts.Send_drops_only_above_high_water
                  OtherThread (datagram 1) drainedTwo)) Hlen).
Defined.

(** *** The write phase *)

(** C5 as stated fails in state Lagging: the entry that got EAGAIN is
    dropped, the drain goes on and sends the next one. *)
Lemma again_drops_entry_when_lagging :
  ~ (forall st net k item queue,
        again (net k) = true ->
        exists rest out, sendAll st net k item queue = (Some item, rest, out)).
Proof.
  intros Hclaim.
  destruct (Hclaim Lagging busyOnce 0%nat (datagram 1) [datagram 2] eq_refl)
    as (rest & out & E).
  vm_compute in E. discriminate E.
Qed.

Lemma again_retains_entry_in_Normal_only_witness :
  again (busyOnce 0) = true
  /\ sendAll Normal busyOnce 0 (datagram 1) [datagram 2]
     = (Some (datagram 1), [datagram 2], [])
  /\ writeIteration Normal (fun _ => Sent) true (Some (datagram 1)) [datagram 2] []
     = (None, [], [datagram 1; datagram 2])
  /\ writeIteration Normal (fun _ => Sent) true (Some (datagram 1)) [] [datagram 3]
     = (Some (datagram 1), [datagram 3], [])
  /\ writeIteration Normal (fun _ => Sent) true (Some (datagram 1)) [datagram 3] []
     = (None, [], [datagram 1; datagram 3])
  /\ sendAll Lagging busyOnce 0 (datagram 1) [datagram 2]
     = sendAll Lagging busyOnce 1 (datagram 2) [].
Proof.
  split; [reflexivity|].
  destruct (EventLoopFacts.again_retains_entry_in_Normal_only
              Normal busyOnce 0%nat (datagram 1) [datagram 2] eq_refl) as (Hn & _).
  destruct (Hn eq_refl) as (Hkept & Hnext & _).
  destruct (EventLoopFacts.again_retains_entry_in_Normal_only
              Normal busyOnce 0%nat (datagram 1) [] eq_refl) as (He & _).
  destruct (He eq_refl) as (_ & _ & Hwait & _).
  destruct (EventLoopFacts.again_retains_entry_in_Normal_only
              Normal busyOnce 0%nat (datagram 1) [datagram 3] eq_refl) as (Hl & _).
  destruct (Hl eq_refl) as (_ & Hlater & _).
  split; [exact Hkept|]. split.
  - rewrite (proj1 (Hnext Normal (fun _ => Sent) [] ltac:(discriminate))). reflexivity.
  - split; [exact (Hwait Normal (fun _ => Sent) true [datagram 3])|]. split.
    + rewrite (proj1 (Hlater Normal (fun _ => Sent) [] ltac:(discriminate))).
      reflexivity.
    + refine (proj2 (EventLoopFacts.again_retains_entry_in_Normal_only
                       Lagging busyOnce 0%nat (datagram 1) [datagram 2] eq_refl) _).
      discriminate.
Defined.

(** *** Stop *)

(** C8.  Every task pending when Stop() is called should be executed and
    resolved before Stop() returns.  The code does not achieve it on a
    running loop whose worker has left [Run] after a poll error: [running] is
    still set, Async still queues the task, and Stop returns true with the
    task in the queue, not executed and not resolved. *)
Lemma task_queued_after_poll_failure_is_left :
  running (pollFailure sysClock started) = true
  /\ worker (pollFailure sysClock started) = Returned
  /\ List.map promise (tasks (Async OtherThread (bump 7) (pollFailure sysClock started)))
     = [7%nat]
  /\ exists l',
       Stop sysClock PollBlocked (Async OtherThread (bump 7) (pollFailure sysClock started))
       = Some (true, l')
       /\ List.map promise (tasks l') = [7%nat]
       /\ history l' = [].
Proof.
  split; [reflexivity|]. split; [reflexivity|]. split; [reflexivity|].
  eexists. split; [reflexivity|]. split; reflexivity.
Qed.

(** On a loop whose worker is inside [Run] and is woken by the signal that
    came with the task, the pending task is executed and resolved before Stop
    returns. *)
Lemma Stop_drains_pending_task :
  exists l',
    Stop sysClock PollBlocked (Async OtherThread (bump 7) started) = Some (true, l')
    /\ tasks l' = []
    /\ history l' = [Executed 7; Resolved 7].
Proof.
  eexists. split; [reflexivity|]. split; reflexivity.
Qed.

End LoopScenarios.

(** ** More on the packetization bridge *)

Module BridgeMore.

Import Bridge Props Props2.

Section WithCollaborators.

Context {A : Type} `{AcumulatorOps A}.
Variable maxMediaLength : Z.
Variable GetLayerIds : Z -> list Byte.byte -> Z * Z.
Variable beyond : MediaFrame -> nat -> Byte.byte.

Local Abbreviation packetize := (packetize maxMediaLength GetLayerIds beyond).
Local Abbreviation onMediaFrame := (onMediaFrame maxMediaLength GetLayerIds beyond).
Local Abbreviation feed := (feed maxMediaLength GetLayerIds beyond).
Local Abbreviation payloadOf := (payloadOf beyond).
Local Abbreviation Bridge := (MediaFrameListenerBridge (A := A)).

Lemma onMediaFrame_processed frame now rate (s : Bridge) :
  HasRtpPacketizationInfo frame = true ->
  rateOf (fType frame) = Some rate ->
  onMediaFrame frame now s
    = packetize frame rate (length (fRtpInfo frame)) 0 (fRtpInfo frame)
        (entering frame now rate s).
Proof.
  intros Hinfo Hrate. unfold Bridge.onMediaFrame. rewrite Hinfo, Hrate. reflexivity.
Qed.

Ltac entering_cases s :=
  let E := fresh "E" in
  unfold entering; destruct (reset s) eqn:E; cbn; destruct (_ =? 0); cbn;
  try destruct (negb (_ =? 0)); try reflexivity; try exact E.

Lemma entering_counters frame now rate (s : Bridge) :
  extSeqNum (entering frame now rate s) = extSeqNum s
  /\ numPackets (entering frame now rate s) = numPackets s
  /\ ssrc (entering frame now rate s) = ssrc s
  /\ listeners (entering frame now rate s) = listeners s
  /\ numFrames (entering frame now rate s) = DWORD (numFrames s + 1)
  /\ totalBytes (entering frame now rate s)
     = DWORD (totalBytes s + DWORD (GetLength frame))
  /\ lastTimestamp (entering frame now rate s) = lastTimestamp s
  /\ reset (entering frame now rate s) = false.
Proof. repeat split; entering_cases s. Qed.

(** What the loop over the descriptors leaves alone, and what it counts. *)
Lemma packetize_frame frame rate total : forall rest i (s : Bridge),
  numPackets (fst (packetize frame rate total i rest s))
    = advance (numPackets s) (length (snd (packetize frame rate total i rest s)))
  /\ ssrc (fst (packetize frame rate total i rest s)) = ssrc s
  /\ listeners (fst (packetize frame rate total i rest s)) = listeners s
  /\ numFrames (fst (packetize frame rate total i rest s)) = numFrames s
  /\ totalBytes (fst (packetize frame rate total i rest s)) = totalBytes s
  /\ reset (fst (packetize frame rate total i rest s)) = reset s
  /\ List.map pPayload (snd (packetize frame rate total i rest s))
     = List.map (payloadOf frame) (List.filter (fits maxMediaLength) rest)
  /\ Forall (fun p => pSSRC p = ssrc s /\ pMedia p = fType frame /\ pCodec p = fCodec frame)
       (snd (packetize frame rate total i rest s)).
Proof.
  induction rest as [|rtp rest IH]; intros i s.
  - cbn. repeat split. constructor.
  - cbn [Bridge.packetize List.filter]. unfold fits at 1.
    destruct (GetTotalLength rtp >? maxMediaLength); cbn [negb]; [apply IH|].
    match goal with |- context [packetize _ _ _ _ _ ?s3] =>
      destruct (IH (S i) s3) as (I1 & I2 & I3 & I4 & I5 & I6 & I7 & I8);
      destruct (packetize frame rate total (S i) rest s3) as [s4 out]
    end.
    cbn [fst snd] in *.
    cbn [numPackets ssrc listeners numFrames totalBytes reset
         set_numPackets set_lastTimestamp set_extSeqNum] in I1, I2, I3, I4, I5, I6, I8.
    cbn [length advance List.map pPayload makePacket].
    repeat split; try assumption.
    + now rewrite I7.
    + constructor; [repeat split|exact I8].
Qed.

(** X1.  A frame that has packetization info but is neither audio nor
    video emits nothing.  When the reset latch is not armed it leaves the
    bridge as it was; when the latch is armed it consumes it, and the next
    frame with packetization info is then handled exactly as if the ignored
    frame had never come. *)
Theorem unsupported_frame_is_transparent :
  forall ignored now next now' (s : Bridge),
    HasRtpPacketizationInfo ignored = true ->
    rateOf (fType ignored) = None ->
    HasRtpPacketizationInfo next = true ->
    snd (onMediaFrame ignored now s) = []
    /\ reset (fst (onMediaFrame ignored now s)) = false
    /\ (reset s = false -> fst (onMediaFrame ignored now s) = s)
    /\ onMediaFrame next now' (fst (onMediaFrame ignored now s))
       = onMediaFrame next now' s.
Proof.
  intros ignored now next now' s Hinfo Hrate Hnext.
  assert (Hign : onMediaFrame ignored now s
                 = (if reset s
                    then set_reset false
                           (set_baseTimestamp (lastTimestamp s) (set_firstTimestamp 0 s))
                    else s, [])).
  { unfold Bridge.onMediaFrame. rewrite Hinfo, Hrate. reflexivity. }
  rewrite Hign. cbn [fst snd].
  split; [reflexivity|]. split; [now destruct (reset s) eqn:E|].
  split; [now intros ->|].
  destruct (reset s) eqn:E; [|reflexivity].
  unfold Bridge.onMediaFrame. rewrite Hnext, E. reflexivity.
Qed.

(** X2.  A processed frame counts as one frame and adds its length to the
    byte count, whether or not any of its descriptors is emitted; the packet
    count grows by the number of descriptors that fit, which is the number
    of packets emitted (counters are 32-bit). *)
Theorem frame_statistics :
  forall frame now rate (s : Bridge),
    HasRtpPacketizationInfo frame = true ->
    rateOf (fType frame) = Some rate ->
    0 <= numPackets s < 2 ^ 32 ->
    numFrames (fst (onMediaFrame frame now s)) = DWORD (numFrames s + 1)
    /\ totalBytes (fst (onMediaFrame frame now s))
       = DWORD (totalBytes s + DWORD (GetLength frame))
    /\ length (snd (onMediaFrame frame now s))
       = length (List.filter (fits maxMediaLength) (fRtpInfo frame))
    /\ numPackets (fst (onMediaFrame frame now s))
       = DWORD (numPackets s
                + Z.of_nat (length (List.filter (fits maxMediaLength) (fRtpInfo frame)))).
Proof.
  intros frame now rate s Hinfo Hrate Hrange.
  rewrite (onMediaFrame_processed frame now rate s Hinfo Hrate).
  destruct (entering_counters frame now rate s) as (_ & En & _ & _ & Ef & Eb & _).
  destruct (packetize_frame frame rate (length (fRtpInfo frame)) (fRtpInfo frame) 0%nat
              (entering frame now rate s)) as (P1 & _ & _ & P4 & P5 & _).
  destruct (BridgeFacts.packetize_seq maxMediaLength GetLayerIds beyond frame rate
              (length (fRtpInfo frame)) (fRtpInfo frame) 0%nat (entering frame now rate s))
    as (_ & _ & Hlen).
  rewrite P4, P5, Ef, Eb, P1, En, Hlen.
  repeat split.
  rewrite BridgeFacts.advance_closed.
  generalize (length (List.filter (fits maxMediaLength) (fRtpInfo frame))).
  intros [|n]; cbn [Nat.eqb]; [|reflexivity].
  rewrite Z.add_0_r. symmetry. apply DWORD_small. exact Hrange.
Qed.

Lemma byteAt_cons after b data i :
  byteAt after (b :: data) (S i) = byteAt after data i.
Proof. reflexivity. Qed.

Lemma slice_in_bounds after : forall data pos size,
  (pos + size <= length data)%nat ->
  List.map (byteAt after data) (seq pos size) = firstn size (skipn pos data).
Proof.
  induction data as [|b data IH]; intros pos size Hle.
  - cbn [length] in Hle. assert (size = 0%nat) by lia. subst size.
    destruct pos; reflexivity.
  - destruct pos as [|pos].
    + destruct size as [|size]; [reflexivity|].
      cbn [seq List.map skipn firstn]. f_equal.
      rewrite <- List.seq_shift, List.map_map.
      rewrite (List.map_ext _ (byteAt after data) (byteAt_cons after b data)).
      rewrite (IH 0%nat size) by (cbn [length] in Hle; lia). reflexivity.
    + rewrite <- List.seq_shift, List.map_map.
      rewrite (List.map_ext _ (byteAt after data) (byteAt_cons after b data)).
      cbn [skipn]. apply IH. cbn [length] in Hle. lia.
Qed.

(** X3.  The packets emitted for a frame are, in order, those of the
    descriptors that fit: each carries the prefix of its descriptor followed
    by [size] bytes read from [pos] on in the data of the frame, the SSRC of
    the bridge, the type and codec of the frame, and all of them carry one
    and the same wire timestamp, the last timestamp of the bridge times the
    rate, on 32 bits.  The bytes of a descriptor that lies inside the data of
    the frame are those of the frame; the bridge does not compare a
    descriptor with the length of the frame, and a descriptor that reaches
    past the end still gets [size] bytes, the last of them read from the
    memory behind the data. *)
Theorem packets_of_a_frame :
  forall frame now rate (s : Bridge),
    HasRtpPacketizationInfo frame = true ->
    rateOf (fType frame) = Some rate ->
    List.map pPayload (snd (onMediaFrame frame now s))
      = List.map (payloadOf frame) (List.filter (fits maxMediaLength) (fRtpInfo frame))
    /\ Forall (fun p => pSSRC p = ssrc s
                        /\ pMedia p = fType frame
                        /\ pCodec p = fCodec frame
                        /\ pTimestamp p
                           = DWORD (lastTimestamp (fst (onMediaFrame frame now s)) * rate))
         (snd (onMediaFrame frame now s))
    /\ (forall rtp, inBounds frame rtp ->
          payloadOf frame rtp
          = rpPrefix rtp
            ++ firstn (Z.to_nat (rpSize rtp)) (skipn (Z.to_nat (rpPos rtp)) (fData frame)))
    /\ (forall rtp, 0 <= rpSize rtp ->
          Z.of_nat (length (payloadOf frame rtp)) = GetTotalLength rtp).
Proof.
  intros frame now rate s Hinfo Hrate.
  assert (Hbytes : forall rtp, inBounds frame rtp ->
            payloadOf frame rtp
            = rpPrefix rtp
              ++ firstn (Z.to_nat (rpSize rtp))
                   (skipn (Z.to_nat (rpPos rtp)) (fData frame))).
  { intros rtp (Hpos & Hsize & Hend). unfold Props2.payloadOf, slice. f_equal.
    apply slice_in_bounds. unfold GetLength in Hend. lia. }
  assert (Hlen : forall rtp, 0 <= rpSize rtp ->
            Z.of_nat (length (payloadOf frame rtp)) = GetTotalLength rtp).
  { intros rtp Hsize. unfold Props2.payloadOf, slice, GetTotalLength, GetPrefixLen.
    rewrite List.length_app, List.length_map, List.length_seq. lia. }
  rewrite (onMediaFrame_processed frame now rate s Hinfo Hrate).
  destruct (entering_counters frame now rate s) as (_ & _ & Es & _).
  destruct (packetize_frame frame rate (length (fRtpInfo frame)) (fRtpInfo frame) 0%nat
              (entering frame now rate s)) as (_ & _ & _ & _ & _ & _ & P7 & P8).
  destruct (BridgeFacts.packetize_time maxMediaLength GetLayerIds beyond frame rate
              (length (fRtpInfo frame)) (fRtpInfo frame) 0%nat (entering frame now rate s))
    as (T1 & T2 & _).
  split; [exact P7|]. split; [|split; [exact Hbytes | exact Hlen]].
  rewrite T1. rewrite Es in P8.
  destruct (snd (packetize frame rate (length (fRtpInfo frame)) 0 (fRtpInfo frame)
                   (entering frame now rate s))) as [|p out]; [constructor|].
  apply Forall_forall. intros x Hx.
  rewrite Forall_forall in P8, T2.
  destruct (P8 x Hx) as (Q1 & Q2 & Q3). repeat split; try assumption.
  exact (T2 x Hx).
Qed.

Lemma payloadOf_length frame rtp :
  0 <= rpSize rtp ->
  Z.of_nat (length (payloadOf frame rtp)) = GetTotalLength rtp.
Proof.
  intros Hsize. unfold Props2.payloadOf, slice, GetTotalLength, GetPrefixLen.
  rewrite List.length_app, List.length_map, List.length_seq. lia.
Qed.

(** X4.  When the slices of the descriptors lie inside the data of the
    frame, the payload of every emitted packet has the total length its
    descriptor declares, and so does not exceed the capacity. *)
Theorem emitted_payload_fits_capacity :
  forall frame now rate (s : Bridge),
    HasRtpPacketizationInfo frame = true ->
    rateOf (fType frame) = Some rate ->
    Forall (inBounds frame) (fRtpInfo frame) ->
    List.map (fun p => Z.of_nat (length (pPayload p))) (snd (onMediaFrame frame now s))
      = List.map GetTotalLength (List.filter (fits maxMediaLength) (fRtpInfo frame))
    /\ Forall (fun p => Z.of_nat (length (pPayload p)) <= maxMediaLength)
         (snd (onMediaFrame frame now s)).
Proof.
  intros frame now rate s Hinfo Hrate Hin.
  rewrite (onMediaFrame_processed frame now rate s Hinfo Hrate).
  destruct (packetize_frame frame rate (length (fRtpInfo frame)) (fRtpInfo frame) 0%nat
              (entering frame now rate s)) as (_ & _ & _ & _ & _ & _ & P7 & _).
  assert (Hlen : List.map (fun p => Z.of_nat (length (pPayload p)))
                   (snd (packetize frame rate (length (fRtpInfo frame)) 0 (fRtpInfo frame)
                           (entering frame now rate s)))
                 = List.map GetTotalLength
                     (List.filter (fits maxMediaLength) (fRtpInfo frame))).
  { rewrite <- (List.map_map pPayload (fun b => Z.of_nat (length b))), P7, List.map_map.
    apply List.map_ext_in. intros rtp Hrtp. apply payloadOf_length.
    rewrite List.Forall_forall in Hin.
    apply List.filter_In in Hrtp. apply (Hin rtp (proj1 Hrtp)). }
  split; [exact Hlen|].
  apply List.Forall_forall. intros p Hp.
  apply (List.in_map (fun p => Z.of_nat (length (pPayload p)))) in Hp.
  rewrite Hlen in Hp. apply List.in_map_iff in Hp. destruct Hp as (rtp & <- & Hrtp).
  apply List.filter_In in Hrtp. destruct Hrtp as (_ & Hfit).
  unfold fits in Hfit. apply negb_true_iff in Hfit.
  rewrite Z.gtb_ltb in Hfit. apply Z.ltb_ge in Hfit. exact Hfit.
Qed.

Lemma entering_in_segment frame now rate (s : Bridge) :
  reset s = false -> firstTimestamp s <> 0 ->
  baseTimestamp (entering frame now rate s) = baseTimestamp s
  /\ firstTimestamp (entering frame now rate s) = firstTimestamp s.
Proof.
  intros Hr Hf. unfold entering. rewrite Hr. cbn.
  apply Z.eqb_neq in Hf. rewrite Hf. cbn. split; reflexivity.
Qed.

Lemma entering_unstarted frame now rate (s : Bridge) :
  reset s = false -> firstTimestamp s = 0 -> lastTime s = 0 ->
  baseTimestamp (entering frame now rate s) = baseTimestamp s
  /\ firstTimestamp (entering frame now rate s) = fTimeStamp frame.
Proof.
  intros Hr Hf Ht. unfold entering. rewrite Hr. cbn.
  rewrite Hf, Ht. cbn. split; reflexivity.
Qed.

(** X5.  Within a segment (no reset pending, a first timestamp recorded) a
    frame is stamped with the base timestamp plus the distance of its source
    timestamp from the first one of the segment, in 64-bit unsigned
    arithmetic, and neither the base nor the first timestamp moves: frames of
    one segment keep the distances of their source timestamps. *)
Theorem timestamp_within_segment :
  forall frame now rate (s : Bridge),
    HasRtpPacketizationInfo frame = true ->
    rateOf (fType frame) = Some rate ->
    List.filter (fits maxMediaLength) (fRtpInfo frame) <> [] ->
    reset s = false ->
    firstTimestamp s <> 0 ->
    lastTimestamp (fst (onMediaFrame frame now s))
      = QWORD (baseTimestamp s + QWORD (fTimeStamp frame - firstTimestamp s))
    /\ baseTimestamp (fst (onMediaFrame frame now s)) = baseTimestamp s
    /\ firstTimestamp (fst (onMediaFrame frame now s)) = firstTimestamp s
    /\ (firstTimestamp s <= fTimeStamp frame < 2 ^ 64 ->
        0 <= baseTimestamp s ->
        baseTimestamp s + (fTimeStamp frame - firstTimestamp s) < 2 ^ 64 ->
        lastTimestamp (fst (onMediaFrame frame now s))
        = baseTimestamp s + (fTimeStamp frame - firstTimestamp s)).
Proof.
  intros frame now rate s Hinfo Hrate Hfit Hr Hf.
  rewrite (onMediaFrame_processed frame now rate s Hinfo Hrate).
  destruct (entering_in_segment frame now rate s Hr Hf) as (Eb & Ef).
  destruct (BridgeFacts.packetize_time maxMediaLength GetLayerIds beyond frame rate
              (length (fRtpInfo frame)) (fRtpInfo frame) 0%nat (entering frame now rate s))
    as (T1 & _ & T3 & T4).
  pose proof (BridgeFacts.packetize_emits maxMediaLength GetLayerIds beyond frame rate
                (length (fRtpInfo frame)) (fRtpInfo frame) 0%nat
                (entering frame now rate s) Hfit) as Hne.
  rewrite T1, T3, T4, Eb, Ef.
  destruct (snd _); [contradiction|].
  repeat split. intros Hts Hb Hsum.
  rewrite (QWORD_small (fTimeStamp frame - firstTimestamp s)) by lia.
  apply QWORD_small. lia.
Qed.

(** X6.  The value 0 of [firstTimestamp] means that no segment has started.
    A frame whose source timestamp is 0 therefore does not start one: the
    frame after it is again taken as the first of the segment, is stamped
    with the base timestamp itself, and its own source timestamp becomes the
    first timestamp. *)
Theorem zero_timestamp_does_not_start_segment :
  forall zero now0 rate0 frame now rate (s : Bridge),
    HasRtpPacketizationInfo zero = true ->
    rateOf (fType zero) = Some rate0 ->
    fTimeStamp zero = 0 ->
    HasRtpPacketizationInfo frame = true ->
    rateOf (fType frame) = Some rate ->
    List.filter (fits maxMediaLength) (fRtpInfo frame) <> [] ->
    reset s = false -> firstTimestamp s = 0 -> lastTime s = 0 ->
    firstTimestamp (fst (onMediaFrame zero now0 s)) = 0
    /\ lastTimestamp (fst (onMediaFrame frame now (fst (onMediaFrame zero now0 s))))
       = QWORD (baseTimestamp s)
    /\ firstTimestamp (fst (onMediaFrame frame now (fst (onMediaFrame zero now0 s))))
       = fTimeStamp frame.
Proof.
  intros zero now0 rate0 frame now rate s Hi0 Hr0 Hz Hinfo Hrate Hfit Hr Hf Ht.
  pose proof (BridgeFacts.onMediaFrame_lastTime maxMediaLength GetLayerIds beyond zero now0 s) as L0.
  rewrite (onMediaFrame_processed zero now0 rate0 s Hi0 Hr0) in *.
  destruct (entering_unstarted zero now0 rate0 s Hr Hf Ht) as (Eb0 & Ef0).
  destruct (entering_counters zero now0 rate0 s) as (_ & _ & _ & _ & _ & _ & _ & Er0).
  destruct (BridgeFacts.packetize_time maxMediaLength GetLayerIds beyond zero rate0
              (length (fRtpInfo zero)) (fRtpInfo zero) 0%nat (entering zero now0 rate0 s))
    as (_ & _ & B0 & F0).
  destruct (packetize_frame zero rate0 (length (fRtpInfo zero)) (fRtpInfo zero) 0%nat
              (entering zero now0 rate0 s)) as (_ & _ & _ & _ & _ & R0 & _).
  set (s1 := fst (packetize zero rate0 (length (fRtpInfo zero)) 0 (fRtpInfo zero)
                    (entering zero now0 rate0 s))) in *.
  assert (F1 : firstTimestamp s1 = 0) by (rewrite F0, Ef0; exact Hz).
  assert (B1 : baseTimestamp s1 = baseTimestamp s) by (rewrite B0; exact Eb0).
  assert (R1 : reset s1 = false) by (rewrite R0; exact Er0).
  assert (T1 : lastTime s1 = 0) by (rewrite L0; exact Ht).
  split; [exact F1|].
  rewrite (onMediaFrame_processed frame now rate s1 Hinfo Hrate).
  destruct (entering_unstarted frame now rate s1 R1 F1 T1) as (Eb & Ef).
  destruct (BridgeFacts.packetize_time maxMediaLength GetLayerIds beyond frame rate
              (length (fRtpInfo frame)) (fRtpInfo frame) 0%nat (entering frame now rate s1))
    as (L & _ & _ & F).
  pose proof (BridgeFacts.packetize_emits maxMediaLength GetLayerIds beyond frame rate
                (length (fRtpInfo frame)) (fRtpInfo frame) 0%nat
                (entering frame now rate s1) Hfit) as Hne.
  rewrite L, F, Eb, Ef, B1.
  destruct (snd _); [contradiction|].
  rewrite BridgeFacts.QWORD_self_diff, Z.add_0_r. split; reflexivity.
Qed.

Lemma onMediaFrame_counts frame now (s : Bridge) :
  numPackets (fst (onMediaFrame frame now s))
    = advance (numPackets s) (length (snd (onMediaFrame frame now s)))
  /\ listeners (fst (onMediaFrame frame now s)) = listeners s
  /\ ssrc (fst (onMediaFrame frame now s)) = ssrc s.
Proof.
  destruct (HasRtpPacketizationInfo frame) eqn:Hinfo.
  2: { unfold Bridge.onMediaFrame. rewrite Hinfo. cbn. repeat split. }
  destruct (rateOf (fType frame)) as [rate|] eqn:Hrate.
  2: { unfold Bridge.onMediaFrame. rewrite Hinfo, Hrate. cbn.
       destruct (reset s); repeat split. }
  rewrite (onMediaFrame_processed frame now rate s Hinfo Hrate).
  destruct (entering_counters frame now rate s) as (_ & En & Es & El & _).
  destruct (packetize_frame frame rate (length (fRtpInfo frame)) (fRtpInfo frame) 0%nat
              (entering frame now rate s)) as (P1 & P2 & P3 & _).
  rewrite P1, P2, P3, En, Es, El. repeat split.
Qed.

Lemma feed_counts : forall frames (s : Bridge),
  numPackets (fst (feed frames s))
    = advance (numPackets s) (length (snd (feed frames s)))
  /\ listeners (fst (feed frames s)) = listeners s
  /\ ssrc (fst (feed frames s)) = ssrc s.
Proof.
  induction frames as [|[frame now] frames IH]; intros s; [now cbn|].
  cbn [Bridge.feed].
  destruct (onMediaFrame_counts frame now s) as (E1 & E2 & E3).
  destruct (onMediaFrame frame now s) as [s1 out1]. cbn [fst snd] in E1, E2, E3.
  destruct (IH s1) as (I1 & I2 & I3).
  destruct (feed frames s1) as [s2 out2]. cbn [fst snd] in *.
  rewrite List.length_app, BridgeFacts.advance_add, I1, I2, I3, E1, E2, E3.
  repeat split.
Qed.

(** X7.  On a bridge built by the constructor, whatever frames it is fed,
    the sequence counter and the packet counter agree: both are the number
    of packets emitted so far, modulo 2^32.  The next packet is numbered
    with the count of the packets before it. *)
Theorem ext_seq_counts_packets :
  forall frames ssrc0 (acu0 : A),
    extSeqNum (fst (feed frames (create ssrc0 acu0)))
      = numPackets (fst (feed frames (create ssrc0 acu0)))
    /\ extSeqNum (fst (feed frames (create ssrc0 acu0)))
       = DWORD (Z.of_nat (length (snd (feed frames (create ssrc0 acu0))))).
Proof.
  intros frames ssrc0 acu0.
  destruct (feed_counts frames (create ssrc0 acu0)) as (E1 & _).
  destruct (BridgeFacts.feed_seq maxMediaLength GetLayerIds beyond frames (create ssrc0 acu0))
    as (_ & E2).
  rewrite E1, E2. cbn [numPackets extSeqNum create]. split; [reflexivity|].
  rewrite BridgeFacts.advance_closed.
  destruct (length _); cbn [Nat.eqb]; reflexivity.
Qed.

Lemma fanout_In l p (s : Bridge) out :
  In (l, p) (fanout s out) <-> In p out /\ l ∈ listeners s.
Proof.
  unfold fanout. rewrite List.in_flat_map. split.
  - intros (p' & Hp' & Hin). apply List.in_map_iff in Hin.
    destruct Hin as (l' & Heq & Hl'). injection Heq as -> ->.
    split; [exact Hp'|]. apply elem_of_elements, list_elem_of_In. exact Hl'.
  - intros (Hp & Hl). exists p. split; [exact Hp|].
    apply List.in_map_iff. exists l. split; [reflexivity|].
    apply list_elem_of_In, elem_of_elements. exact Hl.
Qed.

Lemma fanout_length (s : Bridge) out :
  length (fanout s out) = (length out * size (listeners s))%nat.
Proof.
  unfold fanout. induction out as [|p out IH]; [reflexivity|].
  cbn [flat_map length]. rewrite List.length_app, List.length_map, IH.
  unfold size, set_size. cbn. lia.
Qed.

(** X8.  Every emitted packet is handed once to each registered listener.
    A listener that has been added gets every packet, a listener that has
    been removed gets none, and feeding a frame does not change who is
    registered. *)
Theorem listeners_get_every_packet :
  forall l p frame now (s : Bridge),
    In p (snd (onMediaFrame frame now s)) ->
    In (l, p) (fanout (AddListener l s) (snd (onMediaFrame frame now s)))
    /\ ~ In (l, p) (fanout (RemoveListener l s) (snd (onMediaFrame frame now s)))
    /\ length (fanout s (snd (onMediaFrame frame now s)))
       = (length (snd (onMediaFrame frame now s)) * size (listeners s))%nat
    /\ listeners (fst (onMediaFrame frame now s)) = listeners s.
Proof.
  intros l p frame now s Hp. split; [|split; [|split]].
  - apply fanout_In. split; [exact Hp|].
    unfold AddListener. cbn. set_solver.
  - intros Hin. apply fanout_In in Hin. destruct Hin as (_ & Hl).
    unfold RemoveListener in Hl. cbn in Hl. apply elem_of_difference in Hl.
    destruct Hl as (_ & Hl). apply Hl. now apply elem_of_singleton.
  - apply fanout_length.
  - apply onMediaFrame_counts.
Qed.

End WithCollaborators.

End BridgeMore.

(** ** More on the event loop *)

Module LoopMore.

Import EventLoop Props Props2.

Section WithWorld.

Context {World : Type}.
Variable clock : nat -> Z.

Local Abbreviation Loop := (EventLoop (World := World)).

(** *** The backpressure state *)

Lemma Send_state_cases caller send (l : Loop) :
  state l <> Normal ->
  state (Send caller send l) <> Normal
  /\ (Z.of_nat (length (sending l)) < MaxSendingQueueSize / 4 ->
      state (Send caller send l) = Lagging).
Proof.
  intros Hst. unfold Send.
  destruct (Z.of_nat (length (sending l)) >? MaxSendingQueueSize) eqn:Hbig.
  - split.
    + destruct (state l) eqn:Est; cbn; congruence.
    + intros Hlow. rewrite Z.gtb_ltb in Hbig. apply Z.ltb_lt in Hbig.
      assert (MaxSendingQueueSize / 4 <= MaxSendingQueueSize) by (vm_compute; congruence).
      lia.
  - rewrite EventLoopFacts.Signal_state.
    assert (Hn : eqb_state (state l) Normal = false)
      by (destruct (state l); [contradiction|reflexivity..]).
    rewrite Hn, andb_false_r. cbn [negb]. rewrite andb_true_r.
    destruct (Z.of_nat (length (sending l)) <? MaxSendingQueueSize / 4) eqn:Hlow; cbn.
    + split; [discriminate|reflexivity].
    + split; [exact Hst|]. intros Hlt. apply Z.ltb_ge in Hlow. lia.
Qed.

(** X9.  Send never brings the loop back to state Normal: once the loop is
    Lagging or Overflown it stays so through any number of calls of Send,
    and the call that finds the queue below a quarter of the threshold sets
    the state to Lagging, not to Normal. *)
Theorem Send_never_returns_to_Normal :
  forall caller sends send (l : Loop),
    state l <> Normal ->
    state (sendMany caller sends l) <> Normal
    /\ (Z.of_nat (length (sending (sendMany caller sends l))) < MaxSendingQueueSize / 4 ->
        state (Send caller send (sendMany caller sends l)) = Lagging).
Proof.
  intros caller sends send l Hst.
  assert (Hmany : state (sendMany caller sends l) <> Normal).
  { revert l Hst. induction sends as [|e sends IH]; intros l Hst; [exact Hst|].
    cbn [sendMany fold_left]. apply IH. apply Send_state_cases. exact Hst. }
  split; [exact Hmany|]. apply Send_state_cases. exact Hmany.
Qed.

Lemma firstn_succ_cons {T : Type} (n : nat) (x : T) (xs : list T) :
  (0 < n)%nat -> firstn n (x :: xs) = x :: firstn (n - 1) xs.
Proof. intros Hn. destruct n as [|n]; [lia|]. simpl. now rewrite Nat.sub_0_r. Qed.

Lemma sendMany_sending caller (cap : nat) :
  Z.of_nat cap = MaxSendingQueueSize + 1 ->
  forall sends (l : Loop),
    (length (sending l) <= cap)%nat ->
    sending (sendMany caller sends l)
      = sending l ++ firstn (cap - length (sending l)) sends.
Proof.
  intros Hcap. induction sends as [|e sends IH]; intros l Hlen.
  - cbn. now rewrite List.firstn_nil, List.app_nil_r.
  - cbn [sendMany fold_left].
    destruct (Nat.eq_dec (length (sending l)) cap) as [Hfull|Hroom].
    + destruct (EventLoopFacts.Send_above caller e l) as (Hsame & _); [lia|].
      fold (sendMany caller sends (Send caller e l)).
      rewrite IH by (rewrite Hsame; exact Hlen).
      rewrite Hsame, Hfull, Nat.sub_diag. reflexivity.
    + assert (Hbelow : sending (Send caller e l) = sending l ++ [e])
        by (apply EventLoopFacts.Send_below; lia).
      fold (sendMany caller sends (Send caller e l)).
      rewrite IH by (rewrite Hbelow, List.length_app; cbn [length]; lia).
      rewrite Hbelow, List.length_app. cbn [length].
      rewrite firstn_succ_cons by lia. rewrite <- List.app_assoc. cbn [app].
      do 3 f_equal. lia.
Qed.

Lemma sendMany_overflown caller (cap : nat) :
  Z.of_nat cap = MaxSendingQueueSize + 1 ->
  forall sends (l : Loop),
    (length (sending l) <= cap)%nat ->
    (cap < length (sending l) + length sends)%nat ->
    state (sendMany caller sends l) = Overflown.
Proof.
  intros Hcap. induction sends as [|e sends IH]; intros l Hlen Hover.
  - cbn [length] in Hover. lia.
  - cbn [sendMany fold_left]. fold (sendMany caller sends (Send caller e l)).
    destruct (Nat.eq_dec (length (sending l)) cap) as [Hfull|Hroom].
    + destruct (EventLoopFacts.Send_above caller e l) as (Hsame & Hst); [lia|].
      destruct sends as [|e' sends]; [exact Hst|].
      apply IH; rewrite Hsame; [exact Hlen|]. cbn [length]. lia.
    + assert (Hbelow : sending (Send caller e l) = sending l ++ [e])
        by (apply EventLoopFacts.Send_below; lia).
      cbn [length] in Hover.
      apply IH; rewrite Hbelow, List.length_app; cbn [length]; lia.
Qed.

(** X10.  Sends into a loop that does not drain its queue: starting from an
    empty queue the first H + 1 = 16385 packets are kept, in the order of
    the calls, and every later one is dropped; as soon as one has been
    dropped the loop is Overflown. *)
Theorem stalled_loop_keeps_first_packets :
  forall caller sends (l : Loop),
    sending l = [] ->
    sending (sendMany caller sends l)
      = firstn (Z.to_nat (MaxSendingQueueSize + 1)) sends
    /\ (MaxSendingQueueSize + 1 < Z.of_nat (length sends) ->
        state (sendMany caller sends l) = Overflown).
Proof.
  intros caller sends l Hempty.
  assert (Hcap : exists cap, cap = Z.to_nat (MaxSendingQueueSize + 1)
                             /\ Z.of_nat cap = MaxSendingQueueSize + 1).
  { eexists. split; [reflexivity|]. apply Z2Nat.id. vm_compute. congruence. }
  destruct Hcap as (cap & Hdef & Hcap). rewrite <- Hdef. clear Hdef.
  split.
  - rewrite (sendMany_sending caller cap Hcap) by (rewrite Hempty; cbn; lia).
    rewrite Hempty. cbn [length app]. now rewrite Nat.sub_0_r.
  - intros Hmany. apply (sendMany_overflown caller cap Hcap).
    + rewrite Hempty. cbn. lia.
    + rewrite Hempty. cbn [length]. lia.
Qed.

(** *** Signal *)

Lemma Signal_signaled_noop caller (l : Loop) :
  signaled l = true -> Signal caller l = l.
Proof. intros Hs. unfold Signal. rewrite Hs, orb_true_r. reflexivity. Qed.

Lemma Signal_writes caller (l : Loop) :
  (pipeWrites (Signal caller l) <= S (pipeWrites l))%nat
  /\ (pipeWrites (Signal caller l) = S (pipeWrites l) -> signaled (Signal caller l) = true)
  /\ (pipeWrites l <= pipeWrites (Signal caller l))%nat.
Proof.
  unfold Signal. destruct (onLoopThread caller l || signaled l); cbn.
  - repeat split; try lia.
  - repeat split; lia.
Qed.

(** X11.  Signal coalesces: however many times and by whomever it is called
    before the loop clears the flag, at most one write goes to the
    signalling descriptor, and none at all when the loop is already
    signalled. *)
Theorem Signal_writes_at_most_once :
  forall callers (l : Loop),
    (pipeWrites (signalMany callers l) <= S (pipeWrites l))%nat
    /\ (signaled l = true -> signalMany callers l = l).
Proof.
  intros callers l. split.
  - revert l. induction callers as [|c callers IH]; intros l; [cbn; lia|].
    cbn [signalMany fold_left]. fold (signalMany callers (Signal c l)).
    destruct (Signal_writes c l) as (Hle & Hset & _).
    destruct (Nat.eq_dec (pipeWrites (Signal c l)) (S (pipeWrites l))) as [Hw|Hw].
    + assert (Hnoop : forall cs (l' : Loop), signaled l' = true -> signalMany cs l' = l').
      { induction cs as [|c' cs IHcs]; intros l' Hs; [reflexivity|].
        cbn [signalMany fold_left]. rewrite (Signal_signaled_noop c' l' Hs).
        apply IHcs. exact Hs. }
      rewrite (Hnoop callers _ (Hset Hw)). exact Hle.
    + specialize (IH (Signal c l)). lia.
  - revert l. induction callers as [|c callers IH]; intros l Hs; [reflexivity|].
    cbn [signalMany fold_left]. rewrite (Signal_signaled_noop c l Hs).
    apply IH. exact Hs.
Qed.

(** *** Async *)

Lemma asyncMany_other : forall ts (l : Loop),
  tasks (asyncMany OtherThread ts l) = tasks l ++ ts
  /\ history (asyncMany OtherThread ts l) = history l
  /\ world (asyncMany OtherThread ts l) = world l
  /\ now (asyncMany OtherThread ts l) = now l.
Proof.
  induction ts as [|t ts IH]; intros l.
  - cbn. now rewrite List.app_nil_r.
  - cbn [asyncMany fold_left]. fold (asyncMany OtherThread ts (Async OtherThread t l)).
    destruct (IH (Async OtherThread t l)) as (E1 & E2 & E3 & E4).
    rewrite E1, E2, E3, E4. unfold Async. cbn [onLoopThread negb].
    unfold Signal. cbn [onLoopThread orb].
    destruct (signaled _); cbn; rewrite <- List.app_assoc; repeat split.
Qed.

Lemma drainTasks_world : forall queue (l : Loop),
  world (drainTasks queue l) = runAll (now l) queue (world l)
  /\ now (drainTasks queue l) = now l.
Proof.
  induction queue as [|t queue IH]; intros l; [now cbn|].
  cbn [drainTasks].
  match goal with |- context [drainTasks queue ?l1] => destruct (IH l1) as (E1 & E2) end.
  rewrite E1, E2. cbn. split; reflexivity.
Qed.

(** X12.  Tasks handed to Async from another thread are not run by the call:
    they join the queue behind the tasks already there.  The task phase of
    the loop then runs the whole queue in that order, resolves each
    completion signal right after its task and before the next task starts,
    lets each task see the world its predecessors left, and empties the
    queue. *)
Theorem Async_tasks_run_in_queue_order :
  forall ts (l : Loop),
    tasks (asyncMany OtherThread ts l) = tasks l ++ ts
    /\ history (asyncMany OtherThread ts l) = history l
    /\ world (asyncMany OtherThread ts l) = world l
    /\ history (drainTasks (tasks (asyncMany OtherThread ts l))
                  (asyncMany OtherThread ts l))
       = history l ++ completions (tasks l ++ ts)
    /\ world (drainTasks (tasks (asyncMany OtherThread ts l))
                (asyncMany OtherThread ts l))
       = runAll (now l) (tasks l ++ ts) (world l)
    /\ tasks (drainTasks (tasks (asyncMany OtherThread ts l))
                (asyncMany OtherThread ts l)) = [].
Proof.
  intros ts l.
  destruct (asyncMany_other ts l) as (E1 & E2 & E3 & E4).
  destruct (EventLoopFacts.drainTasks_spec (tasks (asyncMany OtherThread ts l))
              (asyncMany OtherThread ts l)) as (D1 & D2 & _).
  destruct (drainTasks_world (tasks (asyncMany OtherThread ts l))
              (asyncMany OtherThread ts l)) as (W1 & _).
  rewrite D1, D2, W1, E1, E2, E3, E4. repeat split.
Qed.

(** X13.  A task handed to Async on the loop thread is run by the call
    itself, with the cached time of the loop, and its completion signal is
    resolved at once: it overtakes the tasks that are waiting in the queue,
    which is left as it was, and nothing is written to the signalling
    descriptor. *)
Theorem Async_on_loop_thread_overtakes :
  forall t (l : Loop),
    worker l = InRun ->
    tasks (Async LoopThread t l) = tasks l
    /\ world (Async LoopThread t l) = func t (now l) (world l)
    /\ pipeWrites (Async LoopThread t l) = pipeWrites l
    /\ history (Async LoopThread t l)
       = history l ++ [Executed (promise t); Resolved (promise t)]
    /\ history (drainTasks (tasks (Async LoopThread t l)) (Async LoopThread t l))
       = history l ++ completions (t :: tasks l).
Proof.
  intros t l Hw.
  assert (E : Async LoopThread t l = runTask (now l) t l).
  { unfold Async, onLoopThread. rewrite Hw. reflexivity. }
  rewrite E.
  destruct (EventLoopFacts.drainTasks_spec (tasks (runTask (now l) t l))
              (runTask (now l) t l)) as (_ & D2 & _).
  rewrite D2. cbn. rewrite <- List.app_assoc. repeat split.
Qed.

(** *** Start and Stop *)

(** X14.  The life cycle.  Start on a loop without worker succeeds and
    leaves it running; a second Start fails and changes nothing.  When the
    signalled flag was clear at Start, or when [poll] returns for a reason of
    its own, Stop on the running loop returns true and leaves the loop
    without worker and not running; a second Stop fails and changes nothing;
    and the stopped loop can be started again.  When the signalled flag was
    set at Start (Start does not clear it and makes a signalling descriptor
    with nothing to read), the signal of Stop writes nothing: a worker that
    [poll] keeps blocked is never woken and Stop does not return. *)
Theorem Start_and_Stop_life_cycle :
  forall poll (l : Loop),
    worker l = NotStarted ->
    fst (Start l) = true
    /\ running (snd (Start l)) = true
    /\ Start (snd (Start l)) = (false, snd (Start l))
    /\ (signaled l = false \/ poll <> PollBlocked ->
        exists l2,
          Stop clock poll (snd (Start l)) = Some (true, l2)
          /\ running l2 = false
          /\ worker l2 = NotStarted
          /\ pipeOpen l2 = false
          /\ Stop clock poll l2 = Some (false, l2)
          /\ fst (Start l2) = true)
    /\ (signaled l = true -> Stop clock PollBlocked (snd (Start l)) = None).
Proof.
  intros poll l Hw.
  assert (ES : Start l
               = (true, set_worker InRun
                          (set_running true (set_pipeWrites 0 (set_pipeOpen true l))))).
  { unfold Start. rewrite Hw. reflexivity. }
  rewrite ES. cbn [fst snd].
  set (l1 := set_worker InRun (set_running true (set_pipeWrites 0 (set_pipeOpen true l)))).
  split; [reflexivity|]. split; [reflexivity|]. split; [reflexivity|]. split.
  - intros Hwake.
    destruct (EventLoopFacts.Stop_drains_when_worker_leaves_poll clock poll l1)
      as (l2 & E & _ & _ & P3 & P4 & P5 & _); try reflexivity.
    { destruct Hwake as [Hs|Hp]; [right; left; exact Hs | left; exact Hp]. }
    exists l2. split; [exact E|]. split; [exact P3|]. split; [exact P4|].
    split; [exact P5|]. split.
    + apply EventLoopFacts.Stop_when_not_running. exact P3.
    + unfold Start. rewrite P4. reflexivity.
  - intros Hs. apply EventLoopFacts.Stop_blocks_when_signal_is_stale; try reflexivity.
    exact Hs.
Qed.

(** *** The write phase *)

Lemma sendAll_first_failure net : forall k queue k0 item e,
  (forall j, (j < k)%nat -> failed (net (k0 + j)%nat) = false) ->
  failed (net (k0 + k)%nat) = true ->
  nth_error (item :: queue) k = Some e ->
  sendAll Normal net k0 item queue
    = ((if again (net (k0 + k)%nat) then Some e else None),
       skipn (S k) (item :: queue), firstn k (item :: queue)).
Proof.
  induction k as [|k IH]; intros queue k0 item e Hok Hfail Hnth.
  - rewrite Nat.add_0_r in *. cbn in Hnth. injection Hnth as <-.
    destruct queue; cbn [sendAll]; rewrite Hfail; reflexivity.
  - assert (H0 : failed (net k0) = false).
    { specialize (Hok 0%nat ltac:(lia)). now rewrite Nat.add_0_r in Hok. }
    destruct queue as [|next queue]; [destruct k; discriminate Hnth|].
    cbn [nth_error] in Hnth.
    cbn [sendAll]. rewrite H0. cbn [andb].
    rewrite (IH queue (S k0) next e).
    + replace (S k0 + k)%nat with (k0 + S k)%nat by lia. reflexivity.
    + intros j Hj. replace (S k0 + j)%nat with (k0 + S j)%nat by lia. apply Hok. lia.
    + replace (S k0 + k)%nat with (k0 + S k)%nat by lia. exact Hfail.
    + exact Hnth.
Qed.

Lemma sendAll_no_failure st net : forall queue k0 item,
  (forall j, (j < length (item :: queue))%nat -> failed (net (k0 + j)%nat) = false) ->
  sendAll st net k0 item queue = (None, [], item :: queue).
Proof.
  induction queue as [|next queue IH]; intros k0 item Hok.
  - cbn [sendAll]. specialize (Hok 0%nat ltac:(cbn; lia)).
    rewrite Nat.add_0_r in Hok. rewrite Hok. reflexivity.
  - cbn [sendAll]. pose proof (Hok 0%nat ltac:(cbn; lia)) as H0.
    rewrite Nat.add_0_r in H0. rewrite H0. cbn [andb].
    rewrite IH; [reflexivity|].
    intros j Hj. replace (S k0 + j)%nat with (k0 + S j)%nat by lia.
    apply Hok. cbn [length] in *. lia.
Qed.

(** X15.  In state Normal the write phase hands the entries to [sendto] in
    order, the pending one first and then the queue, and stops at the first
    call that fails.  The entries before it have left, in order; the entries
    behind it stay in the queue; the entry whose [sendto] failed is kept as
    the pending one when the error is EAGAIN or EWOULDBLOCK and is lost on
    any other error.  When none of the calls fails, every entry leaves and
    nothing stays pending or queued. *)
Theorem write_phase_Normal_stops_at_first_failure :
  forall net pending queue,
    (forall k e,
        (forall j, (j < k)%nat -> failed (net j) = false) ->
        failed (net k) = true ->
        nth_error (entriesOf pending queue) k = Some e ->
        writePhase Normal net pending queue
        = ((if again (net k) then Some e else None),
           skipn (S k) (entriesOf pending queue),
           firstn k (entriesOf pending queue)))
    /\ ((forall j, (j < length (entriesOf pending queue))%nat -> failed (net j) = false) ->
        writePhase Normal net pending queue = (None, [], entriesOf pending queue)).
Proof.
  intros net pending queue. unfold writePhase. split.
  - intros k e Hok Hfail Hnth.
    destruct pending as [item|]; cbn [entriesOf] in *.
    + exact (sendAll_first_failure net k queue 0%nat item e Hok Hfail Hnth).
    + destruct queue as [|item queue]; [destruct k; discriminate Hnth|].
      exact (sendAll_first_failure net k queue 0%nat item e Hok Hfail Hnth).
  - intros Hok. destruct pending as [item|]; cbn [entriesOf] in *.
    + exact (sendAll_no_failure Normal net queue 0%nat item Hok).
    + destruct queue as [|item queue]; [reflexivity|].
      exact (sendAll_no_failure Normal net queue 0%nat item Hok).
Qed.

Lemma sendAll_pressed net st : st <> Normal -> forall queue k item,
  sendAll st net k item queue = (None, [], keepSent net k (item :: queue)).
Proof.
  intros Hst.
  assert (Hn : eqb_state st Normal = false) by (destruct st; [contradiction|reflexivity..]).
  induction queue as [|next queue IH]; intros k item.
  - cbn [sendAll keepSent]. rewrite Hn, andb_false_r, List.app_nil_r. reflexivity.
  - cbn [sendAll]. rewrite Hn, andb_false_r, IH. reflexivity.
Qed.

(** X16.  In state Lagging or Overflown the write phase always empties the
    queue: every entry is tried once, those whose [sendto] succeeds leave in
    queue order, those whose [sendto] fails -- with whatever error -- are
    dropped, and nothing is left pending. *)
Theorem write_phase_under_pressure_empties_queue :
  forall st net pending queue,
    st <> Normal ->
    writePhase st net pending queue
      = (None, [], keepSent net 0 (entriesOf pending queue)).
Proof.
  intros st net pending queue Hst. unfold writePhase.
  destruct pending as [item|]; cbn [entriesOf].
  - apply sendAll_pressed. exact Hst.
  - destruct queue as [|item queue]; [reflexivity|].
    apply sendAll_pressed. exact Hst.
Qed.

Lemma sendAll_all_sent st net :
  (forall k, failed (net k) = false) -> forall queue k item,
  sendAll st net k item queue = (None, [], item :: queue).
Proof.
  intros Hok. induction queue as [|next queue IH]; intros k item.
  - cbn [sendAll]. rewrite Hok. reflexivity.
  - cbn [sendAll]. rewrite Hok, IH. reflexivity.
Qed.

(** X17.  When no [sendto] fails, the write phase sends everything, the
    pending entry first and then the queue in its order, and leaves nothing
    pending and nothing queued, in every state. *)
Theorem write_phase_sends_all_when_nothing_fails :
  forall st net pending queue,
    (forall k, failed (net k) = false) ->
    writePhase st net pending queue = (None, [], entriesOf pending queue).
Proof.
  intros st net pending queue Hok. unfold writePhase.
  destruct pending as [item|]; cbn [entriesOf].
  - apply sendAll_all_sent. exact Hok.
  - destruct queue as [|item queue]; [reflexivity|].
    apply sendAll_all_sent. exact Hok.
Qed.

End WithWorld.

End LoopMore.

(** ** Timers *)

Module TimerFacts.

Import Timers.

Section WithWorld.

Context {World : Type}.

Local Abbreviation Loop := (TimerLoop (World := World)).
Local Abbreviation Timer := (TimerImpl (World := World)).
Local Abbreviation byKey := (fun a b : Z * nat => fst a <= fst b).

(** *** The table *)

Lemma emplace_In k h table e :
  In e (emplace k h table) <-> e = (k, h) \/ In e table.
Proof.
  induction table as [|[k' h'] rest IH]; cbn [emplace].
  - cbn. intuition.
  - destruct (k' <=? k); cbn [In]; [rewrite IH|]; intuition.
Qed.

Lemma emplace_sorted k h table :
  StronglySorted byKey table -> StronglySorted byKey (emplace k h table).
Proof.
  induction table as [|[k' h'] rest IH]; intros Hs; cbn [emplace].
  - repeat constructor.
  - apply StronglySorted_inv in Hs. destruct Hs as (Hrest & Hall).
    destruct (k' <=? k) eqn:Hle.
    + constructor; [apply IH; exact Hrest|].
      apply List.Forall_forall. intros e He. apply emplace_In in He.
      destruct He as [->|He].
      * cbn. apply Z.leb_le. exact Hle.
      * rewrite List.Forall_forall in Hall. apply Hall. exact He.
    + apply Z.leb_gt in Hle. constructor; [constructor; assumption|].
      constructor; [cbn; lia|].
      rewrite List.Forall_forall in Hall. apply List.Forall_forall.
      intros e He. specialize (Hall e He). cbn in *. lia.
Qed.

Lemma emplace_split k h table :
  StronglySorted byKey table ->
  exists before after,
    emplace k h table = before ++ (k, h) :: after
    /\ table = before ++ after
    /\ Forall (fun e => fst e <= k) before
    /\ Forall (fun e => k < fst e) after.
Proof.
  induction table as [|[k' h'] rest IH]; intros Hs; cbn [emplace].
  - exists [], []. split; [reflexivity|]. split; [reflexivity|]. split; constructor.
  - apply StronglySorted_inv in Hs. destruct Hs as (Hrest & Hall).
    destruct (k' <=? k) eqn:Hle.
    + destruct (IH Hrest) as (before & after & E1 & E2 & F1 & F2).
      exists ((k', h') :: before), after.
      split; [now rewrite E1|]. split; [now rewrite E2 at 1|]. split; [|exact F2].
      constructor; [cbn; apply Z.leb_le; exact Hle | exact F1].
    + apply Z.leb_gt in Hle. exists [], ((k', h') :: rest).
      split; [reflexivity|]. split; [reflexivity|]. split; [constructor|].
      constructor; [cbn; lia|].
      rewrite List.Forall_forall in Hall. apply List.Forall_forall.
      intros e He. specialize (Hall e He). cbn in *. lia.
Qed.

Lemma emplace_handles k h table :
  ~ In h (List.map snd table) -> List.NoDup (List.map snd table) ->
  List.NoDup (List.map snd (emplace k h table)).
Proof.
  induction table as [|[k' h'] rest IH]; intros Hnew Hnd; cbn [emplace].
  - cbn. constructor; [intros []|constructor].
  - cbn [List.map snd] in Hnew, Hnd. apply List.NoDup_cons_iff in Hnd.
    destruct Hnd as (Hh' & Hnd).
    destruct (k' <=? k); cbn [List.map snd].
    + apply List.NoDup_cons.
      * intros Hin. apply List.in_map_iff in Hin. destruct Hin as ([k0 h0] & Heq & Hin).
        cbn in Heq. subst h0. apply emplace_In in Hin. destruct Hin as [Heq|Hin].
        -- injection Heq as _ ->. apply Hnew. now left.
        -- apply Hh'. apply List.in_map_iff. exists (k0, h'). now split.
      * apply IH; [|exact Hnd]. intros Hin. apply Hnew. now right.
    + apply List.NoDup_cons; [exact Hnew|]. apply List.NoDup_cons; assumption.
Qed.

Lemma eraseOne_sub k h table e : In e (eraseOne k h table) -> In e table.
Proof.
  induction table as [|[k' h'] rest IH]; cbn [eraseOne]; [intros []|].
  destruct ((k' =? k) && Nat.eqb h' h); cbn [In]; intuition.
Qed.

Lemma eraseOne_absent k h table : ~ In (k, h) table -> eraseOne k h table = table.
Proof.
  induction table as [|[k' h'] rest IH]; intros Hno; cbn [eraseOne]; [reflexivity|].
  destruct ((k' =? k) && Nat.eqb h' h) eqn:Heq.
  - apply andb_true_iff in Heq. destruct Heq as (Hk & Hh).
    apply Z.eqb_eq in Hk. apply Nat.eqb_eq in Hh. subst. exfalso. apply Hno. now left.
  - f_equal. apply IH. intros Hin. apply Hno. now right.
Qed.

Lemma eraseOne_In k h table :
  List.NoDup (List.map snd table) -> In (k, h) table ->
  forall e, In e (eraseOne k h table) <-> In e table /\ snd e <> h.
Proof.
  induction table as [|[k' h'] rest IH]; intros Hnd Hin e; [destruct Hin|].
  cbn [List.map snd] in Hnd. apply List.NoDup_cons_iff in Hnd. destruct Hnd as (Hh' & Hnd).
  cbn [eraseOne]. destruct ((k' =? k) && Nat.eqb h' h) eqn:Heq.
  - apply andb_true_iff in Heq. destruct Heq as (Hk & Hh).
    apply Z.eqb_eq in Hk. apply Nat.eqb_eq in Hh. subst k' h'. split.
    + intros He. split; [now right|]. intros <-. apply Hh'.
      apply List.in_map_iff. exists e. now split.
    + intros ([<-|He] & Hne); [now contradiction Hne | exact He].
  - assert (Hrest : In (k, h) rest).
    { destruct Hin as [Hhead|Hin]; [|exact Hin]. injection Hhead as -> ->.
      rewrite Z.eqb_refl, Nat.eqb_refl in Heq. discriminate Heq. }
    assert (Hne : h' <> h).
    { intros ->. apply Hh'. apply List.in_map_iff. exists (k, h). now split. }
    cbn [In]. rewrite (IH Hnd Hrest e). split.
    + intros [<-|(He & Hs)]; [split; [now left|exact Hne] | split; [now right|exact Hs]].
    + intros ([<-|He] & Hs); [now left | right; now split].
Qed.

Lemma eraseOne_sorted k h table :
  StronglySorted byKey table -> StronglySorted byKey (eraseOne k h table).
Proof.
  induction table as [|[k' h'] rest IH]; intros Hs; cbn [eraseOne]; [constructor|].
  apply StronglySorted_inv in Hs. destruct Hs as (Hrest & Hall).
  destruct ((k' =? k) && Nat.eqb h' h); [exact Hrest|].
  constructor; [apply IH; exact Hrest|].
  rewrite List.Forall_forall in Hall. apply List.Forall_forall.
  intros e He. apply Hall. exact (eraseOne_sub _ _ _ _ He).
Qed.

Lemma eraseOne_handles k h table :
  List.NoDup (List.map snd table) -> List.NoDup (List.map snd (eraseOne k h table)).
Proof.
  induction table as [|[k' h'] rest IH]; intros Hnd; cbn [eraseOne]; [constructor|].
  cbn [List.map snd] in Hnd. apply List.NoDup_cons_iff in Hnd. destruct Hnd as (Hh' & Hnd).
  destruct ((k' =? k) && Nat.eqb h' h); [exact Hnd|].
  cbn [List.map snd]. apply List.NoDup_cons; [|apply IH; exact Hnd].
  intros Hin. apply Hh'. apply List.in_map_iff in Hin. destruct Hin as (e & Hs & He).
  apply List.in_map_iff. exists e. split; [exact Hs|]. exact (eraseOne_sub _ _ _ _ He).
Qed.

(** *** Cancelling and scheduling *)

Lemma unscheduled_absent (l : Loop) h (t : Timer) :
  consistent l -> heap l !! h = Some t -> tNext t = 0 ->
  forall k, ~ In (k, h) (timers l).
Proof.
  intros (_ & _ & Hentry & _) Hh Hz k Hin.
  destruct (Hentry k h Hin) as (t' & Ht' & Hk & Hne).
  rewrite Hh in Ht'. injection Ht' as <-. lia.
Qed.

Lemma CancelTimer_spec h (t : Timer) (l : Loop) :
  consistent l -> heap l !! h = Some t ->
  consistent (CancelTimer h l)
  /\ (forall k, ~ In (k, h) (timers (CancelTimer h l)))
  /\ heap (CancelTimer h l) !! h = Some (set_tNext 0 (set_tRepeat 0 t))
  /\ (forall k h', h' <> h ->
        In (k, h') (timers (CancelTimer h l)) <-> In (k, h') (timers l))
  /\ (forall h', h' <> h -> heap (CancelTimer h l) !! h' = heap l !! h')
  /\ tnow (CancelTimer h l) = tnow l.
Proof.
  intros Hc Hh. pose proof Hc as (Hsorted & Hnd & Hentry & Hsched).
  unfold CancelTimer. rewrite Hh. cbn [tNext set_tRepeat].
  destruct (tNext t =? 0) eqn:Hz.
  - apply Z.eqb_eq in Hz.
    pose proof (unscheduled_absent l h t Hc Hh Hz) as Habs.
    cbn [timers heap tnow set_heap].
    split; [|split; [exact Habs|split; [|split; [|split]]]].
    + split; [exact Hsorted|]. split; [exact Hnd|]. cbn [timers heap set_heap]. split.
      * intros k h' Hin. destruct (Nat.eq_dec h' h) as [->|Hne].
        -- exfalso. exact (Habs k Hin).
        -- rewrite lookup_insert_ne by congruence. exact (Hentry k h' Hin).
      * intros h' t' Hh' Hn. destruct (Nat.eq_dec h' h) as [->|Hne].
        -- rewrite lookup_insert_eq in Hh'. injection Hh' as <-. cbn in Hn. lia.
        -- rewrite lookup_insert_ne in Hh' by congruence. exact (Hsched h' t' Hh' Hn).
    + rewrite lookup_insert_eq. f_equal. unfold set_tNext, set_tRepeat. cbn.
      now rewrite Hz.
    + intros k h' _. reflexivity.
    + intros h' Hne. apply lookup_insert_ne. congruence.
    + reflexivity.
  - apply Z.eqb_neq in Hz.
    pose proof (Hsched h t Hh Hz) as Hin.
    pose proof (eraseOne_In (tNext t) h (timers l) Hnd Hin) as Herase.
    cbn [timers heap tnow set_heap set_timers].
    split; [|split; [|split; [|split; [|split]]]].
    + split; [apply eraseOne_sorted; exact Hsorted|].
      split; [apply eraseOne_handles; exact Hnd|].
      cbn [timers heap set_heap set_timers]. split.
      * intros k h' Hk. apply Herase in Hk. destruct Hk as (Hk & Hne). cbn in Hne.
        rewrite lookup_insert_ne by congruence. exact (Hentry k h' Hk).
      * intros h' t' Hh' Hn. destruct (Nat.eq_dec h' h) as [->|Hne].
        -- rewrite lookup_insert_eq in Hh'. injection Hh' as <-. cbn in Hn. lia.
        -- rewrite lookup_insert_ne in Hh' by congruence.
           apply Herase. split; [exact (Hsched h' t' Hh' Hn) | exact Hne].
    + intros k Hk. apply Herase in Hk. destruct Hk as (_ & Hne). now apply Hne.
    + rewrite lookup_insert_eq. reflexivity.
    + intros k h' Hne. rewrite (Herase (k, h')). cbn. intuition.
    + intros h' Hne. apply lookup_insert_ne. congruence.
    + reflexivity.
Qed.

Lemma schedule_spec h (t : Timer) next (l : Loop) :
  consistent l -> heap l !! h = Some t -> tNext t = 0 -> next <> 0 ->
  consistent (schedule h next l)
  /\ heap (schedule h next l) !! h = Some (set_tNext next t)
  /\ (exists before after,
        timers (schedule h next l) = before ++ (next, h) :: after
        /\ timers l = before ++ after
        /\ Forall (fun e => fst e <= next) before
        /\ Forall (fun e => next < fst e) after)
  /\ (forall h', h' <> h -> heap (schedule h next l) !! h' = heap l !! h').
Proof.
  intros Hc Hh Hz Hnext. pose proof Hc as (Hsorted & Hnd & Hentry & Hsched).
  pose proof (unscheduled_absent l h t Hc Hh Hz) as Habs.
  unfold schedule. rewrite Hh. cbn [timers heap set_heap set_timers].
  split; [|split; [|split]].
  - split; [apply emplace_sorted; exact Hsorted|]. split.
    + apply emplace_handles; [|exact Hnd]. intros Hin.
      apply List.in_map_iff in Hin. destruct Hin as ([k h0] & Heq & Hin).
      cbn in Heq. subst h0. exact (Habs k Hin).
    + cbn [timers heap set_heap set_timers]. split.
      * intros k h' Hin. apply emplace_In in Hin. destruct Hin as [Heq|Hin].
        -- injection Heq as -> ->. rewrite lookup_insert_eq.
           eexists. split; [reflexivity|]. split; [reflexivity|exact Hnext].
        -- destruct (Nat.eq_dec h' h) as [->|Hne]; [exfalso; exact (Habs k Hin)|].
           rewrite lookup_insert_ne by congruence. exact (Hentry k h' Hin).
      * intros h' t' Hh' Hn. apply emplace_In.
        destruct (Nat.eq_dec h' h) as [->|Hne].
        -- rewrite lookup_insert_eq in Hh'. injection Hh' as <-. now left.
        -- rewrite lookup_insert_ne in Hh' by congruence. right.
           exact (Hsched h' t' Hh' Hn).
  - apply lookup_insert_eq.
  - apply emplace_split. exact Hsorted.
  - intros h' Hne. apply lookup_insert_ne. congruence.
Qed.

Lemma eraseOne_other k h table k' h' :
  h' <> h -> In (k', h') (eraseOne k h table) <-> In (k', h') table.
Proof.
  intros Hne. induction table as [|[k0 h0] rest IH]; cbn [eraseOne]; [reflexivity|].
  destruct ((k0 =? k) && Nat.eqb h0 h) eqn:Heq; cbn [In].
  - apply andb_true_iff in Heq. destruct Heq as (_ & Hh). apply Nat.eqb_eq in Hh.
    subst h0. split; [now right|]. intros [Heq|Hin]; [|exact Hin].
    injection Heq as _ Hh. now contradiction Hne.
  - rewrite IH. reflexivity.
Qed.

(** What [CancelTimer] does in every state. *)
Lemma CancelTimer_always h (t : Timer) (l : Loop) :
  heap l !! h = Some t ->
  heap (CancelTimer h l) !! h = Some (set_tNext 0 (set_tRepeat 0 t))
  /\ (forall h', h' <> h -> heap (CancelTimer h l) !! h' = heap l !! h')
  /\ (forall k h', h' <> h ->
        In (k, h') (timers (CancelTimer h l)) <-> In (k, h') (timers l))
  /\ (forall e, In e (timers (CancelTimer h l)) -> In e (timers l))
  /\ (tNext t = 0 -> timers (CancelTimer h l) = timers l)
  /\ tnow (CancelTimer h l) = tnow l.
Proof.
  intros Hh. unfold CancelTimer. rewrite Hh. cbn [tNext set_tRepeat].
  destruct (tNext t =? 0) eqn:Hz; cbn [timers heap tnow set_heap set_timers].
  - apply Z.eqb_eq in Hz. split; [|split; [|split; [|split; [|split]]]].
    + rewrite lookup_insert_eq. f_equal. unfold set_tNext, set_tRepeat. cbn.
      now rewrite Hz.
    + intros h' Hne. apply lookup_insert_ne. congruence.
    + intros k h' _. reflexivity.
    + intros e He. exact He.
    + intros _. reflexivity.
    + reflexivity.
  - apply Z.eqb_neq in Hz. split; [|split; [|split; [|split; [|split]]]].
    + apply lookup_insert_eq.
    + intros h' Hne. apply lookup_insert_ne. congruence.
    + intros k h' Hne. apply eraseOne_other. exact Hne.
    + intros e He. exact (eraseOne_sub _ _ _ _ He).
    + intros Hzero. contradiction.
    + reflexivity.
Qed.

(** X18.  [CancelTimer] always leaves the timer not repeating and with no
    fire time ([repeat] and [next] are 0), and touches no other timer: every
    other timer object and every entry of another timer in the table is as
    before.  When the table and the timer objects agree, it also takes the
    timer out of the table, and they still agree afterwards.  It decides by
    the [next] of the timer alone: when [next] is 0 the table is left as it
    is, also when the table holds the timer -- as it does after a callback
    has called Again on a timer that was due in the same timer phase; that
    entry stays and the cancelled timer still fires. *)
Theorem CancelTimer_unschedules :
  forall h (t : Timer) (l : Loop),
    heap l !! h = Some t ->
    (exists t', heap (Cancel h l) !! h = Some t'
                /\ tNext t' = 0 /\ tRepeat t' = 0 /\ tCallback t' = tCallback t)
    /\ (forall h', h' <> h -> heap (Cancel h l) !! h' = heap l !! h')
    /\ (forall k h', h' <> h ->
          In (k, h') (timers (Cancel h l)) <-> In (k, h') (timers l))
    /\ (consistent l ->
        consistent (Cancel h l) /\ forall k, ~ In (k, h) (timers (Cancel h l)))
    /\ (tNext t = 0 -> timers (Cancel h l) = timers l).
Proof.
  intros h t l Hh. unfold Cancel.
  destruct (CancelTimer_always h t l Hh) as (A1 & A2 & A3 & _ & A5 & _).
  split; [|split; [exact A2|split; [exact A3|split; [|exact A5]]]].
  - eexists. split; [exact A1|]. repeat split.
  - intros Hc. destruct (CancelTimer_spec h t l Hc Hh) as (C1 & C2 & _).
    split; assumption.
Qed.

(** X19.  Scheduling a timer that is not scheduled (the task of
    CreateTimer) puts it in the table at its fire time, behind every timer
    that fires at the same time or earlier and before every timer that fires
    later: timers with one fire time keep the order in which they were
    scheduled.  The rest of the table is as before, and table and timer
    objects still agree. *)
Theorem schedule_keeps_order :
  forall h (t : Timer) next (l : Loop),
    consistent l -> heap l !! h = Some t -> tNext t = 0 -> next <> 0 ->
    consistent (schedule h next l)
    /\ (exists t', heap (schedule h next l) !! h = Some t'
                   /\ tNext t' = next /\ tRepeat t' = tRepeat t)
    /\ (exists before after,
          timers (schedule h next l) = before ++ (next, h) :: after
          /\ timers l = before ++ after
          /\ Forall (fun e => fst e <= next) before
          /\ Forall (fun e => next < fst e) after).
Proof.
  intros h t next l Hc Hh Hz Hnext.
  destruct (schedule_spec h t next l Hc Hh Hz Hnext) as (S1 & S2 & S3 & _).
  split; [exact S1|]. split; [|exact S3].
  eexists. split; [exact S2|]. split; reflexivity.
Qed.

(** X20.  [Again] always leaves the timer with the cached time of the loop
    plus the delay as its fire time and with an entry at that time in the
    table, and it turns a repeating timer into a one-shot timer, because the
    cancellation it starts with clears [repeat]; no other timer is touched.
    When the table and the timer objects agree, that entry is the only one
    of the timer and they still agree afterwards.  When the [next] of the
    timer is 0 the cancellation leaves the table alone: an entry that the
    table still holds for the timer -- the state left by Again on a timer
    that was due in the same timer phase -- stays next to the new one. *)
Theorem Again_makes_one_shot :
  forall h (t : Timer) ms (l : Loop),
    heap l !! h = Some t ->
    (exists t', heap (Again h ms l) !! h = Some t'
                /\ tNext t' = tnow l + ms /\ tRepeat t' = 0
                /\ tCallback t' = tCallback t)
    /\ In (tnow l + ms, h) (timers (Again h ms l))
    /\ (forall h', h' <> h -> heap (Again h ms l) !! h' = heap l !! h')
    /\ (forall k h', h' <> h ->
          In (k, h') (timers (Again h ms l)) <-> In (k, h') (timers l))
    /\ (consistent l -> tnow l + ms <> 0 ->
        consistent (Again h ms l)
        /\ forall k, In (k, h) (timers (Again h ms l)) <-> k = tnow l + ms)
    /\ (tNext t = 0 ->
        forall k, In (k, h) (timers l) -> In (k, h) (timers (Again h ms l))).
Proof.
  intros h t ms l Hh. unfold Again.
  destruct (CancelTimer_always h t l Hh) as (A1 & A2 & A3 & _ & A5 & _).
  assert (ES : schedule h (tnow l + ms) (CancelTimer h l)
               = set_timers (emplace (tnow l + ms) h (timers (CancelTimer h l)))
                   (set_heap (<[h := set_tNext (tnow l + ms)
                                      (set_tNext 0 (set_tRepeat 0 t))]>
                                (heap (CancelTimer h l))) (CancelTimer h l))).
  { unfold schedule. rewrite A1. reflexivity. }
  split; [|split; [|split; [|split; [|split]]]].
  - rewrite ES. cbn [heap set_timers set_heap]. rewrite lookup_insert_eq.
    eexists. split; [reflexivity|]. repeat split.
  - rewrite ES. cbn [timers set_timers]. apply emplace_In. now left.
  - intros h' Hne. rewrite ES. cbn [heap set_timers set_heap].
    rewrite lookup_insert_ne by congruence. apply A2. exact Hne.
  - intros k h' Hne. rewrite ES. cbn [timers set_timers]. rewrite emplace_In.
    rewrite (A3 k h' Hne). split; [|now right].
    intros [Heq|Hin]; [|exact Hin]. injection Heq as _ Heq. now contradiction Hne.
  - intros Hc Hnext.
    destruct (CancelTimer_spec h t l Hc Hh) as (C1 & _ & C3 & _).
    destruct (schedule_spec h _ (tnow l + ms) (CancelTimer h l) C1 C3 eq_refl Hnext)
      as (S1 & S2 & _).
    split; [exact S1|].
    intros k. destruct S1 as (_ & _ & Hentry & Hsched). split.
    + intros Hin. destruct (Hentry k h Hin) as (t' & Ht' & Hk & _).
      rewrite S2 in Ht'. injection Ht' as <-. cbn in Hk. congruence.
    + intros ->. apply (Hsched h _ S2). cbn. exact Hnext.
  - intros Hz k Hin. rewrite ES. cbn [timers set_timers]. apply emplace_In. right.
    rewrite (A5 Hz). exact Hin.
Qed.

Lemma newTimer_spec rep cb (l : Loop) :
  consistent l ->
  (forall h, (handles l <= h)%nat -> heap l !! h = None) ->
  fst (newTimer rep cb l) = handles l
  /\ consistent (snd (newTimer rep cb l))
  /\ heap (snd (newTimer rep cb l)) !! handles l
     = Some {| tNext := 0; tRepeat := rep; tCallback := cb |}
  /\ timers (snd (newTimer rep cb l)) = timers l
  /\ (forall h', h' <> handles l -> heap (snd (newTimer rep cb l)) !! h' = heap l !! h')
  /\ handles (snd (newTimer rep cb l)) = S (handles l).
Proof.
  intros (Hsorted & Hnd & Hentry & Hsched) Hfresh.
  unfold newTimer. cbn [fst snd timers heap handles set_handles set_heap].
  split; [reflexivity|]. split; [|split; [apply lookup_insert_eq|split; [reflexivity|split]]].
  - split; [exact Hsorted|]. split; [exact Hnd|].
    cbn [timers heap set_handles set_heap]. split.
    + intros k h' Hin. destruct (Hentry k h' Hin) as (t' & Ht' & Hk).
      assert (Hne : handles l <> h').
      { intros <-. rewrite Hfresh in Ht' by lia. discriminate Ht'. }
      rewrite lookup_insert_ne by exact Hne. eexists. split; [exact Ht'|exact Hk].
    + intros h' t' Hh' Hn. destruct (Nat.eq_dec (handles l) h') as [<-|Hne].
      * rewrite lookup_insert_eq in Hh'. injection Hh' as <-. cbn in Hn. lia.
      * rewrite lookup_insert_ne in Hh' by exact Hne. exact (Hsched h' t' Hh' Hn).
  - intros h' Hne. apply lookup_insert_ne. congruence.
  - reflexivity.
Qed.

(** X21.  CreateTimer on the loop thread makes a timer with a handle no
    timer had before and schedules it at the cached time plus the delay,
    with the repeat interval and callback given.  The timers that existed
    keep their objects and their places in the table, and table and timer
    objects still agree. *)
Theorem CreateTimer_adds_a_timer :
  forall ms rep cb (l : Loop),
    consistent l ->
    (forall h, (handles l <= h)%nat -> heap l !! h = None) ->
    tnow l + ms <> 0 ->
    heap l !! fst (CreateTimer ms rep cb l) = None
    /\ consistent (snd (CreateTimer ms rep cb l))
    /\ heap (snd (CreateTimer ms rep cb l)) !! fst (CreateTimer ms rep cb l)
       = Some {| tNext := tnow l + ms; tRepeat := rep; tCallback := cb |}
    /\ In (tnow l + ms, fst (CreateTimer ms rep cb l))
         (timers (snd (CreateTimer ms rep cb l)))
    /\ (forall e, In e (timers l) -> In e (timers (snd (CreateTimer ms rep cb l))))
    /\ (forall h', h' <> fst (CreateTimer ms rep cb l) ->
          heap (snd (CreateTimer ms rep cb l)) !! h' = heap l !! h')
    /\ (forall h, (handles (snd (CreateTimer ms rep cb l)) <= h)%nat ->
          heap (snd (CreateTimer ms rep cb l)) !! h = None).
Proof.
  intros ms rep cb l Hc Hfresh Hnext.
  destruct (newTimer_spec rep cb l Hc Hfresh) as (N1 & N2 & N3 & N4 & N5 & N6).
  unfold CreateTimer.
  destruct (newTimer rep cb l) as [h l1] eqn:Enew. cbn [fst snd] in *. subst h.
  destruct (schedule_spec (handles l) _ (tnow l + ms) l1 N2 N3 eq_refl Hnext)
    as (S1 & S2 & (before & after & E1 & E2 & _) & S4).
  split; [apply Hfresh; lia|]. split; [exact S1|]. split; [exact S2|].
  split; [|split; [|split]].
  - rewrite E1. apply List.in_or_app. right. now left.
  - intros e He. rewrite <- N4, E2 in He. rewrite E1.
    apply List.in_app_or in He. apply List.in_or_app.
    destruct He as [He|He]; [now left | right; now right].
  - intros h' Hne. rewrite (S4 h' Hne). apply N5. exact Hne.
  - intros h Hh.
    assert (Hhandles : handles (schedule (handles l) (tnow l + ms) l1) = handles l1).
    { unfold schedule. destruct (heap l1 !! handles l); reflexivity. }
    rewrite Hhandles, N6 in Hh.
    rewrite (S4 h) by lia. rewrite (N5 h) by lia. apply Hfresh. lia.
Qed.

(** *** The timer phase *)

Lemma collect_spec now : forall table,
  StronglySorted byKey table ->
  exists due,
    table = due ++ snd (collect now table)
    /\ fst (collect now table) = List.map snd due
    /\ Forall (fun e => fst e <= now) due
    /\ Forall (fun e => now < fst e) (snd (collect now table)).
Proof.
  induction table as [|[k h] rest IH]; intros Hs.
  - exists []. cbn. repeat split; constructor.
  - apply StronglySorted_inv in Hs. destruct Hs as (Hrest & Hall).
    cbn [collect]. destruct (k >? now) eqn:Hk.
    + rewrite Z.gtb_ltb in Hk. apply Z.ltb_lt in Hk.
      exists []. cbn [fst snd app List.map].
      split; [reflexivity|]. split; [reflexivity|]. split; [constructor|].
      constructor; [cbn; exact Hk|].
      rewrite List.Forall_forall in Hall. apply List.Forall_forall.
      intros e He. specialize (Hall e He). cbn in *. lia.
    + rewrite Z.gtb_ltb in Hk. apply Z.ltb_ge in Hk.
      destruct (IH Hrest) as (due & E1 & E2 & F1 & F2).
      destruct (collect now rest) as [triggered remaining]. cbn [fst snd] in *.
      exists ((k, h) :: due). cbn [app List.map snd].
      split; [now rewrite E1 at 1|]. split; [now rewrite E2|].
      split; [constructor; [cbn; exact Hk | exact F1] | exact F2].
Qed.

Lemma filter_due now (due remaining : list (Z * nat)) :
  Forall (fun e => fst e <= now) due ->
  Forall (fun e => now < fst e) remaining ->
  List.filter (fun e => fst e <=? now) (due ++ remaining) = due.
Proof.
  intros Hd Hr. rewrite List.filter_app.
  assert (E1 : List.filter (fun e => fst e <=? now) due = due).
  { induction Hd as [|e due He Hd IH]; [reflexivity|].
    cbn [List.filter]. apply Z.leb_le in He. rewrite He, IH. reflexivity. }
  assert (E2 : List.filter (fun e => fst e <=? now) remaining = []).
  { induction Hr as [|e rem He Hr IH]; [reflexivity|].
    cbn [List.filter]. apply Z.leb_gt in He. rewrite He. exact IH. }
  rewrite E1, E2. apply List.app_nil_r.
Qed.

Lemma CancelTimer_keeps h (l : Loop) :
  fired (CancelTimer h l) = fired l
  /\ tnow (CancelTimer h l) = tnow l
  /\ (forall h', is_Some (heap l !! h') -> is_Some (heap (CancelTimer h l) !! h')).
Proof.
  unfold CancelTimer. destruct (heap l !! h) as [t|] eqn:Hh; [|now repeat split].
  destruct (tNext (set_tRepeat 0 t) =? 0); cbn; repeat split;
    intros h' Hs; apply lookup_insert_is_Some;
    (destruct (Nat.eq_dec h h') as [->|Hne]; [now left | right; split; assumption]).
Qed.

Lemma schedule_keeps h next (l : Loop) :
  fired (schedule h next l) = fired l
  /\ tnow (schedule h next l) = tnow l
  /\ (forall h', is_Some (heap l !! h') -> is_Some (heap (schedule h next l) !! h')).
Proof.
  unfold schedule. destruct (heap l !! h) as [t|] eqn:Hh; [|now repeat split].
  cbn. repeat split.
  intros h' Hs. apply lookup_insert_is_Some.
  destruct (Nat.eq_dec h h') as [->|Hne]; [now left | right; split; assumption].
Qed.

Lemma runCmds_keep : forall cmds (l : Loop),
  fired (fold_left runCmd cmds l) = fired l
  /\ tnow (fold_left runCmd cmds l) = tnow l
  /\ (forall h', is_Some (heap l !! h') -> is_Some (heap (fold_left runCmd cmds l) !! h')).
Proof.
  induction cmds as [|c cmds IH]; intros l; [now repeat split|].
  cbn [fold_left]. destruct (IH (runCmd l c)) as (I1 & I2 & I3).
  assert (Hstep : fired (runCmd l c) = fired l
                  /\ tnow (runCmd l c) = tnow l
                  /\ (forall h', is_Some (heap l !! h') ->
                                 is_Some (heap (runCmd l c) !! h'))).
  { destruct c as [h|h ms]; cbn [runCmd]; unfold Cancel, Again.
    - apply CancelTimer_keeps.
    - destruct (CancelTimer_keeps h l) as (C1 & C2 & C3).
      destruct (schedule_keeps h (tnow l + ms) (CancelTimer h l)) as (S1 & S2 & S3).
      rewrite S1, S2, C1, C2. repeat split. intros h' Hs. apply S3, C3, Hs. }
  destruct Hstep as (H1 & H2 & H3).
  rewrite I1, I2, H1, H2. repeat split. intros h' Hs. apply I3, H3, Hs.
Qed.

Lemma fireOne_fired now (l : Loop) h :
  is_Some (heap l !! h) ->
  fired (fireOne now l h) = fired l ++ [h]
  /\ (forall h', is_Some (heap l !! h') -> is_Some (heap (fireOne now l h) !! h')).
Proof.
  intros (t & Hh). unfold fireOne. rewrite Hh. cbn [tworld set_heap].
  destruct (tCallback t now (tworld l)) as [w cmds].
  match goal with |- context [fold_left runCmd cmds ?l0] =>
    destruct (runCmds_keep cmds l0) as (R1 & _ & R3); set (l1 := fold_left runCmd cmds l0) in *
  end.
  cbn [fired heap set_called set_heap] in R1, R3.
  assert (Hkeep : forall h', is_Some (heap l !! h') -> is_Some (heap l1 !! h')).
  { intros h' Hs. apply R3. apply lookup_insert_is_Some.
    destruct (Nat.eq_dec h h') as [->|Hne]; [now left | right; split; assumption]. }
  destruct (heap l1 !! h) as [t1|] eqn:Hh1; [|split; assumption].
  destruct (negb (tRepeat t1 =? 0) && (tNext t1 =? 0)); [|split; assumption].
  cbn [fired heap set_timers set_heap]. split; [exact R1|].
  intros h' Hs. apply lookup_insert_is_Some.
  destruct (Nat.eq_dec h h') as [->|Hne]; [now left | right; split; [assumption|]].
  apply Hkeep, Hs.
Qed.

Lemma fireAll_fired now : forall triggered (l : Loop),
  (forall h, In h triggered -> is_Some (heap l !! h)) ->
  fired (fold_left (fireOne now) triggered l) = fired l ++ triggered.
Proof.
  induction triggered as [|h triggered IH]; intros l Hall.
  - cbn. now rewrite List.app_nil_r.
  - cbn [fold_left].
    destruct (fireOne_fired now l h (Hall h (or_introl eq_refl))) as (F1 & F2).
    rewrite IH.
    + rewrite F1, <- List.app_assoc. reflexivity.
    + intros h' Hin. apply F2, Hall. now right.
Qed.

(** *** What every operation keeps *)

Lemma sorted_suffix (due remaining : list (Z * nat)) :
  StronglySorted byKey (due ++ remaining) -> StronglySorted byKey remaining.
Proof.
  induction due as [|e due IH]; intros Hs; [exact Hs|].
  cbn in Hs. apply StronglySorted_inv in Hs. apply IH. apply Hs.
Qed.

Lemma sound_update (l l' : Loop) :
  StronglySorted byKey (timers l') ->
  (forall e, In e (timers l') -> In e (timers l) \/ is_Some (heap l' !! snd e)) ->
  (forall h, is_Some (heap l !! h) -> is_Some (heap l' !! h)) ->
  tableSound l -> tableSound l'.
Proof.
  intros Hs Hin Hheap (_ & Hl). split; [exact Hs|].
  intros k h He. destruct (Hin _ He) as [Hold|Hnew]; [|exact Hnew].
  apply Hheap. exact (Hl k h Hold).
Qed.

Lemma insert_keeps (m : gmap nat Timer) h (t : Timer) h' :
  is_Some (m !! h') -> is_Some (<[h := t]> m !! h').
Proof.
  intros Hs. apply lookup_insert_is_Some.
  destruct (Nat.eq_dec h h') as [->|Hne]; [now left | right; split; assumption].
Qed.

Lemma consistent_sound (l : Loop) : consistent l -> tableSound l.
Proof.
  intros (Hs & _ & Hentry & _). split; [exact Hs|].
  intros k h Hin. destruct (Hentry k h Hin) as (t & Ht & _). now exists t.
Qed.

Lemma CancelTimer_sound h (l : Loop) : tableSound l -> tableSound (CancelTimer h l).
Proof.
  intros Hl. pose proof Hl as (Hs & _). apply (sound_update l); [| | |exact Hl].
  - unfold CancelTimer. destruct (heap l !! h) as [t|]; [|exact Hs].
    destruct (tNext (set_tRepeat 0 t) =? 0); cbn [timers set_heap set_timers];
      [exact Hs | apply eraseOne_sorted; exact Hs].
  - intros e He. left. revert He. unfold CancelTimer.
    destruct (heap l !! h) as [t|]; [|tauto].
    destruct (tNext (set_tRepeat 0 t) =? 0); cbn [timers set_heap set_timers];
      [tauto | apply eraseOne_sub].
  - apply CancelTimer_keeps.
Qed.

Lemma schedule_sound h next (l : Loop) : tableSound l -> tableSound (schedule h next l).
Proof.
  intros Hl. pose proof Hl as (Hs & _). apply (sound_update l); [| | |exact Hl].
  - unfold schedule. destruct (heap l !! h) as [t|]; [|exact Hs].
    cbn [timers set_heap set_timers]. apply emplace_sorted. exact Hs.
  - intros e. unfold schedule. destruct (heap l !! h) as [t|]; [|tauto].
    cbn [timers heap set_heap set_timers]. intros He.
    apply emplace_In in He. destruct He as [->|He]; [right | now left].
    cbn [snd]. rewrite lookup_insert_eq. now eexists.
  - apply schedule_keeps.
Qed.

Lemma runCmds_sound : forall cmds (l : Loop),
  tableSound l -> tableSound (fold_left runCmd cmds l).
Proof.
  induction cmds as [|c cmds IH]; intros l Hl; [exact Hl|].
  cbn [fold_left]. apply IH.
  destruct c as [h|h ms]; cbn [runCmd]; unfold Cancel, Again.
  - apply CancelTimer_sound. exact Hl.
  - apply schedule_sound, CancelTimer_sound. exact Hl.
Qed.

Lemma fireOne_sound now (l : Loop) h : tableSound l -> tableSound (fireOne now l h).
Proof.
  intros Hl. unfold fireOne. destruct (heap l !! h) as [t|] eqn:Hh; [|exact Hl].
  cbn [tworld set_heap].
  destruct (tCallback t now (tworld l)) as [w cmds].
  match goal with |- context [fold_left runCmd cmds ?l0] =>
    assert (H1 : tableSound (fold_left runCmd cmds l0))
  end.
  { apply runCmds_sound. apply (sound_update l); [| | |exact Hl].
    - cbn [timers set_called set_heap]. apply Hl.
    - intros e He. now left.
    - intros h' Hs. cbn [heap set_called set_heap]. apply insert_keeps. exact Hs. }
  match goal with |- context [fold_left runCmd cmds ?l0] =>
    set (l1 := fold_left runCmd cmds l0) in *
  end.
  destruct (heap l1 !! h) as [t1|] eqn:Hh1; [|exact H1].
  destruct (negb (tRepeat t1 =? 0) && (tNext t1 =? 0)); [|exact H1].
  apply (sound_update l1); [| | |exact H1].
  - cbn [timers set_heap set_timers]. apply emplace_sorted. apply H1.
  - intros e He. cbn [timers heap set_heap set_timers] in *.
    apply emplace_In in He. destruct He as [->|He]; [right | now left].
    cbn [snd]. rewrite lookup_insert_eq. now eexists.
  - intros h' Hs. cbn [heap set_heap set_timers]. apply insert_keeps. exact Hs.
Qed.

Lemma fireAll_sound now : forall triggered (l : Loop),
  tableSound l -> tableSound (fold_left (fireOne now) triggered l).
Proof.
  induction triggered as [|h triggered IH]; intros l Hl; [exact Hl|].
  cbn [fold_left]. apply IH, fireOne_sound, Hl.
Qed.

(** The table stays in order and holds timers of the loop only, through the
    creation of timers, Cancel, Again and a new reading of the clock; it is
    so on a loop without timers. *)
Lemma tableSound_kept (l : Loop) :
  tableSound l ->
  (forall h, tableSound (Cancel h l))
  /\ (forall h ms, tableSound (Again h ms l))
  /\ (forall ms rep cb, tableSound (snd (CreateTimer ms rep cb l)))
  /\ (forall now, tableSound (set_tnow now l)).
Proof.
  intros Hl. split; [|split; [|split]].
  - intros h. apply CancelTimer_sound, Hl.
  - intros h ms. apply schedule_sound, CancelTimer_sound, Hl.
  - intros ms rep cb. unfold CreateTimer, newTimer. cbn [snd].
    apply schedule_sound. apply (sound_update l); [| | |exact Hl].
    + cbn [timers set_handles set_heap]. apply Hl.
    + intros e He. now left.
    + intros h Hs. cbn [heap set_handles set_heap]. apply insert_keeps. exact Hs.
  - intros now. exact Hl.
Qed.

Lemma tableSound_empty (w : World) now n :
  tableSound {| timers := []; heap := ∅; handles := n; tnow := now; tworld := w;
                fired := [] |}.
Proof. split; [constructor | intros k h []]. Qed.

(** X22.  The table of timers is always in the order of its keys and holds
    timers of the loop only: this is so on a loop without timers, and the
    creation of timers, Cancel, Again and the timer phase keep it so.  In
    such a state the timer phase invokes, for every entry of the table whose
    key is not after [now] when the phase starts, the callback of the timer
    of that entry: once for each entry and in the order of the table (by fire
    time, and for equal times in the order of scheduling), and no other
    callback.  This is so whatever calls of Cancel and Again the callbacks
    make: an entry that is due still fires when a callback run before it in
    the same phase has cancelled or rescheduled its timer, and a timer that
    the table holds twice fires twice. *)
Theorem timer_phase_fires_all_due :
  forall (l : Loop),
    tableSound l ->
    fired (timerPhase l)
      = fired l ++ List.map snd (List.filter (fun e => fst e <=? tnow l) (timers l))
    /\ tableSound (timerPhase l)
    /\ (forall h, tableSound (Cancel h l))
    /\ (forall h ms, tableSound (Again h ms l))
    /\ (forall ms rep cb, tableSound (snd (CreateTimer ms rep cb l)))
    /\ (forall now, tableSound (set_tnow now l))
    /\ (forall (w : World) now,
          tableSound {| timers := []; heap := ∅; handles := 0; tnow := now;
                        tworld := w; fired := [] |}).
Proof.
  intros l Hl. pose proof Hl as (Hsorted & Hentry).
  pose proof (tableSound_kept l Hl) as (K1 & K2 & K3 & K4).
  cut (fired (timerPhase l)
       = fired l ++ List.map snd (List.filter (fun e => fst e <=? tnow l) (timers l))
       /\ tableSound (timerPhase l)).
  { intros (G1 & G2). repeat (split; [assumption|]).
    intros w now. apply tableSound_empty. }
  unfold timerPhase.
  destruct (collect_spec (tnow l) (timers l) Hsorted) as (due & E1 & E2 & F1 & F2).
  destruct (collect (tnow l) (timers l)) as [triggered remaining]. cbn [fst snd] in *.
  split.
  - rewrite fireAll_fired.
    + cbn [fired set_timers]. rewrite E1, (filter_due _ _ _ F1 F2), E2.
      reflexivity.
    + intros h Hin. cbn [heap set_timers]. rewrite E2 in Hin.
      apply List.in_map_iff in Hin. destruct Hin as ([k h0] & Heq & Hin).
      cbn in Heq. subst h0. apply (Hentry k h).
      rewrite E1. apply List.in_or_app. now left.
  - apply fireAll_sound. apply (sound_update l); [| | |exact Hl].
    + cbn [timers set_timers]. apply (sorted_suffix due). rewrite <- E1. exact Hsorted.
    + intros e He. left. cbn [timers set_timers] in He.
      rewrite E1. apply List.in_or_app. now right.
    + intros h Hs. exact Hs.
Qed.

(** *** The timer phase with callbacks that leave the timers alone *)

Lemma fireOne_quiet now (l : Loop) h (t : Timer) :
  heap l !! h = Some t -> quiet (tCallback t) ->
  exists w,
    fireOne now l h
    = if tRepeat t =? 0
      then set_called w h (set_heap (<[h := set_tNext 0 t]> (heap l)) l)
      else
        set_timers (emplace (now + tRepeat t) h (timers l))
          (set_heap (<[h := set_tNext (now + tRepeat t) t]>
                       (<[h := set_tNext 0 t]> (heap l)))
             (set_called w h (set_heap (<[h := set_tNext 0 t]> (heap l)) l))).
Proof.
  intros Hh Hq. unfold fireOne. rewrite Hh. cbn [tworld set_heap].
  specialize (Hq now (tworld l)).
  destruct (tCallback t now (tworld l)) as [w cmds]. cbn in Hq. subst cmds.
  exists w. cbn [fold_left heap set_called set_heap].
  rewrite lookup_insert_eq. cbn [tRepeat tNext set_tNext Z.eqb andb].
  rewrite andb_true_r. destruct (tRepeat t =? 0); reflexivity.
Qed.

Lemma NoDup_app_parts {T : Type} (xs ys : list T) :
  List.NoDup (xs ++ ys) ->
  List.NoDup xs /\ List.NoDup ys /\ (forall x, In x xs -> ~ In x ys).
Proof.
  induction xs as [|x xs IH]; intros Hnd.
  - split; [constructor|]. split; [exact Hnd|]. intros x [].
  - cbn in Hnd. apply List.NoDup_cons_iff in Hnd. destruct Hnd as (Hx & Hnd).
    destruct (IH Hnd) as (I1 & I2 & I3).
    split; [|split; [exact I2|]].
    + apply List.NoDup_cons; [|exact I1]. intros Hin. apply Hx.
      apply List.in_or_app. now left.
    + intros y [<-|Hy] Hys; [|exact (I3 y Hy Hys)].
      apply Hx. apply List.in_or_app. now right.
Qed.

(** What holds between two callbacks of the phase: [pending] are the timers
    taken off the table that have not been fired yet. *)
Lemma fireOne_quiet_step now h pending (l : Loop) :
  0 <= now ->
  StronglySorted byKey (timers l) ->
  List.NoDup (List.map snd (timers l)) ->
  (forall k h', In (k, h') (timers l) ->
     exists t, heap l !! h' = Some t /\ tNext t = k /\ k <> 0) ->
  (forall h' t, heap l !! h' = Some t -> tNext t <> 0 ->
     In (tNext t, h') (timers l) \/ In h' (h :: pending)) ->
  (forall h', In h' (h :: pending) -> forall k, ~ In (k, h') (timers l)) ->
  List.NoDup (h :: pending) ->
  (forall h' t, heap l !! h' = Some t -> quiet (tCallback t) /\ 0 <= tRepeat t) ->
  Forall (fun e => now < fst e) (timers l) ->
  forall t, heap l !! h = Some t ->
  let l' := fireOne now l h in
  StronglySorted byKey (timers l')
  /\ List.NoDup (List.map snd (timers l'))
  /\ (forall k h', In (k, h') (timers l') ->
        exists t, heap l' !! h' = Some t /\ tNext t = k /\ k <> 0)
  /\ (forall h' t, heap l' !! h' = Some t -> tNext t <> 0 ->
        In (tNext t, h') (timers l') \/ In h' pending)
  /\ (forall h', In h' pending -> forall k, ~ In (k, h') (timers l'))
  /\ (forall h' t, heap l' !! h' = Some t -> quiet (tCallback t) /\ 0 <= tRepeat t)
  /\ Forall (fun e => now < fst e) (timers l')
  /\ heap l' !! h
     = Some (set_tNext (if tRepeat t =? 0 then 0 else now + tRepeat t) t)
  /\ (forall h', h' <> h -> heap l' !! h' = heap l !! h')
  /\ (forall e, In e (timers l) -> In e (timers l')).
Proof.
  intros Hnow I1 I2 I3 I4 I5 I6 I7 I8 t Hh l'.
  destruct (I7 h t Hh) as (Hq & Hrep).
  destruct (fireOne_quiet now l h t Hh Hq) as (w & Efire).
  apply List.NoDup_cons_iff in I6. destruct I6 as (Hnew & I6).
  assert (Habs : forall k, ~ In (k, h) (timers l)) by (apply I5; now left).
  subst l'. rewrite Efire. destruct (tRepeat t =? 0) eqn:Hzero.
  - cbn [timers heap set_called set_heap].
    split; [exact I1|]. split; [exact I2|]. split; [|split; [|split; [|split; [|split]]]].
    + intros k h' Hin. destruct (Nat.eq_dec h h') as [<-|Hne]; [exfalso; exact (Habs k Hin)|].
      rewrite lookup_insert_ne by exact Hne. exact (I3 k h' Hin).
    + intros h' t' Hh' Hn. destruct (Nat.eq_dec h h') as [<-|Hne].
      * rewrite lookup_insert_eq in Hh'. injection Hh' as <-. cbn in Hn. lia.
      * rewrite lookup_insert_ne in Hh' by exact Hne.
        destruct (I4 h' t' Hh' Hn) as [Hin|[Heq|Hin]];
          [now left | contradiction | now right].
    + intros h' Hin. apply I5. now right.
    + intros h' t' Hh'. destruct (Nat.eq_dec h h') as [<-|Hne].
      * rewrite lookup_insert_eq in Hh'. injection Hh' as <-. cbn. split; assumption.
      * rewrite lookup_insert_ne in Hh' by exact Hne. exact (I7 h' t' Hh').
    + exact I8.
    + split; [apply lookup_insert_eq|]. split; [|intros e He; exact He].
      intros h' Hne. apply lookup_insert_ne. congruence.
  - apply Z.eqb_neq in Hzero.
    cbn [timers heap set_called set_heap set_timers].
    split; [apply emplace_sorted; exact I1|]. split.
    { apply emplace_handles; [|exact I2]. intros Hin.
      apply List.in_map_iff in Hin. destruct Hin as ([k h0] & Heq & Hin).
      cbn in Heq. subst h0. exact (Habs k Hin). }
    split; [|split; [|split; [|split; [|split]]]].
    + intros k h' Hin. apply emplace_In in Hin. destruct Hin as [Heq|Hin].
      * injection Heq as -> ->. rewrite lookup_insert_eq.
        eexists. split; [reflexivity|]. split; [reflexivity|lia].
      * destruct (Nat.eq_dec h h') as [<-|Hne]; [exfalso; exact (Habs k Hin)|].
        rewrite !lookup_insert_ne by exact Hne. exact (I3 k h' Hin).
    + intros h' t' Hh' Hn. destruct (Nat.eq_dec h h') as [<-|Hne].
      * rewrite lookup_insert_eq in Hh'. injection Hh' as <-. left.
        apply emplace_In. now left.
      * rewrite !lookup_insert_ne in Hh' by exact Hne.
        destruct (I4 h' t' Hh' Hn) as [Hin|[Heq|Hin]];
          [left; apply emplace_In; now right | contradiction | now right].
    + intros h' Hin k Hk. apply emplace_In in Hk. destruct Hk as [Heq|Hk].
      * injection Heq as _ ->. exact (Hnew Hin).
      * apply (I5 h' (or_intror Hin) k Hk).
    + intros h' t' Hh'. destruct (Nat.eq_dec h h') as [<-|Hne].
      * rewrite lookup_insert_eq in Hh'. injection Hh' as <-. cbn. split; assumption.
      * rewrite !lookup_insert_ne in Hh' by exact Hne. exact (I7 h' t' Hh').
    + apply List.Forall_forall. intros e He. apply emplace_In in He.
      destruct He as [->|He]; [cbn; lia|].
      rewrite List.Forall_forall in I8. exact (I8 e He).
    + split; [apply lookup_insert_eq|]. split.
      * intros h' Hne. rewrite !lookup_insert_ne by congruence. reflexivity.
      * intros e He. apply emplace_In. now right.
Qed.

Lemma fireAll_quiet now : forall pending (l : Loop),
  0 <= now ->
  StronglySorted byKey (timers l) ->
  List.NoDup (List.map snd (timers l)) ->
  (forall k h', In (k, h') (timers l) ->
     exists t, heap l !! h' = Some t /\ tNext t = k /\ k <> 0) ->
  (forall h' t, heap l !! h' = Some t -> tNext t <> 0 ->
     In (tNext t, h') (timers l) \/ In h' pending) ->
  (forall h', In h' pending -> forall k, ~ In (k, h') (timers l)) ->
  List.NoDup pending ->
  (forall h' t, heap l !! h' = Some t -> quiet (tCallback t) /\ 0 <= tRepeat t) ->
  Forall (fun e => now < fst e) (timers l) ->
  (forall h', In h' pending -> is_Some (heap l !! h')) ->
  let l' := fold_left (fireOne now) pending l in
  StronglySorted byKey (timers l')
  /\ List.NoDup (List.map snd (timers l'))
  /\ (forall k h', In (k, h') (timers l') ->
        exists t, heap l' !! h' = Some t /\ tNext t = k /\ k <> 0)
  /\ (forall h' t, heap l' !! h' = Some t -> tNext t <> 0 -> In (tNext t, h') (timers l'))
  /\ Forall (fun e => now < fst e) (timers l')
  /\ (forall h' t, In h' pending -> heap l !! h' = Some t ->
        heap l' !! h'
        = Some (set_tNext (if tRepeat t =? 0 then 0 else now + tRepeat t) t))
  /\ (forall h', ~ In h' pending -> heap l' !! h' = heap l !! h')
  /\ (forall e, In e (timers l) -> In e (timers l')).
Proof.
  induction pending as [|h pending IH]; intros l Hnow I1 I2 I3 I4 I5 I6 I7 I8 I9 l'.
  - subst l'. cbn [fold_left].
    split; [exact I1|]. split; [exact I2|]. split; [exact I3|]. split.
    { intros h' t Hh' Hn. destruct (I4 h' t Hh' Hn) as [Hin|[]]. exact Hin. }
    split; [exact I8|]. split; [intros h' t []|]. split; [reflexivity|auto].
  - destruct (I9 h (or_introl eq_refl)) as (t & Hh).
    destruct (fireOne_quiet_step now h pending l Hnow I1 I2 I3 I4 I5 I6 I7 I8 t Hh)
      as (J1 & J2 & J3 & J4 & J5 & J7 & J8 & Jh & Jother & Jkeep).
    pose proof I6 as I6'. apply List.NoDup_cons_iff in I6'. destruct I6' as (Hnew & I6').
    assert (J9 : forall h', In h' pending -> is_Some (heap (fireOne now l h) !! h')).
    { intros h' Hin. rewrite Jother by (intros ->; exact (Hnew Hin)).
      apply I9. now right. }
    specialize (IH (fireOne now l h) Hnow J1 J2 J3 J4 J5 I6' J7 J8 J9).
    subst l'. cbn [fold_left].
    destruct IH as (K1 & K2 & K3 & K4 & K8 & Kfired & Kother & Kkeep).
    split; [exact K1|]. split; [exact K2|]. split; [exact K3|]. split; [exact K4|].
    split; [exact K8|]. split; [|split].
    + intros h' t' [<-|Hin] Hh'.
      * rewrite Hh in Hh'. injection Hh' as <-. rewrite (Kother h Hnew). exact Jh.
      * apply Kfired; [exact Hin|]. rewrite Jother by (intros ->; exact (Hnew Hin)).
        exact Hh'.
    + intros h' Hno. rewrite Kother by (intros Hin; apply Hno; now right).
      apply Jother. intros ->. apply Hno. now left.
    + intros e He. apply Kkeep, Jkeep, He.
Qed.

(** X23.  The timer phase when the callbacks leave the timers alone (time
    not negative, repeat intervals not negative).  A one-shot timer that is
    due ends not scheduled; a repeating timer that is due is scheduled
    again one interval after [now] -- counted from the time of this
    iteration, not from the time it was due.  Timers that are not due keep
    their object and their entry.  Afterwards no entry of the table is due,
    and table and timer objects agree. *)
Theorem quiet_timer_phase_reschedules :
  forall (l : Loop),
    consistent l ->
    0 <= tnow l ->
    (forall h t, heap l !! h = Some t -> quiet (tCallback t) /\ 0 <= tRepeat t) ->
    consistent (timerPhase l)
    /\ Forall (fun e => tnow l < fst e) (timers (timerPhase l))
    /\ (forall h t, heap l !! h = Some t ->
          tNext t <> 0 -> tNext t <= tnow l ->
          heap (timerPhase l) !! h
          = Some (set_tNext (if tRepeat t =? 0 then 0 else tnow l + tRepeat t) t))
    /\ (forall h t, heap l !! h = Some t ->
          tNext t = 0 \/ tnow l < tNext t ->
          heap (timerPhase l) !! h = Some t)
    /\ (forall k h, In (k, h) (timers l) -> tnow l < k ->
          In (k, h) (timers (timerPhase l))).
Proof.
  intros l (Hsorted & Hnd & Hentry & Hsched) Hnow Hquiet. unfold timerPhase.
  destruct (collect_spec (tnow l) (timers l) Hsorted) as (due & E1 & E2 & F1 & F2).
  destruct (collect (tnow l) (timers l)) as [triggered remaining]. cbn [fst snd] in *.
  subst triggered.
  assert (Hnd' : List.NoDup (List.map snd due ++ List.map snd remaining))
    by (rewrite <- List.map_app, <- E1; exact Hnd).
  destruct (NoDup_app_parts _ _ Hnd') as (Nd & Nr & Ndisj).
  rewrite E1 in Hsorted.
  assert (Hdue : forall h, In h (List.map snd due) ->
                   exists t, heap l !! h = Some t /\ tNext t <> 0 /\ tNext t <= tnow l).
  { intros h Hin. apply List.in_map_iff in Hin. destruct Hin as ([k h0] & Heq & Hin).
    cbn in Heq. subst h0.
    destruct (Hentry k h) as (t & Ht & Hk & Hne);
      [rewrite E1; apply List.in_or_app; now left|].
    exists t. split; [exact Ht|]. rewrite List.Forall_forall in F1.
    specialize (F1 _ Hin). cbn in F1. lia. }
  destruct (fireAll_quiet (tnow l) (List.map snd due) (set_timers remaining l) Hnow)
    as (K1 & K2 & K3 & K4 & K8 & Kfired & Kother & Kkeep);
    cbn [timers heap set_timers].
  - exact (sorted_suffix _ _ Hsorted).
  - exact Nr.
  - intros k h Hin. apply Hentry. rewrite E1. apply List.in_or_app. now right.
  - intros h t Hh Hn. specialize (Hsched h t Hh Hn). rewrite E1 in Hsched.
    apply List.in_app_or in Hsched. destruct Hsched as [Hin|Hin]; [right|now left].
    apply List.in_map_iff. exists (tNext t, h). now split.
  - intros h Hin k Hk. apply (Ndisj h Hin). apply List.in_map_iff.
    exists (k, h). now split.
  - exact Nd.
  - exact Hquiet.
  - exact F2.
  - intros h Hin. destruct (Hdue h Hin) as (t & Ht & _). exists t. exact Ht.
  - split; [split; [exact K1|split; [exact K2|split; [exact K3|exact K4]]]|].
    split; [exact K8|]. split; [|split].
    + intros h t Hh Hn Hle. apply Kfired; [|exact Hh].
      specialize (Hsched h t Hh Hn). rewrite E1 in Hsched.
      apply List.in_app_or in Hsched. destruct Hsched as [Hin|Hin].
      * apply List.in_map_iff. exists (tNext t, h). now split.
      * rewrite List.Forall_forall in F2. specialize (F2 _ Hin). cbn in F2. lia.
    + intros h t Hh Hcase. rewrite Kother; [exact Hh|].
      intros Hin. destruct (Hdue h Hin) as (t' & Ht' & Hn' & Hle').
      rewrite Hh in Ht'. injection Ht' as <-. lia.
    + intros k h Hin Hk. apply Kkeep. rewrite E1 in Hin.
      apply List.in_app_or in Hin. destruct Hin as [Hin|Hin]; [|exact Hin].
      rewrite List.Forall_forall in F1. specialize (F1 _ Hin). cbn in F1. lia.
Qed.

(** *** The timeout of poll *)

Lemma toInt_small x : - 2 ^ 31 <= x < 2 ^ 31 -> toInt x = x.
Proof. intros Hx. unfold toInt. rewrite Z.mod_small by lia. lia. Qed.

(** X24.  The timeout handed to poll.  It is 0 whenever a task is pending,
    so queued tasks never wait for the socket.  With no task pending and a
    timer in the table, it is 0 when the first timer is due and otherwise
    the time left to the first timer (or to the end of the run, when that
    comes first), so the loop never sleeps past the first timer.  It is -1,
    wait until signalled, when there is no task, no timer and no end of the
    run.  (Waits are below 2^31 milliseconds.) *)
Theorem poll_timeout_never_oversleeps :
  forall pendingTasks table duration until now,
    (pendingTasks <> 0%nat -> pollTimeout pendingTasks table duration until now = 0)
    /\ (forall first h rest,
          pendingTasks = 0%nat -> table = (first, h) :: rest ->
          Z.min first until - now < 2 ^ 31 ->
          0 <= pollTimeout pendingTasks table duration until now
          /\ (first <= now -> pollTimeout pendingTasks table duration until now = 0)
          /\ (now < first ->
              now + pollTimeout pendingTasks table duration until now <= first)
          /\ (now < first -> now < until ->
              pollTimeout pendingTasks table duration until now
              = Z.min first until - now))
    /\ (pendingTasks = 0%nat -> table = [] -> duration = msMax ->
        pollTimeout pendingTasks table duration until now = -1)
    /\ (pendingTasks = 0%nat -> table = [] -> duration <> msMax ->
        until - now < 2 ^ 31 ->
        pollTimeout pendingTasks table duration until now = Z.max 0 (until - now)).
Proof.
  intros pendingTasks table duration until now. unfold pollTimeout.
  split; [|split; [|split]].
  - intros Hp. apply Nat.eqb_neq in Hp. rewrite Hp. reflexivity.
  - intros first h rest -> -> Hrange. cbn [Nat.eqb negb].
    destruct (Z.min first until >? now) eqn:Hgt; rewrite Z.gtb_ltb in Hgt.
    + apply Z.ltb_lt in Hgt. rewrite toInt_small by lia. repeat split; lia.
    + apply Z.ltb_ge in Hgt. repeat split; lia.
  - intros -> -> ->. cbn [Nat.eqb negb]. rewrite Z.eqb_refl. reflexivity.
  - intros -> -> Hd Hrange. cbn [Nat.eqb negb].
    apply Z.eqb_neq in Hd. rewrite Hd. cbn [negb].
    destruct (until >? now) eqn:Hgt; rewrite Z.gtb_ltb in Hgt.
    + apply Z.ltb_lt in Hgt. rewrite toInt_small by lia. lia.
    + apply Z.ltb_ge in Hgt. lia.
Qed.

(** *** Loops built with the operations *)

Lemma consistent_noTimers (w : World) now :
  consistent {| timers := []; heap := ∅; handles := 0; tnow := now; tworld := w;
                fired := [] |}.
Proof.
  split; [constructor|]. split; [constructor|]. cbn [timers heap]. split.
  - intros k h [].
  - intros h t Hh. rewrite lookup_empty in Hh. discriminate Hh.
Qed.

Lemma consistent_set_tnow now (l : Loop) : consistent l -> consistent (set_tnow now l).
Proof. intros Hc. exact Hc. Qed.

Lemma CreateTimer_spec ms rep cb (l : Loop) :
  consistent l ->
  (forall h, (handles l <= h)%nat -> heap l !! h = None) ->
  tnow l + ms <> 0 ->
  fst (CreateTimer ms rep cb l) = handles l
  /\ consistent (snd (CreateTimer ms rep cb l))
  /\ heap (snd (CreateTimer ms rep cb l)) !! handles l
     = Some {| tNext := tnow l + ms; tRepeat := rep; tCallback := cb |}
  /\ (forall h', h' <> handles l ->
        heap (snd (CreateTimer ms rep cb l)) !! h' = heap l !! h')
  /\ handles (snd (CreateTimer ms rep cb l)) = S (handles l)
  /\ tnow (snd (CreateTimer ms rep cb l)) = tnow l.
Proof.
  intros Hc Hfresh Hnext.
  destruct (newTimer_spec rep cb l Hc Hfresh) as (N1 & N2 & N3 & N4 & N5 & N6).
  assert (N7 : tnow (snd (newTimer rep cb l)) = tnow l) by reflexivity.
  unfold CreateTimer.
  destruct (newTimer rep cb l) as [h l1] eqn:Enew. cbn [fst snd] in *. subst h.
  destruct (schedule_spec (handles l) _ (tnow l + ms) l1 N2 N3 eq_refl Hnext)
    as (S1 & S2 & _ & S4).
  assert (Hsame : handles (schedule (handles l) (tnow l + ms) l1) = handles l1
                  /\ tnow (schedule (handles l) (tnow l + ms) l1) = tnow l1).
  { unfold schedule. destruct (heap l1 !! handles l); split; reflexivity. }
  destruct Hsame as (Hh & Ht).
  split; [reflexivity|]. split; [exact S1|]. split; [exact S2|].
  split; [|split].
  - intros h' Hne. rewrite (S4 h' Hne). apply N5. exact Hne.
  - rewrite Hh. exact N6.
  - rewrite Ht. exact N7.
Qed.

End WithWorld.

End TimerFacts.

(** ** The further properties on concrete runs *)

Module MoreScenarios.

Import Bridge Props Props2 Samples.

Local Abbreviation step := (onMediaFrame (A := WindowAcu) maxLen noLayers zeroMemory).
Local Abbreviation runFeed := (feed (A := WindowAcu) maxLen noLayers zeroMemory).

Lemma unsupported_frame_is_transparent_witness :
  HasRtpPacketizationInfo (smallFrame Other 1000 [half1]) = true
  /\ rateOf (fType (smallFrame Other 1000 [half1])) = None
  /\ HasRtpPacketizationInfo (smallFrame Video 4000 [half1]) = true
  /\ snd (step (smallFrame Other 1000 [half1]) 5000 (Reset afterFrame2)) = []
  /\ step (smallFrame Video 4000 [half1]) 5001
       (fst (step (smallFrame Other 1000 [half1]) 5000 (Reset afterFrame2)))
     = step (smallFrame Video 4000 [half1]) 5001 (Reset afterFrame2).
Proof.
  split; [reflexivity|]. split; [reflexivity|]. split; [reflexivity|].
  destruct (BridgeMore.unsupported_frame_is_transparent maxLen noLayers zeroMemory
              (smallFrame Other 1000 [half1]) 5000 (smallFrame Video 4000 [half1]) 5001
              (Reset afterFrame2) eq_refl eq_refl eq_refl) as (E1 & _ & _ & E4).
  split; [exact E1 | exact E4].
Defined.

Lemma frame_statistics_witness :
  0 <= numPackets fresh < 2 ^ 32
  /\ numFrames (fst (step (smallFrame Video 1000 [half1; oversized; half2]) 5000 fresh))
     = DWORD (numFrames fresh + 1)
  /\ length (snd (step (smallFrame Video 1000 [half1; oversized; half2]) 5000 fresh))
     = length (List.filter (fits maxLen) [half1; oversized; half2]).
Proof.
  assert (Hrange : 0 <= numPackets fresh < 2 ^ 32) by (vm_compute; split; congruence).
  split; [exact Hrange|].
  destruct (BridgeMore.frame_statistics maxLen noLayers zeroMemory
              (smallFrame Video 1000 [half1; oversized; half2]) 5000 90 fresh
              eq_refl eq_refl Hrange) as (E1 & _ & E3 & _).
  split; [exact E1 | exact E3].
Defined.

Lemma packets_of_a_frame_witness :
  rateOf (fType (smallFrame Video 1000 [half1; oversized; overrun])) = Some 90
  /\ List.map pPayload
       (snd (step (smallFrame Video 1000 [half1; oversized; overrun]) 5000 fresh))
     = [[Byte.x01; Byte.x02]; [Byte.x03; Byte.x04; Byte.x00; Byte.x00]].
Proof.
  split; [reflexivity|].
  rewrite (proj1 (BridgeMore.packets_of_a_frame maxLen noLayers zeroMemory
                    (smallFrame Video 1000 [half1; oversized; overrun]) 5000 90 fresh
                    eq_refl eq_refl)).
  reflexivity.
Defined.

Lemma emitted_payload_fits_capacity_witness :
  Forall (inBounds (smallFrame Video 1000 [half1; half2])) [half1; half2]
  /\ Forall (fun p => Z.of_nat (length (pPayload p)) <= maxLen)
       (snd (step (smallFrame Video 1000 [half1; half2]) 5000 fresh)).
Proof.
  assert (Hin : Forall (inBounds (smallFrame Video 1000 [half1; half2])) [half1; half2]).
  { repeat constructor; vm_compute; congruence. }
  split; [exact Hin|].
  exact (proj2 (BridgeMore.emitted_payload_fits_capacity maxLen noLayers zeroMemory
                  (smallFrame Video 1000 [half1; half2]) 5000 90 fresh
                  eq_refl eq_refl Hin)).
Defined.

Lemma timestamp_within_segment_witness :
  reset sentAt1000 = false
  /\ firstTimestamp sentAt1000 <> 0
  /\ lastTimestamp (fst (step (smallFrame Video 4000 [half1]) 5040 sentAt1000))
     = baseTimestamp sentAt1000 + (4000 - firstTimestamp sentAt1000).
Proof.
  assert (Hfit : List.filter (fits maxLen) (fRtpInfo (smallFrame Video 4000 [half1])) <> [])
    by (vm_compute; discriminate).
  assert (Hfirst : firstTimestamp sentAt1000 <> 0) by (vm_compute; discriminate).
  split; [reflexivity|]. split; [exact Hfirst|].
  refine (proj2 (proj2 (proj2 (BridgeMore.timestamp_within_segment maxLen noLayers zeroMemory
            (smallFrame Video 4000 [half1]) 5040 90 sentAt1000
            eq_refl eq_refl Hfit eq_refl Hfirst))) _ _ _);
    vm_compute; try split; congruence.
Defined.

Lemma zero_timestamp_does_not_start_segment_witness :
  fTimeStamp (smallFrame Video 0 [half1]) = 0
  /\ firstTimestamp fresh = 0
  /\ lastTime fresh = 0
  /\ firstTimestamp (fst (step (smallFrame Video 0 [half1]) 5000 fresh)) = 0
  /\ lastTimestamp
       (fst (step (smallFrame Video 7000 [half1]) 5040
               (fst (step (smallFrame Video 0 [half1]) 5000 fresh))))
     = QWORD (baseTimestamp fresh).
Proof.
  assert (Hfit : List.filter (fits maxLen) (fRtpInfo (smallFrame Video 7000 [half1])) <> [])
    by (vm_compute; discriminate).
  split; [reflexivity|]. split; [reflexivity|]. split; [reflexivity|].
  destruct (BridgeMore.zero_timestamp_does_not_start_segment maxLen noLayers zeroMemory
              (smallFrame Video 0 [half1]) 5000 90 (smallFrame Video 7000 [half1]) 5040 90
              fresh eq_refl eq_refl eq_refl eq_refl eq_refl Hfit eq_refl eq_refl eq_refl)
    as (E1 & E2 & _).
  split; [exact E1 | exact E2].
Defined.

Lemma listeners_get_every_packet_witness :
  In (pkt 0 0 true [Byte.x01; Byte.x02])
     (snd (step (smallFrame Video 1000 [half1]) 5000 fresh))
  /\ In (7, pkt 0 0 true [Byte.x01; Byte.x02])
       (fanout (AddListener 7 fresh) (snd (step (smallFrame Video 1000 [half1]) 5000 fresh))).
Proof.
  assert (Hp : In (pkt 0 0 true [Byte.x01; Byte.x02])
                 (snd (step (smallFrame Video 1000 [half1]) 5000 fresh))).
  { assert (E : snd (step (smallFrame Video 1000 [half1]) 5000 fresh)
                = [pkt 0 0 true [Byte.x01; Byte.x02]]) by (vm_compute; reflexivity).
    rewrite E. now left. }
  split; [exact Hp|].
  exact (proj1 (BridgeMore.listeners_get_every_packet maxLen noLayers zeroMemory 7
                  (pkt 0 0 true [Byte.x01; Byte.x02])
                  (smallFrame Video 1000 [half1]) 5000 fresh Hp)).
Defined.

End MoreScenarios.

Module MoreLoopScenarios.

Import EventLoop Props Props2 Samples.

Local Abbreviation Loop := (EventLoop (World := nat)).

Lemma Send_never_returns_to_Normal_witness :
  state (set_state Overflown started) <> Normal
  /\ state (sendMany OtherThread [datagram 1; datagram 2] (set_state Overflown started))
     <> Normal.
Proof.
  assert (Hst : state (set_state Overflown started) <> Normal) by discriminate.
  split; [exact Hst|].
  exact (proj1 (LoopMore.Send_never_returns_to_Normal OtherThread
                  [datagram 1; datagram 2] (datagram 3)
                  (set_state Overflown started) Hst)).
Defined.

Lemma stalled_loop_keeps_first_packets_witness :
  sending started = []
  /\ sending (sendMany OtherThread [datagram 1; datagram 2] started)
     = firstn (Z.to_nat (MaxSendingQueueSize + 1)) [datagram 1; datagram 2].
Proof.
  split; [reflexivity|].
  exact (proj1 (LoopMore.stalled_loop_keeps_first_packets OtherThread
                  [datagram 1; datagram 2] started eq_refl)).
Defined.

Lemma Signal_writes_at_most_once_witness :
  signaled (Signal OtherThread started) = true
  /\ signalMany [OtherThread; LoopThread; OtherThread] (Signal OtherThread started)
     = Signal OtherThread started.
Proof.
  split; [reflexivity|].
  exact (proj2 (LoopMore.Signal_writes_at_most_once
                  [OtherThread; LoopThread; OtherThread] (Signal OtherThread started))
           eq_refl).
Defined.

Lemma Async_on_loop_thread_overtakes_witness :
  worker (Async OtherThread (bump 1) started) = InRun
  /\ history (drainTasks (tasks (Async LoopThread (bump 2) (Async OtherThread (bump 1) started)))
                (Async LoopThread (bump 2) (Async OtherThread (bump 1) started)))
     = history (Async OtherThread (bump 1) started)
       ++ completions (bump 2 :: tasks (Async OtherThread (bump 1) started)).
Proof.
  split; [reflexivity|].
  destruct (LoopMore.Async_on_loop_thread_overtakes (bump 2)
              (Async OtherThread (bump 1) started) eq_refl) as (_ & _ & _ & _ & E).
  exact E.
Defined.

Lemma Start_and_Stop_life_cycle_witness :
  worker idle = NotStarted
  /\ Start (snd (Start idle)) = (false, snd (Start idle))
  /\ (exists l2,
        Stop sysClock PollBlocked (snd (Start idle)) = Some (true, l2)
        /\ running l2 = false /\ worker l2 = NotStarted /\ fst (Start l2) = true)
  /\ signaled (Signal OtherThread idle) = true
  /\ Stop sysClock PollBlocked (snd (Start (Signal OtherThread idle))) = None.
Proof.
  split; [reflexivity|].
  destruct (LoopMore.Start_and_Stop_life_cycle sysClock PollBlocked idle eq_refl)
    as (_ & _ & E3 & E4 & _).
  split; [exact E3|]. split.
  - destruct (E4 (or_introl eq_refl)) as (l2 & P1 & P2 & P3 & _ & _ & P6).
    exists l2. repeat split; assumption.
  - split; [reflexivity|].
    exact (proj2 (proj2 (proj2 (proj2
             (LoopMore.Start_and_Stop_life_cycle sysClock PollBlocked
                (Signal OtherThread idle) eq_refl)))) eq_refl).
Defined.

Lemma write_phase_Normal_stops_at_first_failure_witness :
  (forall j, (j < 1)%nat -> failed (refusesSecond j) = false)
  /\ failed (refusesSecond 1) = true
  /\ writePhase Normal refusesSecond (Some (datagram 1)) [datagram 2; datagram 3]
     = (None, [datagram 3], [datagram 1])
  /\ writePhase Normal busyOnce None [datagram 1; datagram 2]
     = (Some (datagram 1), [datagram 2], []).
Proof.
  assert (Hok : forall j, (j < 1)%nat -> failed (refusesSecond j) = false).
  { intros j Hj. destruct j; [reflexivity | lia]. }
  assert (Hnone : forall j, (j < 0)%nat -> failed (busyOnce j) = false).
  { intros j Hj. lia. }
  split; [exact Hok|]. split; [reflexivity|]. split.
  - exact (proj1 (LoopMore.write_phase_Normal_stops_at_first_failure refusesSecond
                    (Some (datagram 1)) [datagram 2; datagram 3])
             1%nat (datagram 2) Hok eq_refl eq_refl).
  - exact (proj1 (LoopMore.write_phase_Normal_stops_at_first_failure busyOnce
                    None [datagram 1; datagram 2])
             0%nat (datagram 1) Hnone eq_refl eq_refl).
Defined.

Lemma write_phase_under_pressure_empties_queue_witness :
  Lagging <> Normal
  /\ writePhase Lagging busyOnce (Some (datagram 1)) [datagram 2; datagram 3]
     = (None, [], keepSent busyOnce 0 [datagram 1; datagram 2; datagram 3]).
Proof.
  assert (Hst : Lagging <> Normal) by discriminate.
  split; [exact Hst|].
  exact (LoopMore.write_phase_under_pressure_empties_queue Lagging busyOnce
           (Some (datagram 1)) [datagram 2; datagram 3] Hst).
Defined.

Lemma write_phase_sends_all_when_nothing_fails_witness :
  (forall k : nat, failed ((fun _ => Sent) k) = false)
  /\ writePhase Normal (fun _ => Sent) None [datagram 1; datagram 2]
     = (None, [], [datagram 1; datagram 2]).
Proof.
  assert (Hok : forall k : nat, failed ((fun _ => Sent) k) = false) by reflexivity.
  split; [exact Hok|].
  exact (LoopMore.write_phase_sends_all_when_nothing_fails Normal (fun _ => Sent) None
           [datagram 1; datagram 2] Hok).
Defined.

End MoreLoopScenarios.

Module TimerScenarios.

Import Timers Samples2.

Local Abbreviation Loop := (TimerLoop (World := nat)).

Lemma noTimers_fresh : forall h, (handles noTimers <= h)%nat -> heap noTimers !! h = None.
Proof. intros h _. apply lookup_empty. Qed.

Lemma oneTimer_facts :
  consistent oneTimer
  /\ heap oneTimer !! 0%nat = Some {| tNext := 1100; tRepeat := 50; tCallback := tick |}
  /\ (forall h, h <> 0%nat -> heap oneTimer !! h = None)
  /\ tnow oneTimer = 1000.
Proof.
  destruct (TimerFacts.CreateTimer_spec 100 50 tick noTimers
              (TimerFacts.consistent_noTimers 0%nat 1000) noTimers_fresh)
    as (_ & C & Hh & Hother & _ & Hnow); [discriminate|].
  unfold oneTimer.
  split; [exact C|]. split; [exact Hh|]. split; [|exact Hnow].
  intros h Hne. rewrite (Hother h Hne). apply lookup_empty.
Qed.

Lemma idleTimer_facts :
  consistent idleTimer
  /\ heap idleTimer !! 0%nat = Some {| tNext := 0; tRepeat := 0; tCallback := tick |}.
Proof.
  destruct (TimerFacts.newTimer_spec 0 tick noTimers
              (TimerFacts.consistent_noTimers 0%nat 1000) noTimers_fresh)
    as (_ & C & Hh & _).
  split; [exact C | exact Hh].
Qed.

Lemma twoTimers_facts : consistent twoTimers.
Proof.
  destruct (TimerFacts.CreateTimer_spec 100 0 (canceller 1) noTimers
              (TimerFacts.consistent_noTimers 0%nat 1000) noTimers_fresh)
    as (_ & C & _ & Hother & Hhandles & Hnow); [discriminate|].
  unfold twoTimers.
  refine (proj1 (proj2 (TimerFacts.CreateTimer_spec 100 0 tick _ C _ _))).
  - intros h Hh. rewrite Hhandles in Hh. rewrite Hother by (cbn in *; lia).
    apply lookup_empty.
  - rewrite Hnow. discriminate.
Qed.

(** The loop after the timer phase in which the first timer has called
    Again on the second, due in the same phase: the second timer is in the
    table while its [next] is 0. *)
Lemma afterRearm_facts :
  timers afterRearm = [(1130, 1%nat)]
  /\ heap afterRearm !! 1%nat = Some {| tNext := 0; tRepeat := 0; tCallback := tick |}
  /\ fired afterRearm = [0%nat; 1%nat]
  /\ tnow afterRearm = 1100.
Proof. repeat split; vm_compute; reflexivity. Qed.

Lemma CancelTimer_unschedules_witness :
  heap oneTimer !! 0%nat = Some {| tNext := 1100; tRepeat := 50; tCallback := tick |}
  /\ consistent oneTimer
  /\ (forall k, ~ In (k, 0%nat) (timers (Cancel 0 oneTimer)))
  /\ heap afterRearm !! 1%nat = Some {| tNext := 0; tRepeat := 0; tCallback := tick |}
  /\ timers (Cancel 1 afterRearm) = [(1130, 1%nat)].
Proof.
  destruct oneTimer_facts as (C & Hh & _).
  destruct afterRearm_facts as (Ht & Hh1 & _).
  split; [exact Hh|]. split; [exact C|].
  destruct (TimerFacts.CancelTimer_unschedules 0%nat _ oneTimer Hh) as (_ & _ & _ & E4 & _).
  split; [exact (proj2 (E4 C))|]. split; [exact Hh1|].
  destruct (TimerFacts.CancelTimer_unschedules 1%nat _ afterRearm Hh1)
    as (_ & _ & _ & _ & E5).
  rewrite (E5 eq_refl). exact Ht.
Defined.

Lemma schedule_keeps_order_witness :
  consistent idleTimer
  /\ heap idleTimer !! 0%nat = Some {| tNext := 0; tRepeat := 0; tCallback := tick |}
  /\ consistent (schedule 0 1100 idleTimer).
Proof.
  destruct idleTimer_facts as (C & Hh).
  split; [exact C|]. split; [exact Hh|].
  assert (Hnext : 1100 <> 0) by discriminate.
  exact (proj1 (TimerFacts.schedule_keeps_order 0%nat _ 1100 idleTimer C Hh eq_refl Hnext)).
Defined.

Lemma Again_makes_one_shot_witness :
  heap oneTimer !! 0%nat = Some {| tNext := 1100; tRepeat := 50; tCallback := tick |}
  /\ (exists t', heap (Again 0 30 oneTimer) !! 0%nat = Some t'
                 /\ tNext t' = tnow oneTimer + 30 /\ tRepeat t' = 0
                 /\ tCallback t' = tick)
  /\ consistent oneTimer
  /\ tnow oneTimer + 30 <> 0
  /\ (forall k, In (k, 0%nat) (timers (Again 0 30 oneTimer)) <-> k = tnow oneTimer + 30)
  /\ heap afterRearm !! 1%nat = Some {| tNext := 0; tRepeat := 0; tCallback := tick |}
  /\ In (1130, 1%nat) (timers (Again 1 70 afterRearm))
  /\ In (tnow afterRearm + 70, 1%nat) (timers (Again 1 70 afterRearm)).
Proof.
  destruct oneTimer_facts as (C & Hh & _ & Hnow).
  destruct afterRearm_facts as (Ht & Hh1 & _).
  assert (Hnext : tnow oneTimer + 30 <> 0) by (rewrite Hnow; discriminate).
  destruct (TimerFacts.Again_makes_one_shot 0%nat _ 30 oneTimer Hh)
    as (E1 & _ & _ & _ & E5 & _).
  destruct (TimerFacts.Again_makes_one_shot 1%nat _ 70 afterRearm Hh1)
    as (_ & F2 & _ & _ & _ & F6).
  split; [exact Hh|]. split; [exact E1|]. split; [exact C|]. split; [exact Hnext|].
  split; [exact (proj2 (E5 C Hnext))|]. split; [exact Hh1|]. split; [|exact F2].
  apply (F6 eq_refl). rewrite Ht. now left.
Defined.

Lemma CreateTimer_adds_a_timer_witness :
  consistent noTimers
  /\ tnow noTimers + 100 <> 0
  /\ consistent (snd (CreateTimer 100 50 tick noTimers))
  /\ heap (snd (CreateTimer 100 50 tick noTimers)) !! fst (CreateTimer 100 50 tick noTimers)
     = Some {| tNext := tnow noTimers + 100; tRepeat := 50; tCallback := tick |}.
Proof.
  assert (Hnext : tnow noTimers + 100 <> 0) by discriminate.
  split; [exact (TimerFacts.consistent_noTimers 0%nat 1000)|]. split; [exact Hnext|].
  destruct (TimerFacts.CreateTimer_adds_a_timer 100 50 tick noTimers
              (TimerFacts.consistent_noTimers 0%nat 1000) noTimers_fresh Hnext)
    as (_ & E2 & E3 & _).
  split; [exact E2 | exact E3].
Defined.

Lemma timer_phase_fires_all_due_witness :
  tableSound (set_tnow 1100 twoTimers)
  /\ fired (timerPhase (set_tnow 1100 twoTimers)) = [0%nat; 1%nat]
  /\ tableSound (set_tnow 1200 (Again 1 70 afterRearm))
  /\ fired (timerPhase (set_tnow 1200 (Again 1 70 afterRearm)))
     = [0%nat; 1%nat; 1%nat; 1%nat].
Proof.
  assert (S0 : tableSound noTimers) by exact (TimerFacts.tableSound_empty 0%nat 1000 0%nat).
  assert (S2 : tableSound (set_tnow 1100 twoTimers)).
  { apply TimerFacts.consistent_sound.
    exact (TimerFacts.consistent_set_tnow 1100 twoTimers twoTimers_facts). }
  assert (S3 : tableSound (set_tnow 1100 rearmed)).
  { unfold rearmed.
    apply (TimerFacts.tableSound_kept _
             (proj1 (proj2 (proj2 (TimerFacts.tableSound_kept _
                (proj1 (proj2 (proj2 (TimerFacts.tableSound_kept _ S0)))
                   100 0 (rearmer 1 30))))) 100 0 tick)). }
  assert (S4 : tableSound (set_tnow 1200 (Again 1 70 afterRearm))).
  { apply (TimerFacts.tableSound_kept _
             (proj1 (proj2 (TimerFacts.tableSound_kept afterRearm
                (proj1 (proj2 (TimerFacts.timer_phase_fires_all_due _ S3))))) 1%nat 70)). }
  split; [exact S2|]. split.
  - rewrite (proj1 (TimerFacts.timer_phase_fires_all_due _ S2)).
    vm_compute. reflexivity.
  - split; [exact S4|].
    rewrite (proj1 (TimerFacts.timer_phase_fires_all_due _ S4)).
    vm_compute. reflexivity.
Defined.

Lemma quiet_timer_phase_reschedules_witness :
  consistent (set_tnow 1100 oneTimer)
  /\ 0 <= tnow (set_tnow 1100 oneTimer)
  /\ heap (timerPhase (set_tnow 1100 oneTimer)) !! 0%nat
     = Some {| tNext := 1150; tRepeat := 50; tCallback := tick |}.
Proof.
  destruct oneTimer_facts as (C & Hh & Hother & _).
  assert (C' : consistent (set_tnow 1100 oneTimer))
    by exact (TimerFacts.consistent_set_tnow 1100 oneTimer C).
  assert (Hnow : 0 <= tnow (set_tnow 1100 oneTimer)) by (cbn; lia).
  assert (Hquiet : forall h t, heap (set_tnow 1100 oneTimer) !! h = Some t ->
                     quiet (tCallback t) /\ 0 <= tRepeat t).
  { intros h t Ht. cbn [heap set_tnow] in Ht.
    destruct (Nat.eq_dec h 0%nat) as [->|Hne].
    - rewrite Hh in Ht. injection Ht as <-. cbn. split; [intros now w; reflexivity | lia].
    - rewrite (Hother h Hne) in Ht. discriminate Ht. }
  split; [exact C'|]. split; [exact Hnow|].
  destruct (TimerFacts.quiet_timer_phase_reschedules (set_tnow 1100 oneTimer) C' Hnow Hquiet)
    as (_ & _ & Hdue & _).
  refine (Hdue 0%nat _ Hh _ _); cbn; lia.
Defined.

Lemma poll_timeout_never_oversleeps_witness :
  pollTimeout 0 [(1100, 0%nat)] msMax msMax 1000 = Z.min 1100 msMax - 1000
  /\ pollTimeout 2 [(1100, 0%nat)] msMax msMax 1000 = 0.
Proof.
  destruct (TimerFacts.poll_timeout_never_oversleeps
              0 [(1100, 0%nat)] msMax msMax 1000) as (_ & Htimer & _).
  destruct (Htimer 1100 0%nat [] eq_refl eq_refl) as (_ & _ & _ & E).
  { vm_compute. reflexivity. }
  split; [apply E; vm_compute; reflexivity|].
  apply (proj1 (TimerFacts.poll_timeout_never_oversleeps
                  2 [(1100, 0%nat)] msMax msMax 1000)).
  discriminate.
Defined.

End TimerScenarios.
